(** * rsms/go-json: the caller-driven JSON [Builder] and [Reader]

    A shallow embedding of [builder.go] and [reader.go].  Go byte slices and
    Go strings are [list byte]; [int], [int64], [uint64] and [rune] values are
    [Z]; [float64] values are [spec_float] in the binary64 format; a Go
    [error] is a value of the inductive type [error], with [None] for [nil].

    Part I holds the model, Part II the properties proved about it. *)

From Stdlib Require Import String Ascii Strings.Byte.
From Stdlib Require Import ZArith NArith List Bool Lia.
From Stdlib Require Import Floats.SpecFloat.
Import ListNotations.
Local Open Scope Z_scope.

(* ===================================================================== *)
(** * Part I: the model *)
(* ===================================================================== *)

(** ** Go values *)

(** The bytes of a string literal of the source. *)
Definition B (s : string) : list byte := list_byte_of_string s.

(** The text of a Go string, for use inside a formatted message. *)
Definition text (s : list byte) : string := string_of_list_byte s.

Definition byteZ (b : byte) : Z := Z.of_N (Byte.to_N b).

(** A byte from an integer already known to be in range; Go's [byte(x)]. *)
Definition Zbyte (z : Z) : byte :=
  match Byte.of_N (Z.to_N (z mod 256)) with
  | Some b => b
  | None => x00
  end.

(** [s[i]] where the index is in range. *)
Definition at_ (s : list byte) (i : nat) : byte := nth i s x00.

(** [s[lo:hi]] *)
Definition slice (s : list byte) (lo hi : nat) : list byte :=
  firstn (hi - lo) (skipn lo s).

(** [s[i] = x] *)
Fixpoint store (s : list byte) (i : nat) (x : byte) : list byte :=
  match s, i with
  | [], _ => []
  | _ :: r, O => x :: r
  | y :: r, S j => y :: store r j x
  end.

(** [const intSize int = 32 << (^uint(0) >> 63)], on a 64-bit target. *)
Definition intSize : Z := 64.

(** Arithmetic of Go's [int] wraps around at [intSize] bits. *)
Definition wrap_int (z : Z) : Z :=
  (z + 2 ^ (intSize - 1)) mod 2 ^ intSize - 2 ^ (intSize - 1).

(** ** Errors *)

(** The sentinel errors a [*strconv.NumError] wraps. *)
Inductive strconvErr : Type :=
| ErrSyntax
| ErrRange
| ErrBitSize (bitSize : Z).

Inductive error : Type :=
| errorString (msg : string)                              (* [fmt.Errorf(...)] *)
| NumError (Func : string) (Num : list byte) (Err : strconvErr)
                                                           (* [*strconv.NumError] *)
| TokenizerError (msg : string).        (* reported by the tokenizer: [io.EOF],
                                           [*json.SyntaxError] *)

(** ** [strconv]: decimal integers *)

Definition digitByte (d : Z) : byte := Zbyte (byteZ "0" + d).

(** The decimal digits of [n >= 0], most significant first, in front of
    [acc].  [fuel] bounds the number of digits. *)
Fixpoint formatBits (fuel : nat) (n : Z) (acc : list byte) : list byte :=
  match fuel with
  | O => acc
  | S k =>
      let acc' := digitByte (n mod 10) :: acc in
      if n <? 10 then acc' else formatBits k (n / 10) acc'
  end.

(** [strconv.FormatUint(v, 10)] *)
Definition FormatUint (v : Z) : list byte :=
  formatBits (S (Z.to_nat (Z.log2 v))) v [].

(** [strconv.FormatInt(v, 10)]; [fmt.Fprintf(w, "%d", v)] writes the same
    bytes. *)
Definition FormatInt (v : Z) : list byte :=
  if v <? 0 then "-"%byte :: FormatUint (- v) else FormatUint v.

(** The loop of [strconv.ParseUint(s, 10, bitSize)]: [inl n] is the number
    read so far, [inr e] the error it stopped with. *)
Fixpoint parseDigits (maxVal : Z) (s : list byte) (n : Z) : Z + strconvErr :=
  match s with
  | [] => inl n
  | c :: r =>
      let d := byteZ c - byteZ "0" in
      if (0 <=? d) && (d <=? 9) then
        if (2 ^ 64 - 1) / 10 + 1 <=? n then inr ErrRange
        else
          let n1 := n * 10 + d in
          if maxVal <? n1 then inr ErrRange else parseDigits maxVal r n1
      else inr ErrSyntax
  end.

(** [strconv.ParseUint(s, 10, bitSize)]: the value and the sentinel error. *)
Definition parseUint (s : list byte) (bitSize : Z) : Z * option strconvErr :=
  match s with
  | [] => (0, Some ErrSyntax)
  | _ =>
      let bitSize' := if bitSize =? 0 then intSize else bitSize in
      if (bitSize' <? 0) || (64 <? bitSize') then (0, Some (ErrBitSize bitSize))
      else
        let maxVal := 2 ^ bitSize' - 1 in
        match parseDigits maxVal s 0 with
        | inl n => (n, None)
        | inr ErrRange => (maxVal, Some ErrRange)
        | inr e => (0, Some e)
        end
  end.

Definition ParseUint (s : list byte) (bitSize : Z) : Z * option error :=
  let '(n, e) := parseUint s bitSize in
  (n, option_map (NumError "ParseUint" s) e).

(** [strconv.ParseInt(s, 10, bitSize)] *)
Definition ParseInt (s : list byte) (bitSize : Z) : Z * option error :=
  match s with
  | [] => (0, Some (NumError "ParseInt" s ErrSyntax))
  | c :: r =>
      let neg := Byte.eqb c "-" in
      let s1 := if Byte.eqb c "+" || neg then r else s in
      let '(un, e) := parseUint s1 bitSize in
      match e with
      | Some ErrSyntax => (0, Some (NumError "ParseInt" s ErrSyntax))
      | Some (ErrBitSize b) => (0, Some (NumError "ParseInt" s (ErrBitSize b)))
      | _ =>
          let bitSize' := if bitSize =? 0 then intSize else bitSize in
          let cutoff := 2 ^ (bitSize' - 1) in
          if negb neg && (cutoff <=? un) then
            (cutoff - 1, Some (NumError "ParseInt" s ErrRange))
          else if neg && (cutoff <? un) then
            (- cutoff, Some (NumError "ParseInt" s ErrRange))
          else (if neg then - un else un, None)
      end
  end.

(** ** [unicode/utf8] *)

Definition RuneSelf : Z := 128.
Definition RuneError : Z := 65533.

Definition inRange (lo hi : Z) (b : byte) : bool :=
  (lo <=? byteZ b) && (byteZ b <=? hi).

(** The value bits of a continuation byte, [b & 0x3F]. *)
Definition cont (b : byte) : Z := byteZ b - 128.

(** [utf8.DecodeRune(p)]: the first rune of [p] and its width in bytes;
    [(RuneError, 1)] for an encoding that is not valid UTF-8.  The value
    bits of the bytes are put together arithmetically. *)
Definition DecodeRune (p : list byte) : Z * nat :=
  match p with
  | [] => (RuneError, 0%nat)
  | b0 :: r =>
      let c0 := byteZ b0 in
      if c0 <? RuneSelf then (c0, 1%nat)
      else if inRange 194 223 b0 then
        match r with
        | b1 :: _ =>
            if inRange 128 191 b1
            then ((c0 - 192) * 64 + cont b1, 2%nat)
            else (RuneError, 1%nat)
        | _ => (RuneError, 1%nat)
        end
      else if inRange 224 239 b0 then
        let lo := if c0 =? 224 then 160 else 128 in
        let hi := if c0 =? 237 then 159 else 191 in
        match r with
        | b1 :: b2 :: _ =>
            if inRange lo hi b1 && inRange 128 191 b2
            then ((c0 - 224) * 4096 + cont b1 * 64 + cont b2, 3%nat)
            else (RuneError, 1%nat)
        | _ => (RuneError, 1%nat)
        end
      else if inRange 240 244 b0 then
        let lo := if c0 =? 240 then 144 else 128 in
        let hi := if c0 =? 244 then 143 else 191 in
        match r with
        | b1 :: b2 :: b3 :: _ =>
            if inRange lo hi b1 && inRange 128 191 b2 && inRange 128 191 b3
            then ((c0 - 240) * 262144 + cont b1 * 4096 + cont b2 * 64
                  + cont b3, 4%nat)
            else (RuneError, 1%nat)
        | _ => (RuneError, 1%nat)
        end
      else (RuneError, 1%nat)
  end.

(** [utf8.EncodeRune]: a rune that is no Unicode scalar value is encoded
    as [RuneError]. *)
Definition EncodeRune (r : Z) : list byte :=
  if (0 <=? r) && (r <? 128) then [Zbyte r]
  else if (0 <=? r) && (r <? 2048) then
    [Zbyte (192 + r / 64); Zbyte (128 + r mod 64)]
  else if (r <? 0) || (1114111 <? r) || ((55296 <=? r) && (r <=? 57343)) then
    [xef; xbf; xbd]
  else if r <? 65536 then
    [Zbyte (224 + r / 4096); Zbyte (128 + r / 64 mod 64);
     Zbyte (128 + r mod 64)]
  else
    [Zbyte (240 + r / 262144); Zbyte (128 + r / 4096 mod 64);
     Zbyte (128 + r / 64 mod 64); Zbyte (128 + r mod 64)].

(** ** [encoding/base64]: [RawStdEncoding], the standard alphabet, unpadded *)

Definition encodeStd : list byte :=
  B "ABCDEFGHIJKLMNOPQRSTUVWXYZabcdefghijklmnopqrstuvwxyz0123456789+/".

Definition b64char (v : Z) : byte := at_ encodeStd (Z.to_nat v).

(** [base64.RawStdEncoding.Encode] *)
Fixpoint b64Encode (src : list byte) : list byte :=
  match src with
  | [] => []
  | [a] =>
      let v := byteZ a * 65536 in
      [b64char (v / 262144 mod 64); b64char (v / 4096 mod 64)]
  | [a; b] =>
      let v := byteZ a * 65536 + byteZ b * 256 in
      [b64char (v / 262144 mod 64); b64char (v / 4096 mod 64);
       b64char (v / 64 mod 64)]
  | a :: b :: c :: r =>
      let v := byteZ a * 65536 + byteZ b * 256 + byteZ c in
      b64char (v / 262144 mod 64) :: b64char (v / 4096 mod 64) ::
      b64char (v / 64 mod 64) :: b64char (v mod 64) :: b64Encode r
  end.

(** [base64.RawStdEncoding.EncodedLen(n)] *)
Definition EncodedLen (n : Z) : Z := (n * 8 + 5) / 6.

(** The inverse of the alphabet, [enc.decodeMap]: [None] stands for the
    entry [0xff] of a character outside the alphabet. *)
Fixpoint indexOf (c : byte) (l : list byte) (i : Z) : option Z :=
  match l with
  | [] => None
  | x :: r => if Byte.eqb x c then Some i else indexOf c r (i + 1)
  end.

Definition decodeMap (c : byte) : option Z := indexOf c encodeStd 0.

(** The bytes of a quantum that ends the input with [j] characters read
    ([j] is 2 or 3: the unpadded tail), or of a full quantum of four. *)
Definition quantumBytes (q : list Z) : list byte :=
  match q with
  | [a; b] => [Zbyte (a * 4 + b / 16)]
  | [a; b; c] => [Zbyte (a * 4 + b / 16); Zbyte (b mod 16 * 16 + c / 4)]
  | [a; b; c; d] =>
      [Zbyte (a * 4 + b / 16); Zbyte (b mod 16 * 16 + c / 4);
       Zbyte (c mod 4 * 64 + d)]
  | _ => []
  end.

(** The loop of [Encoding.Decode] for [RawStdEncoding] (no padding, not
    strict): [q] is the quantum being read, [si] the input offset, [out] the
    bytes decoded by the completed quanta.  The error, when there is one, is
    the offset of a [base64.CorruptInputError]. *)
Fixpoint b64Decode (s : list byte) (q : list Z) (si : Z) (out : list byte)
  : list byte * option Z :=
  match s with
  | [] =>
      match q with
      | [] => (out, None)
      | [_] => (out, Some (si - 1))
      | _ => (out ++ quantumBytes q, None)
      end
  | c :: r =>
      match decodeMap c with
      | Some v =>
          match q with
          | [_; _; _] => b64Decode r [] (si + 1) (out ++ quantumBytes (q ++ [v]))
          | _ => b64Decode r (q ++ [v]) (si + 1) out
          end
      | None =>
          if Byte.eqb c x0a || Byte.eqb c x0d then b64Decode r q (si + 1) out
          else (out, Some si)
      end
  end.

(** [base64.RawStdEncoding.DecodeString(s)] *)
Definition DecodeString (s : list byte) : list byte * option Z :=
  b64Decode s [] 0 [].

(** [base64.CorruptInputError.Error()] *)
Definition CorruptInputError_Error (n : Z) : string :=
  ("illegal base64 data at input byte " ++ text (FormatInt n))%string.

(** ** [float64] and [float32] *)

Definition float64 : Type := spec_float.

(** The [float64] nearest to [m * 2^e]. *)
Definition f64 (m e : Z) : float64 := binary_normalize 53 1024 m e false.

(** The [float32] nearest to [m * 2^e], as a [spec_float] of the binary32
    format. *)
Definition f32 (m e : Z) : spec_float := binary_normalize 24 128 m e false.

(** The conversion [float32(f)]: round to nearest, ties to even. *)
Definition float32 (f : float64) : spec_float :=
  match f with
  | S754_finite s m e => binary_round 24 128 s m e
  | _ => f
  end.

(** The constants [1e-6] and [1e21] of [Builder.Float], at either width:
    the nearest value of the format (both quotients are of exactly
    represented operands, so the division rounds once). *)
Definition c64_1e_6 : float64 := SFdiv 53 1024 (f64 1 0) (f64 (10 ^ 6) 0).
Definition c64_1e21 : float64 := f64 (10 ^ 21) 0.
Definition c32_1e_6 : spec_float := SFdiv 24 128 (f32 1 0) (f32 (10 ^ 6) 0).
Definition c32_1e21 : spec_float := f32 (10 ^ 21) 0.

(** [math.IsInf(f, 0)] *)
Definition IsInf (f : float64) : bool :=
  match f with S754_infinity _ => true | _ => false end.

(** [math.IsNaN(f)] *)
Definition IsNaN (f : float64) : bool :=
  match f with S754_nan => true | _ => false end.

(** [a != 0], [a < b] and [a >= b] on floats: every comparison with a NaN
    is false, but [!=] is true. *)
Definition fne0 (a : spec_float) : bool := negb (SFeqb a (S754_zero false)).
Definition flt (a b : spec_float) : bool := SFltb a b.
Definition fge (a b : spec_float) : bool := SFleb b a.

(** [int64(v)] of a [float64]: the fraction is discarded.  Outside the
    range of [int64] (and for NaN) Go leaves the result to the
    implementation; the model returns what amd64 does there, [-2^63]. *)
Definition truncF (f : float64) : option Z :=
  match f with
  | S754_zero _ => Some 0
  | S754_finite s m e =>
      let a := if 0 <=? e then Z.pos m * 2 ^ e else Z.pos m / 2 ^ (- e) in
      Some (if s then - a else a)
  | _ => None
  end.

Definition int64_of_float (f : float64) : Z :=
  match truncF f with
  | Some z => if (- 2 ^ 63 <=? z) && (z <? 2 ^ 63) then z else - 2 ^ 63
  | None => - 2 ^ 63
  end.

(** [uint64(v)] of a [float64]; outside the range of [uint64] the model
    returns what amd64 does, [2^63]. *)
Definition uint64_of_float (f : float64) : Z :=
  match truncF f with
  | Some z => if (0 <=? z) && (z <? 2 ^ 64) then z else 2 ^ 63
  | None => 2 ^ 63
  end.

(** The float formatting of [strconv], which the Builder calls and does
    not implement.  [AppendFloat dst f fmt prec bitSize] and
    [FormatFloat f fmt prec bitSize] are taken as total: the claims call
    them at the bit sizes 32 and 64 only. *)
Class Strconv : Type := {
  AppendFloat : list byte -> float64 -> byte -> Z -> Z -> list byte;
  FormatFloat : float64 -> byte -> Z -> Z -> list byte
}.

(** ** builder.go *)

Module Builder.

Inductive builderState : Type :=
| builderInit
| builderObj     (* just wrote `{` or `[` *)
| builderKey     (* just wrote `"key":` *)
| builderValue.  (* just wrote some value *)

Definition builderState_eqb (a b : builderState) : bool :=
  match a, b with
  | builderInit, builderInit | builderObj, builderObj
  | builderKey, builderKey | builderValue, builderValue => true
  | _, _ => false
  end.

(** The struct [Builder].  [Buffer] is the content of the embedded
    [bytes.Buffer]; [KeyTerm] is [None] while the slice is [nil]; [scratch]
    is the content of the backing array of the scratch slice. *)
Record Builder : Type := mk {
  Buffer : list byte;
  Err : option error;
  Indent : list byte;
  KeyTerm : option (list byte);
  state : builderState;
  scratch : list byte;
  nestdepth : Z
}.

(** [var b Builder] *)
Definition zero : Builder := mk [] None [] None builderInit [] 0.

Definition set_Buffer (e : Builder) (x : list byte) : Builder :=
  mk x (Err e) (Indent e) (KeyTerm e) (state e) (scratch e) (nestdepth e).
Definition set_Err (e : Builder) (x : option error) : Builder :=
  mk (Buffer e) x (Indent e) (KeyTerm e) (state e) (scratch e) (nestdepth e).
Definition set_Indent (e : Builder) (x : list byte) : Builder :=
  mk (Buffer e) (Err e) x (KeyTerm e) (state e) (scratch e) (nestdepth e).
Definition set_KeyTerm (e : Builder) (x : option (list byte)) : Builder :=
  mk (Buffer e) (Err e) (Indent e) x (state e) (scratch e) (nestdepth e).
Definition set_state (e : Builder) (x : builderState) : Builder :=
  mk (Buffer e) (Err e) (Indent e) (KeyTerm e) x (scratch e) (nestdepth e).
Definition set_scratch (e : Builder) (x : list byte) : Builder :=
  mk (Buffer e) (Err e) (Indent e) (KeyTerm e) (state e) x (nestdepth e).
Definition set_nestdepth (e : Builder) (x : Z) : Builder :=
  mk (Buffer e) (Err e) (Indent e) (KeyTerm e) (state e) (scratch e) x.

(** [bytes.Buffer.WriteByte] and [bytes.Buffer.Write] *)
Definition WriteByte (e : Builder) (c : byte) : Builder :=
  set_Buffer e (Buffer e ++ [c]).
Definition Write (e : Builder) (p : list byte) : Builder :=
  set_Buffer e (Buffer e ++ p).

(** [e.Bytes()] *)
Definition Bytes (e : Builder) : list byte := Buffer e.

(** Writing [p] through the scratch array: its first bytes are now [p]. *)
Definition stage (scratch p : list byte) : list byte :=
  p ++ skipn (length p) scratch.

Definition setError (e : Builder) (err : error) : Builder :=
  match Err e with
  | None => set_Err e (Some err)
  | Some _ => e
  end.

Definition writeNewLine (e : Builder) : Builder :=
  Write (WriteByte e x0a)
        (concat (repeat (Indent e) (Z.to_nat (nestdepth e)))).

Definition newLine (e : Builder) : Builder :=
  if (0 <? nestdepth e) && (0 <? Z.of_nat (length (Indent e)))
  then writeNewLine e else e.

Definition startChunk (e : Builder) (nextstate : builderState) : Builder :=
  let e1 :=
    match state e with
    | builderValue => newLine (WriteByte e ",")
    | builderObj =>
        if 0 <? Z.of_nat (length (Indent e)) then writeNewLine e else e
    | builderInit =>
        match KeyTerm e with
        | None =>
            if 0 <? Z.of_nat (length (Indent e))
            then set_KeyTerm e (Some [":"%byte; " "%byte])
            else set_KeyTerm e (Some [":"%byte])
        | Some _ => e
        end
    | builderKey => e
    end in
  set_state e1 nextstate.

(** [Reset] resets the Builder so it can be reused.  Does not reset
    [Indent]. *)
Definition Reset (e : Builder) : Builder :=
  set_nestdepth (set_state (set_Err (set_Buffer e []) None) builderInit) 0.

(** [e.Write(e.KeyTerm)]: a [nil] slice writes nothing. *)
Definition writeKeyTerm (e : Builder) : Builder :=
  Write e (match KeyTerm e with Some t => t | None => [] end).

Definition hexdigits : list byte := B "0123456789abcdef".

(** [jsonSafeSet]: the characters of the table that hold [true]. *)
Definition jsonSafeSet_true : list byte :=
  B " !#$%&'()*+,-./0123456789:;<=>?@ABCDEFGHIJKLMNOPQRSTUVWXYZ[]^_`abcdefghijklmnopqrstuvwxyz{|}~"
  ++ [x7f].

Definition jsonSafeSet (b : byte) : bool :=
  existsb (Byte.eqb b) jsonSafeSet_true.

(** The escape written for the byte [b < utf8.RuneSelf] that
    [jsonSafeSet] rejects, after the backslash. *)
Definition writeEscape (e : Builder) (b : byte) : Builder :=
  if Byte.eqb b "\" || Byte.eqb b x22 then WriteByte e b
  else if Byte.eqb b x0a then WriteByte e "n"
  else if Byte.eqb b x0d then WriteByte e "r"
  else if Byte.eqb b x09 then WriteByte e "t"
  else
    (* This encodes bytes < 0x20 except for \t, \n and \r. *)
    WriteByte
      (WriteByte (Write e (B "u00"))
         (at_ hexdigits (Z.to_nat (Z.shiftr (byteZ b) 4))))
      (at_ hexdigits (Z.to_nat (Z.land (byteZ b) 15))).

(** [if start < i { e.Write(s[start:i]) }] *)
Definition flushRun (e : Builder) (s : list byte) (start i : nat) : Builder :=
  if (start <? i)%nat then Write e (slice s start i) else e.

(** The loop of [WriteJsonString]: [i] and [start] are the loop's variables
    and [fuel] bounds the iterations left. *)
Fixpoint writeJsonLoop (fuel : nat) (s : list byte) (i start : nat)
    (e : Builder) : Builder :=
  match fuel with
  | O => e
  | S fuel' =>
      if (i <? length s)%nat then
        let b := at_ s i in
        if byteZ b <? RuneSelf then
          if jsonSafeSet b then writeJsonLoop fuel' s (S i) start e
          else
            let e1 := flushRun e s start i in
            let e2 := writeEscape (WriteByte e1 "\") b in
            writeJsonLoop fuel' s (S i) (S i) e2
        else
          let '(c, size) := DecodeRune (skipn i s) in
          if (c =? RuneError) && (size =? 1)%nat then
            let e1 := flushRun e s start i in
            let e2 := Write e1 (B "\ufffd") in
            writeJsonLoop fuel' s (i + size) (i + size) e2
          else if (c =? 8232) || (c =? 8233) then
            let e1 := flushRun e s start i in
            let e2 := Write e1 (B "\u202") in
            let e3 := WriteByte e2 (at_ hexdigits (Z.to_nat (Z.land c 15))) in
            writeJsonLoop fuel' s (i + size) (i + size) e3
          else writeJsonLoop fuel' s (i + size) start e
      else
        let e1 :=
          if (start <? length s)%nat
          then Write e (skipn start s) else e in
        WriteByte e1 x22
  end.

(** [WriteJsonString] writes a string, quoting and escaping it as needed.
    Every iteration advances [i], so [length s] iterations and the exit
    test fit in the fuel. *)
Definition WriteJsonString (e : Builder) (s : list byte) : Builder :=
  writeJsonLoop (S (length s)) s 0 0 (WriteByte e x22).

Definition KeyBytes (e : Builder) (k : list byte) : Builder :=
  writeKeyTerm (WriteJsonString (startChunk e builderKey) k).

Definition Key (e : Builder) (k : list byte) : Builder := KeyBytes e k.

Definition RawKey (e : Builder) (k : list byte) : Builder :=
  writeKeyTerm (Write (startChunk e builderKey) k).

Definition Start (e : Builder) (kind : byte) : Builder :=
  let e1 := WriteByte (startChunk e builderObj) kind in
  set_nestdepth e1 (wrap_int (nestdepth e1 + 1)).

Definition End (e : Builder) (kind : byte) : Builder :=
  let e1 := set_nestdepth e (wrap_int (nestdepth e - 1)) in
  let e2 :=
    if builderState_eqb (state e1) builderKey then
      (* ending object after writing key but no value *)
      set_Err e1 (Some (errorString "key without value"))
    else if negb (builderState_eqb (state e1) builderObj)
            && (0 <? Z.of_nat (length (Indent e1)))
    then writeNewLine e1
    else e1 in
  set_state (WriteByte e2 kind) builderValue.

Definition StartObject (e : Builder) : Builder := Start e "{".
Definition EndObject (e : Builder) : Builder := End e "}".
Definition StartArray (e : Builder) : Builder := Start e "[".
Definition EndArray (e : Builder) : Builder := End e "]".

Definition InObject (e : Builder) : bool :=
  (0 <? nestdepth e) && negb (builderState_eqb (state e) builderKey).

Definition jsonTrue : list byte := B "true".
Definition jsonFalse : list byte := B "false".
Definition jsonNull : list byte := B "null".

Definition Raw (e : Builder) (b : list byte) : Builder :=
  Write (startChunk e builderValue) b.

Definition Null (e : Builder) : Builder := Raw e jsonNull.

Definition Bool (e : Builder) (v : bool) : Builder :=
  if v then Raw e jsonTrue else Raw e jsonFalse.

Definition Blob (e : Builder) (data : list byte) : Builder :=
  let e1 := startChunk e builderValue in
  let b64len := EncodedLen (Z.of_nat (length data)) in
  let buf := b64Encode data in
  let e2 :=
    if b64len <? 512 then set_scratch e1 (stage (scratch e1) buf) else e1 in
  WriteJsonString e2 buf.

Definition Str (e : Builder) (s : list byte) : Builder :=
  WriteJsonString (startChunk e builderValue) s.

Definition StrBytes (e : Builder) (s : list byte) : Builder :=
  WriteJsonString (startChunk e builderValue) s.

Definition Int (e : Builder) (v : Z) (bitsize : Z) : Builder :=
  let e1 := startChunk e builderValue in
  if 32 <? bitsize then WriteJsonString e1 (FormatInt v)
  else Write e1 (FormatInt v).

Definition Uint (e : Builder) (v : Z) (bitsize : Z) : Builder :=
  let e1 := startChunk e builderValue in
  if 32 <? bitsize then WriteJsonString e1 (FormatUint v)
  else Write e1 (FormatUint v).

(** The format [Float] picks: ['f'], or ['e'] outside the cutoffs. *)
Definition floatFmt (abs : float64) (bits : Z) : byte :=
  if fne0 abs then
    if ((bits =? 64) && (flt abs c64_1e_6 || fge abs c64_1e21))
       || ((bits =? 32) && (flt (float32 abs) c32_1e_6
                             || fge (float32 abs) c32_1e21))
    then "e" else "f"
  else "f".

(** clean up e-09 to e-9 *)
Definition cleanExponent (b : list byte) : list byte :=
  let n := length b in
  if (4 <=? n)%nat && Byte.eqb (at_ b (n - 4)) "e"
     && Byte.eqb (at_ b (n - 3)) "-" && Byte.eqb (at_ b (n - 2)) "0"
  then firstn (n - 1) (store b (n - 2) (at_ b (n - 1)))
  else b.

Section WithStrconv.
Context {SC : Strconv}.

(** The text [Float] writes for [f]. *)
Definition floatText (f : float64) (bits : Z) : list byte :=
  let fmt := floatFmt (SFabs f) bits in
  let b := AppendFloat [] f fmt (-1) bits in
  if Byte.eqb fmt "e" then cleanExponent b else b.

(** [Float] writes a float64 number of [bits] size. *)
Definition Float (e : Builder) (f : float64) (bits : Z) : Builder :=
  let e1 := startChunk e builderValue in
  let e2 :=
    if IsInf f || IsNaN f then
      setError e1
        (errorString ("unsupported float64 value "
                      ++ text (FormatFloat f "g" (-1) bits)))
    else e1 in
  let b := floatText f bits in
  Write (set_scratch e2 (stage (scratch e2) b)) b.

(** convenience methods for writing key-value properties *)
Definition NullProp e k := Null (Key e k).
Definition BoolProp e k v := Bool (Key e k) v.
Definition IntProp e k v bitsize := Int (Key e k) v bitsize.
Definition UintProp e k v bitsize := Uint (Key e k) v bitsize.
Definition FloatProp e k f bits := Float (Key e k) f bits.
Definition StrProp e k v := Str (Key e k) v.
Definition BlobProp e k v := Blob (Key e k) v.
Definition StartObjectProp e k := StartObject (Key e k).
Definition StartArrayProp e k := StartArray (Key e k).

(** One call of the Builder's API, and a caller's sequence of calls. *)
Inductive call : Type :=
| CReset
| CKey (k : list byte)
| CRawKey (k : list byte)
| CStart (kind : byte)
| CEnd (kind : byte)
| CRaw (b : list byte)
| CNull
| CBool (v : bool)
| CBlob (data : list byte)
| CStr (s : list byte)
| CInt (v bitsize : Z)
| CUint (v bitsize : Z)
| CFloat (f : float64) (bits : Z).

Definition step (e : Builder) (c : call) : Builder :=
  match c with
  | CReset => Reset e
  | CKey k => Key e k
  | CRawKey k => RawKey e k
  | CStart kind => Start e kind
  | CEnd kind => End e kind
  | CRaw b => Raw e b
  | CNull => Null e
  | CBool v => Bool e v
  | CBlob data => Blob e data
  | CStr s => Str e s
  | CInt v bitsize => Int e v bitsize
  | CUint v bitsize => Uint e v bitsize
  | CFloat f bits => Float e f bits
  end.

Definition run (e : Builder) (cs : list call) : Builder := fold_left step cs e.

End WithStrconv.

End Builder.

(** ** The tokenizer the Reader drives *)

(** Arithmetic of [rune] (an [int32]) wraps around at 32 bits. *)
Definition wrap_rune (z : Z) : Z := (z + 2 ^ 31) mod 2 ^ 32 - 2 ^ 31.

(** A [json.Token]: [nil] (also the token of a failed pull), a
    [json.Delim], a [bool], a [float64] or a [string].  The Reader never
    calls [UseNumber], so no [json.Number] reaches it. *)
Inductive json_Token : Type :=
| Tnil
| TDelim (d : Z)
| Tbool (v : bool)
| Tfloat64 (v : float64)
| Tstring (v : list byte).

(** What the Reader asks of [*json.Decoder]: [Token()], [More()] and
    [InputOffset()], on a decoder state of type [D]. *)
Class Decoder (D : Type) : Type := {
  dec_Token : D -> json_Token * option error * D;
  dec_More : D -> bool;
  dec_InputOffset : D -> Z
}.

(** ** reader.go *)

Module Reader.

(** [fmt.Sprint(d)] of a [json.Delim]: its [String()] is [string(d)]. *)
Definition Sprint_Delim (d : Z) : string := text (EncodeRune d).

(** [fmt.Sprintf("%T", tok)] of a token that is no [json.Delim]. *)
Definition typeName (t : json_Token) : string :=
  match t with
  | Tnil => "<nil>"
  | TDelim _ => "json.Delim"
  | Tbool _ => "bool"
  | Tfloat64 _ => "float64"
  | Tstring _ => "string"
  end.

(** [t == d] for a token [t] and a delimiter [d]. *)
Definition isDelim (t : json_Token) (d : Z) : bool :=
  match t with
  | TDelim x => x =? d
  | _ => false
  end.

Section WithDecoder.
Context {D : Type} {Dec : Decoder D}.

(** The struct [Reader]. *)
Record Reader : Type := mk {
  d : D;
  err : option error;
  tok : json_Token;          (* most recently parsed token *)
  delimstack : list Z;
  delim : Z                  (* top of logical delimstack *)
}.

Definition set_d (c : Reader) (x : D) : Reader :=
  mk x (err c) (tok c) (delimstack c) (delim c).
Definition set_err (c : Reader) (x : option error) : Reader :=
  mk (d c) x (tok c) (delimstack c) (delim c).
Definition set_tok (c : Reader) (x : json_Token) : Reader :=
  mk (d c) (err c) x (delimstack c) (delim c).
Definition set_delimstack (c : Reader) (x : list Z) : Reader :=
  mk (d c) (err c) (tok c) x (delim c).
Definition set_delim (c : Reader) (x : Z) : Reader :=
  mk (d c) (err c) (tok c) (delimstack c) x.

(** [NewReader(data)], given the decoder [json.NewDecoder] makes for
    [data]. *)
Definition NewReader (d0 : D) : Reader := mk d0 None Tnil [] 0.

(** [Reset(r)], given the decoder [json.NewDecoder(r)]. *)
Definition Reset (c : Reader) (d0 : D) : Reader :=
  set_delimstack (set_d c d0) [].

Definition Err (c : Reader) : option error := err c.

Definition errExpected (c : Reader) (expected : string) : error :=
  let actual :=
    match tok c with
    | TDelim x => Sprint_Delim x
    | t => typeName t
    end in
  errorString ("expected " ++ expected ++ " but got " ++ actual
               ++ " at offset " ++ text (FormatInt (dec_InputOffset (d c)))).

Definition setError (c : Reader) (e : error) : Reader :=
  match err c with
  | None =>
      let e' :=
        match e with
        | NumError _ _ ErrSyntax => errExpected c "number"
        | _ => e
        end in
      set_err c (Some e')
  | Some _ => c
  end.

Definition setErrorf (c : Reader) (msg : string) : Reader :=
  match err c with
  | None => set_err c (Some (errorString msg))
  | Some _ => c
  end.

Definition setErrorExpected (c : Reader) (expected : string) : Reader :=
  setError c (errExpected c expected).

Definition next (c : Reader) : json_Token * Reader :=
  let '(t, e, d') := dec_Token (d c) in
  let c1 := set_tok (set_d c d') t in
  (t, match e with
      | Some e0 => setError c1 e0
      | None => c1
      end).

Definition Key (c : Reader) : list byte * Reader :=
  if dec_More (d c) then
    let '(t, c1) := next c in
    match t with
    | Tstring s => (s, c1)
    | _ => ([], setErrorExpected c1 "key")
    end
  else ([], c).

Definition pushDelim (c : Reader) (dl : Z) : bool * Reader :=
  let '(t, c1) := next c in
  if negb (isDelim t dl) then (false, setErrorExpected c1 (Sprint_Delim dl))
  else (true, set_delim (set_delimstack c1 (delimstack c1 ++ [delim c1])) dl).

(** [popDelim]; [None] is the run-time panic of indexing an empty
    [delimstack].  On a mismatch the source calls [c.errExpected] and drops
    the error it returns. *)
Definition popDelim (c : Reader) : option Reader :=
  let '(t, c1) := next c in
  match t with
  | TDelim x =>
      let expect := wrap_rune (x - 2) in   (* i.e. '['+2 = ']', '{'+2 = '}' *)
      let _dropped :=
        if negb (expect =? delim c1)
        then Some (errExpected c1 (Sprint_Delim expect)) else None in
      match delimstack c1 with
      | [] => None
      | _ :: _ =>
          Some (set_delimstack (set_delim c1 (last (delimstack c1) 0))
                  (removelast (delimstack c1)))
      end
  | _ => Some c1
  end.

Definition ObjectStart (c : Reader) : bool * Reader := pushDelim c 123.
Definition ArrayStart (c : Reader) : bool * Reader := pushDelim c 91.

Definition More (c : Reader) : option (bool * Reader) :=
  if dec_More (d c) then Some (true, c)
  else
    (* consume ending delimiter *)
    match popDelim c with
    | Some c1 => Some (false, c1)
    | None => None
    end.

Definition Int (c : Reader) (bitsize : Z) : Z * Reader :=
  let '(t, c1) := next c in
  match t with
  | Tfloat64 v => (int64_of_float v, c1)
  | Tstring v =>
      let '(i, e) := ParseInt v bitsize in
      (i, match e with
          | Some e0 => setError c1 e0
          | None => c1
          end)
  | _ => (0, setErrorExpected c1 "number")
  end.

Definition Uint (c : Reader) (bitsize : Z) : Z * Reader :=
  let '(t, c1) := next c in
  match t with
  | Tfloat64 v => (uint64_of_float v, c1)
  | Tstring v =>
      let '(i, e) := ParseUint v bitsize in
      (i, match e with
          | Some e0 => setError c1 e0
          | None => c1
          end)
  | _ => (0, setErrorExpected c1 "number")
  end.

Definition Float (c : Reader) (bitsize : Z) : float64 * Reader :=
  let '(t, c1) := next c in
  match t with
  | Tfloat64 v => (v, c1)
  | _ => (S754_zero false, setErrorExpected c1 "number")
  end.

Definition Bool (c : Reader) : bool * Reader :=
  let '(t, c1) := next c in
  match t with
  | Tbool v => (v, c1)
  | _ => (false, setErrorExpected c1 "boolean")
  end.

Definition Str (c : Reader) : list byte * Reader :=
  let '(t, c1) := next c in
  match t with
  | Tstring s => (s, c1)
  | _ => ([], setErrorExpected c1 "string")
  end.

Definition Blob (c : Reader) : list byte * Reader :=
  let '(s, c1) := Str c in
  match s with
  | [] => ([], c1)
  | _ :: _ =>
      let '(buf, e) := DecodeString s in
      (buf, match e with
            | Some n =>
                setErrorf c1 ("failed to decode blob: "
                              ++ CorruptInputError_Error n)
            | None => c1
            end)
  end.

(** Discard the next value.  The message quotes the delimiter with [%q];
    the tokenizer's four delimiters are printable, so the quoted text is
    the character between double quotes. *)
Definition Discard (c : Reader) : Reader :=
  let '(t, c1) := next c in
  match t with
  | TDelim x =>
      setError c1
        (errorString ("UNIMPLEMENTED json.Reader.Discard object ("
                      ++ text ([x22] ++ EncodeRune x ++ [x22]) ++ ")"))
  | _ => c1
  end.

(** One call of the Reader's API; [run] threads the Reader through a
    caller's sequence of calls and is [None] when a call panics. *)
Inductive call : Type :=
| CReset (d0 : D)
| CKey
| CObjectStart
| CArrayStart
| CMore
| CInt (bitsize : Z)
| CUint (bitsize : Z)
| CFloat (bitsize : Z)
| CBool
| CStr
| CBlob
| CDiscard.

Definition step (c : Reader) (k : call) : option Reader :=
  match k with
  | CReset d0 => Some (Reset c d0)
  | CKey => Some (snd (Key c))
  | CObjectStart => Some (snd (ObjectStart c))
  | CArrayStart => Some (snd (ArrayStart c))
  | CMore => option_map snd (More c)
  | CInt bitsize => Some (snd (Int c bitsize))
  | CUint bitsize => Some (snd (Uint c bitsize))
  | CFloat bitsize => Some (snd (Float c bitsize))
  | CBool => Some (snd (Bool c))
  | CStr => Some (snd (Str c))
  | CBlob => Some (snd (Blob c))
  | CDiscard => Some (Discard c)
  end.

Fixpoint run (c : Reader) (ks : list call) : option Reader :=
  match ks with
  | [] => Some c
  | k :: r =>
      match step c k with
      | Some c1 => run c1 r
      | None => None
      end
  end.

End WithDecoder.

Arguments Reader D : clear implicits.

End Reader.

(** ** A tokenizer over a prepared token stream

    The token stream the spec speaks of: [Token()] hands out the next
    token, [More()] looks ahead for something other than a closing
    delimiter, and the offset counts the tokens consumed.  It stands in
    for the tokenizer where only the tokens matter: the streams used
    below are those [*json.Decoder] delivers for some input, and what
    concerns malformed input is stated on the tokenizer of
    [encoding/json] itself, [JSONDecoder]. *)

Record stream : Type := mkStream {
  toks : list json_Token;
  consumed : Z
}.

Definition stream_Token (s : stream) : json_Token * option error * stream :=
  match toks s with
  | [] => (Tnil, Some (TokenizerError "EOF"), s)
  | t :: r => (t, None, mkStream r (consumed s + 1))
  end.

Definition stream_More (s : stream) : bool :=
  match toks s with
  | [] => false
  | TDelim x :: _ => negb ((x =? 93) || (x =? 125))
  | _ :: _ => true
  end.

#[export] Instance StreamDecoder : Decoder stream := {
  dec_Token := stream_Token;
  dec_More := stream_More;
  dec_InputOffset := consumed
}.

Definition readStream (ts : list json_Token) : Reader.Reader stream :=
  Reader.NewReader (mkStream ts 0).

(** ** Vocabulary of the properties *)

(** A decimal digit. *)
Definition isDigit (b : byte) : bool := inRange 48 57 b.

(** A byte the Builder copies into a JSON string as it is. *)
Definition plain (b : byte) : bool :=
  (byteZ b <? RuneSelf) && Builder.jsonSafeSet b.

(** The bytes [WriteJsonString] writes for [s]: what it appends to an
    empty buffer. *)
Definition jsonString (s : list byte) : list byte :=
  Builder.Buffer (Builder.WriteJsonString Builder.zero s).

(** An operation that only appends to the output, the same bytes whatever
    the Builder holds. *)
Definition appender (F : Builder.Builder -> Builder.Builder) : Prop :=
  forall e, F e = Builder.Write e (Builder.Buffer (F Builder.zero)).

(** The number a string of decimal digits denotes, continuing from [n]. *)
Definition decimalFrom (s : list byte) (n : Z) : Z :=
  fold_left (fun a c => a * 10 + (byteZ c - 48)) s n.

Definition decimalValue (s : list byte) : Z := decimalFrom s 0.

(** What decides the punctuation and indentation of the calls to come. *)
Definition structure (e : Builder.Builder)
  : Builder.builderState * Z * list byte * option (list byte) :=
  (Builder.state e, Builder.nestdepth e, Builder.Indent e, Builder.KeyTerm e).

(** ** Sample values

    The floats of the examples, and a sample of [strconv]'s outputs that is
    enough to run them: the texts Go prints for these values, and ["0"] for
    a value outside the sample. *)

Definition f_1e21 : float64 := f64 (10 ^ 21) 0.
Definition f_9999e17 : float64 := f64 (9999 * 10 ^ 17) 0.
Definition f_15e_8 : float64 := SFdiv 53 1024 (f64 15 0) (f64 (10 ^ 8) 0).
Definition f_041 : float64 := SFdiv 53 1024 (f64 41 0) (f64 100 0).

Definition float_eqb (a b : spec_float) : bool :=
  match a, b with
  | S754_zero s, S754_zero t => Bool.eqb s t
  | S754_infinity s, S754_infinity t => Bool.eqb s t
  | S754_nan, S754_nan => true
  | S754_finite s m e, S754_finite t n k =>
      Bool.eqb s t && Pos.eqb m n && Z.eqb e k
  | _, _ => false
  end.

Definition sampleText (f : float64) (fmt : byte) : list byte :=
  match f with
  | S754_nan => B "NaN"
  | S754_infinity false => B "+Inf"
  | S754_infinity true => B "-Inf"
  | _ =>
      if float_eqb f f_1e21 && Byte.eqb fmt "e" then B "1e+21"
      else if float_eqb f f_9999e17 && Byte.eqb fmt "f"
      then B "999900000000000000000"
      else if float_eqb f f_15e_8 && Byte.eqb fmt "e" then B "1.5e-07"
      else if float_eqb f f_041 && Byte.eqb fmt "f" then B "0.41"
      else B "0"
  end.

Definition sampleStrconv : Strconv := {|
  AppendFloat := fun dst f fmt _ _ => dst ++ sampleText f fmt;
  FormatFloat := fun f fmt _ _ => sampleText f fmt
|}.

(** The value [m * 2^e] of a finite binary64 float, scaled by [2^1074] so
    that it is an integer: the least exponent of the format is [-1074]. *)
Definition scaled64 (m : positive) (e : Z) : Z := Z.pos m * 2 ^ (e + 1074).

(** ** The tokenizer of [encoding/json]

    A model of [*json.Decoder] as the Reader uses it: [Token], [More] and
    [InputOffset] over the unread input.  [Token] checks the grammar with
    the decoder's token state and stack, reads one scalar at a time and
    converts a number to the nearest [float64].  A delimiter or separator
    out of place is reported with the message of [tokenError], a malformed
    scalar with the class of its message only; an error leaves the decoder
    where it was. *)

Module json.

Inductive tokenState : Type :=
| tokenTopValue
| tokenArrayStart
| tokenArrayValue
| tokenArrayComma
| tokenObjectStart
| tokenObjectKey
| tokenObjectColon
| tokenObjectValue
| tokenObjectComma.

Record Decoder : Type := mk {
  buf : list byte;            (* the input from [scanp] on *)
  scanned : Z;                (* the offset of [buf] in the input *)
  state : tokenState;
  tokenStack : list tokenState
}.

(** [json.NewDecoder(bytes.NewReader(data))] *)
Definition NewDecoder (data : list byte) : Decoder :=
  mk data 0 tokenTopValue [].

Definition isSpace (c : byte) : bool :=
  Byte.eqb c " " || Byte.eqb c x09 || Byte.eqb c x0d || Byte.eqb c x0a.

Fixpoint skipSpace (s : list byte) : list byte :=
  match s with
  | c :: r => if isSpace c then skipSpace r else s
  | [] => []
  end.

(** The decoder after reading up to [rest], a suffix of its input. *)
Definition advance (dec : Decoder) (rest : list byte) : Decoder :=
  mk rest (scanned dec + Z.of_nat (length (buf dec)) - Z.of_nat (length rest))
     (state dec) (tokenStack dec).

Definition set_state (dec : Decoder) (st : tokenState) : Decoder :=
  mk (buf dec) (scanned dec) st (tokenStack dec).

(** [dec.peek()]: the next byte that is no space, [None] at the end of
    the input. *)
Definition peek (dec : Decoder) : option byte * Decoder :=
  let rest := skipSpace (buf dec) in
  (hd_error rest, advance dec rest).

Definition More (dec : Decoder) : bool :=
  match fst (peek dec) with
  | Some c => negb (Byte.eqb c "]" || Byte.eqb c "}")
  | None => false
  end.

Definition InputOffset (dec : Decoder) : Z := scanned dec.

Definition tokenValueAllowed (st : tokenState) : bool :=
  match st with
  | tokenTopValue | tokenArrayStart | tokenArrayValue | tokenObjectValue => true
  | _ => false
  end.

Definition tokenValueEnd (st : tokenState) : tokenState :=
  match st with
  | tokenArrayStart | tokenArrayValue => tokenArrayComma
  | tokenObjectValue => tokenObjectComma
  | _ => st
  end.

(** *** Numbers *)

(** The scanner's states inside a number. *)
Inductive numState : Type :=
| numBegin | numNeg | num0 | num1 | numDot | numDot0 | numE | numESign | numE0.

Definition is19 (c : byte) : bool := inRange 49 57 c.
Definition is09 (c : byte) : bool := inRange 48 57 c.
Definition isExp (c : byte) : bool := Byte.eqb c "e" || Byte.eqb c "E".

(** The state after the byte [c], [None] when [c] cannot continue the
    number. *)
Definition numNext (st : numState) (c : byte) : option numState :=
  match st with
  | numBegin =>
      if Byte.eqb c "-" then Some numNeg
      else if Byte.eqb c "0" then Some num0
      else if is19 c then Some num1 else None
  | numNeg =>
      if Byte.eqb c "0" then Some num0
      else if is19 c then Some num1 else None
  | num1 =>
      if is09 c then Some num1
      else if Byte.eqb c "." then Some numDot
      else if isExp c then Some numE else None
  | num0 =>
      if Byte.eqb c "." then Some numDot
      else if isExp c then Some numE else None
  | numDot => if is09 c then Some numDot0 else None
  | numDot0 =>
      if is09 c then Some numDot0
      else if isExp c then Some numE else None
  | numE =>
      if Byte.eqb c "+" || Byte.eqb c "-" then Some numESign
      else if is09 c then Some numE0 else None
  | numESign => if is09 c then Some numE0 else None
  | numE0 => if is09 c then Some numE0 else None
  end.

(** The states in which the number may end. *)
Definition numAccept (st : numState) : bool :=
  match st with
  | num0 | num1 | numDot0 | numE0 => true
  | _ => false
  end.

(** The number literal at the head of the input and the input after it;
    the literal ends at the first byte that cannot continue it. *)
Fixpoint scanNumber (st : numState) (inp : list byte)
  : option (list byte * list byte) :=
  match inp with
  | [] => if numAccept st then Some ([], []) else None
  | c :: r =>
      match numNext st c with
      | Some st' =>
          match scanNumber st' r with
          | Some (lit, rest) => Some (c :: lit, rest)
          | None => None
          end
      | None => if numAccept st then Some ([], inp) else None
      end
  end.

(** The leading decimal digits of [s] and what follows them. *)
Fixpoint spanDigits (s : list byte) : list byte * list byte :=
  match s with
  | c :: r =>
      if is09 c then let '(ds, rest) := spanDigits r in (c :: ds, rest)
      else ([], s)
  | [] => ([], [])
  end.

(** The sign, the decimal mantissa and the decimal exponent of a number
    literal: its value is [(-1)^neg * M * 10^E]. *)
Definition literalParts (lit : list byte) : bool * Z * Z :=
  let '(neg, s0) :=
    match lit with
    | c :: r => if Byte.eqb c "-" then (true, r) else (false, lit)
    | [] => (false, lit)
    end in
  let '(ip, s1) := spanDigits s0 in
  let '(fp, s2) :=
    match s1 with
    | c :: r => if Byte.eqb c "." then spanDigits r else ([], s1)
    | [] => ([], s1)
    end in
  let ex :=
    match s2 with
    | c :: r =>
        if isExp c then
          match r with
          | sg :: r' =>
              if Byte.eqb sg "-" then - decimalValue (fst (spanDigits r'))
              else if Byte.eqb sg "+" then decimalValue (fst (spanDigits r'))
              else decimalValue (fst (spanDigits r))
          | [] => 0
          end
        else 0
    | [] => 0
    end in
  (neg, decimalValue (ip ++ fp), ex - Z.of_nat (length fp)).

(** The [float64] nearest to [(-1)^neg * M * 10^E], ties to even: what
    [strconv.ParseFloat(s, 64)] returns. *)
Definition decimalToFloat (neg : bool) (M E : Z) : float64 :=
  match M with
  | Z0 => S754_zero neg
  | Zpos m =>
      if 0 <=? E then binary_round 53 1024 neg (Z.to_pos (Z.pos m * 10 ^ E)) 0
      else
        let '(q, e', l) :=
          SFdiv_core_binary 53 1024 (Z.pos m) 0 (10 ^ (- E)) 0 in
        binary_round_aux 53 1024 neg q e' l
  | Zneg _ => S754_nan
  end.

Definition numberValue (lit : list byte) : float64 :=
  let '(neg, M, E) := literalParts lit in decimalToFloat neg M E.

(** *** Strings *)

Definition hexVal (c : byte) : option Z :=
  if inRange 48 57 c then Some (byteZ c - 48)
  else if inRange 97 102 c then Some (byteZ c - 87)
  else if inRange 65 70 c then Some (byteZ c - 55)
  else None.

(** [getu4]: the rune of the four hex digits at the head of [s], which
    follow a backslash and [u]. *)
Definition getu4 (s : list byte) : option (Z * list byte) :=
  match s with
  | a :: b :: c :: d :: r =>
      match hexVal a, hexVal b, hexVal c, hexVal d with
      | Some x, Some y, Some z, Some w =>
          Some (x * 4096 + y * 256 + z * 16 + w, r)
      | _, _, _, _ => None
      end
  | _ => None
  end.

Definition isSurrogate (r : Z) : bool := (55296 <=? r) && (r <? 57344).

(** The rune a [u] escape stands for and the input after it: a high
    surrogate takes the low surrogate escaped right after it, and a
    surrogate on its own is the replacement character. *)
Definition escapedRune (s : list byte) : option (Z * list byte) :=
  match getu4 s with
  | Some (rr, r) =>
      if isSurrogate rr then
        match r with
        | bs :: u :: r1 =>
            if Byte.eqb bs "\" && Byte.eqb u "u" then
              match getu4 r1 with
              | Some (rr1, r2) =>
                  if (rr <? 56320) && (56320 <=? rr1) && (rr1 <? 57344)
                  then Some ((rr - 55296) * 1024 + (rr1 - 56320) + 65536, r2)
                  else Some (RuneError, r)
              | None => Some (RuneError, r)
              end
            else Some (RuneError, r)
        | _ => Some (RuneError, r)
        end
      else Some (rr, r)
  | None => None
  end.

(** The string whose literal starts at the head of the input, after the
    opening quote, and the input after the closing quote.  [acc] is the
    text decoded so far and [fuel] bounds the characters left. *)
Fixpoint scanString (fuel : nat) (inp : list byte) (acc : list byte)
  : option (list byte * list byte) :=
  match fuel with
  | O => None
  | S k =>
      match inp with
      | [] => None
      | b :: r =>
          if Byte.eqb b x22 then Some (acc, r)
          else if Byte.eqb b "\" then
            match r with
            | c :: r' =>
                if Byte.eqb c x22 || Byte.eqb c "\" || Byte.eqb c "/"
                then scanString k r' (acc ++ [c])
                else if Byte.eqb c "b" then scanString k r' (acc ++ [x08])
                else if Byte.eqb c "f" then scanString k r' (acc ++ [x0c])
                else if Byte.eqb c "n" then scanString k r' (acc ++ [x0a])
                else if Byte.eqb c "r" then scanString k r' (acc ++ [x0d])
                else if Byte.eqb c "t" then scanString k r' (acc ++ [x09])
                else if Byte.eqb c "u" then
                  match escapedRune r' with
                  | Some (rr, r'') => scanString k r'' (acc ++ EncodeRune rr)
                  | None => None
                  end
                else None
            | [] => None
            end
          else if byteZ b <? 32 then None
          else if byteZ b <? RuneSelf then scanString k r (acc ++ [b])
          else
            let '(c, size) := DecodeRune inp in
            scanString k (skipn size inp) (acc ++ EncodeRune c)
      end
  end.

(** *** Values and tokens *)

Fixpoint stripPrefix (p inp : list byte) : option (list byte) :=
  match p, inp with
  | [], _ => Some inp
  | x :: p', y :: r => if Byte.eqb x y then stripPrefix p' r else None
  | _ :: _, [] => None
  end.

(** [dec.Decode(&x)] of a scalar: the token and the input after it. *)
Definition decodeScalar (inp : list byte) : option (json_Token * list byte) :=
  match inp with
  | [] => None
  | c :: r =>
      if Byte.eqb c x22 then
        match scanString (length inp) r [] with
        | Some (s, rest) => Some (Tstring s, rest)
        | None => None
        end
      else if Byte.eqb c "t" then
        option_map (pair (Tbool true)) (stripPrefix (B "true") inp)
      else if Byte.eqb c "f" then
        option_map (pair (Tbool false)) (stripPrefix (B "false") inp)
      else if Byte.eqb c "n" then
        option_map (pair Tnil) (stripPrefix (B "null") inp)
      else
        match scanNumber numBegin inp with
        | Some (lit, rest) =>
            match numberValue lit with
            | S754_infinity _ => None
            | f => Some (Tfloat64 f, rest)
            end
        | None => None
        end
  end.

Definition syntaxError (what : string) : error := TokenizerError what.

(** [quoteChar(c)], for a printable character other than the quotes. *)
Definition quoteChar (c : byte) : string := ("'" ++ text [c] ++ "'")%string.

(** [dec.tokenError(c)], in the token state [st]; the decoder handed back
    is [dec]. *)
Definition tokenError (st : tokenState) (dec : Decoder) (c : byte)
  : json_Token * option error * Decoder :=
  let context : string :=
    (match st with
     | tokenTopValue | tokenArrayStart | tokenArrayValue | tokenObjectValue =>
         " looking for beginning of value"
     | tokenArrayComma => " after array element"
     | tokenObjectKey => " looking for beginning of object key string"
     | tokenObjectColon => " after object key"
     | tokenObjectComma => " after object key:value pair"
     | tokenObjectStart => ""
     end)%string in
  (Tnil,
   Some (syntaxError ("invalid character " ++ quoteChar c ++ context)%string),
   dec).

(** [Token] at a byte that is neither [:] nor [,]; [dec0] is the decoder
    handed back with an error. *)
Definition tokenAt (dec0 dec : Decoder) (c : byte)
  : json_Token * option error * Decoder :=
  let st := state dec in
  let r := tl (buf dec) in
  if Byte.eqb c "[" then
    if tokenValueAllowed st
    then (TDelim 91, None,
          mk r (scanned dec + 1) tokenArrayStart (tokenStack dec ++ [st]))
    else tokenError st dec0 c
  else if Byte.eqb c "{" then
    if tokenValueAllowed st
    then (TDelim 123, None,
          mk r (scanned dec + 1) tokenObjectStart (tokenStack dec ++ [st]))
    else tokenError st dec0 c
  else if Byte.eqb c "]" then
    match st with
    | tokenArrayStart | tokenArrayComma =>
        (TDelim 93, None,
         mk r (scanned dec + 1)
            (tokenValueEnd (last (tokenStack dec) tokenTopValue))
            (removelast (tokenStack dec)))
    | _ => tokenError st dec0 c
    end
  else if Byte.eqb c "}" then
    match st with
    | tokenObjectStart | tokenObjectComma =>
        (TDelim 125, None,
         mk r (scanned dec + 1)
            (tokenValueEnd (last (tokenStack dec) tokenTopValue))
            (removelast (tokenStack dec)))
    | _ => tokenError st dec0 c
    end
  else if Byte.eqb c ":" || Byte.eqb c "," then tokenError st dec0 c
  else
    let key :=
      match st with
      | tokenObjectStart | tokenObjectKey => Byte.eqb c x22
      | _ => false
      end in
    if key then
      match decodeScalar (buf dec) with
      | Some (t, rest) => (t, None, set_state (advance dec rest) tokenObjectColon)
      | None => (Tnil, Some (syntaxError "invalid object key"), dec0)
      end
    else if tokenValueAllowed st then
      match decodeScalar (buf dec) with
      | Some (t, rest) =>
          (t, None, set_state (advance dec rest) (tokenValueEnd st))
      | None => (Tnil, Some (syntaxError "invalid value"), dec0)
      end
    else tokenError st dec0 c.

(** [dec.Token()]: a separator that the state expects is consumed, and the
    token is the one after it. *)
Definition Token (dec : Decoder) : json_Token * option error * Decoder :=
  match peek dec with
  | (None, _) => (Tnil, Some (TokenizerError "EOF"), dec)
  | (Some c, d1) =>
      let afterSep (st : tokenState) :=
        match peek (mk (tl (buf d1)) (scanned d1 + 1) st (tokenStack d1)) with
        | (None, _) => (Tnil, Some (TokenizerError "EOF"), dec)
        | (Some c2, d2) => tokenAt dec d2 c2
        end in
      if Byte.eqb c ":" then
        match state d1 with
        | tokenObjectColon => afterSep tokenObjectValue
        | st => tokenError st dec c
        end
      else if Byte.eqb c "," then
        match state d1 with
        | tokenArrayComma => afterSep tokenArrayValue
        | tokenObjectComma => afterSep tokenObjectKey
        | st => tokenError st dec c
        end
      else tokenAt dec d1 c
  end.

End json.

#[export] Instance JSONDecoder : Decoder json.Decoder := {
  dec_Token := json.Token;
  dec_More := json.More;
  dec_InputOffset := json.InputOffset
}.

(** [NewReader(data)], over the tokenizer of [encoding/json]. *)
Definition NewReaderBytes (data : list byte) : Reader.Reader json.Decoder :=
  Reader.NewReader (json.NewDecoder data).

(** ** Documents

    A document built purely through the typed emit calls, and the caller
    that builds it and the caller that reads it back with the matching
    typed pulls. *)

#[local] Set Warnings "-register-all".

Inductive value : Type :=
| VBool (b : bool)
| VStr (s : list byte)
| VBlob (data : list byte)
| VInt (v bitsize : Z)
| VUint (v bitsize : Z)
| VFloat (f : float64) (bits : Z)
| VArr (items : list value)
| VObj (fields : list (list byte * value)).

Section Documents.
Context {SC : Strconv}.

(** The emit calls for [v]. *)
Fixpoint emit (v : value) (e : Builder.Builder) {struct v} : Builder.Builder :=
  match v with
  | VBool b => Builder.Bool e b
  | VStr s => Builder.Str e s
  | VBlob data => Builder.Blob e data
  | VInt x bitsize => Builder.Int e x bitsize
  | VUint x bitsize => Builder.Uint e x bitsize
  | VFloat f bits => Builder.Float e f bits
  | VArr items =>
      let fix emitItems (l : list value) (e : Builder.Builder) : Builder.Builder :=
        match l with
        | [] => e
        | x :: r => emitItems r (emit x e)
        end in
      Builder.EndArray (emitItems items (Builder.StartArray e))
  | VObj fields =>
      let fix emitFields (l : list (list byte * value)) (e : Builder.Builder)
        : Builder.Builder :=
        match l with
        | [] => e
        | (k, x) :: r => emitFields r (emit x (Builder.Key e k))
        end in
      Builder.EndObject (emitFields fields (Builder.StartObject e))
  end.

End Documents.

Section Pulls.
Context {D : Type} {Dec : Decoder D}.

(** The pulls that match the emit calls of [v], with the values they
    return in place of those of [v]: a container is opened, [More] is asked
    before every element (and, in an object, the key is pulled), and [More]
    is asked once more at the end.  [None] when [More] answers otherwise
    than the shape of [v] has it, or a call panics. *)
Fixpoint pull (v : value) (c : Reader.Reader D) {struct v}
  : option (value * Reader.Reader D) :=
  match v with
  | VBool _ => let '(b, c1) := Reader.Bool c in Some (VBool b, c1)
  | VStr _ => let '(s, c1) := Reader.Str c in Some (VStr s, c1)
  | VBlob _ => let '(s, c1) := Reader.Blob c in Some (VBlob s, c1)
  | VInt _ bitsize =>
      let '(i, c1) := Reader.Int c bitsize in Some (VInt i bitsize, c1)
  | VUint _ bitsize =>
      let '(i, c1) := Reader.Uint c bitsize in Some (VUint i bitsize, c1)
  | VFloat _ bits =>
      let '(f, c1) := Reader.Float c bits in Some (VFloat f bits, c1)
  | VArr items =>
      let fix pullItems (l : list value) (c : Reader.Reader D)
        : option (list value * Reader.Reader D) :=
        match l with
        | [] =>
            match Reader.More c with
            | Some (false, c1) => Some ([], c1)
            | _ => None
            end
        | x :: r =>
            match Reader.More c with
            | Some (true, c1) =>
                match pull x c1 with
                | Some (x', c2) =>
                    match pullItems r c2 with
                    | Some (r', c3) => Some (x' :: r', c3)
                    | None => None
                    end
                | None => None
                end
            | _ => None
            end
        end in
      let '(ok, c1) := Reader.ArrayStart c in
      if ok then
        match pullItems items c1 with
        | Some (items', c2) => Some (VArr items', c2)
        | None => None
        end
      else None
  | VObj fields =>
      let fix pullFields (l : list (list byte * value)) (c : Reader.Reader D)
        : option (list (list byte * value) * Reader.Reader D) :=
        match l with
        | [] =>
            match Reader.More c with
            | Some (false, c1) => Some ([], c1)
            | _ => None
            end
        | (_, x) :: r =>
            match Reader.More c with
            | Some (true, c1) =>
                let '(k', c2) := Reader.Key c1 in
                match pull x c2 with
                | Some (x', c3) =>
                    match pullFields r c3 with
                    | Some (r', c4) => Some ((k', x') :: r', c4)
                    | None => None
                    end
                | None => None
                end
            | _ => None
            end
        end in
      let '(ok, c1) := Reader.ObjectStart c in
      if ok then
        match pullFields fields c1 with
        | Some (fields', c2) => Some (VObj fields', c2)
        | None => None
        end
      else None
  end.

End Pulls.

(** The alphabet's inverse finds the sextet [x] again. *)
Definition b64inverse (x : Z) : bool :=
  match decodeMap (b64char x) with
  | Some y => y =? x
  | None => false
  end.

(** ** Strings, as a specification

    What [WriteJsonString] writes between the quotes, character by
    character, and what a JSON parser reads from it. *)

(** The escape of an ASCII byte outside [jsonSafeSet], after the
    backslash. *)
Definition escapeByte (b : byte) : list byte :=
  if Byte.eqb b "\" || Byte.eqb b x22 then [b]
  else if Byte.eqb b x0a then B "n"
  else if Byte.eqb b x0d then B "r"
  else if Byte.eqb b x09 then B "t"
  else B "u00" ++ [at_ Builder.hexdigits (Z.to_nat (Z.shiftr (byteZ b) 4));
                   at_ Builder.hexdigits (Z.to_nat (Z.land (byteZ b) 15))].

(** The escaped text of [s]; [fuel] bounds the characters of [s]. *)
Fixpoint escapeJson (fuel : nat) (s : list byte) : list byte :=
  match fuel with
  | O => []
  | S k =>
      match s with
      | [] => []
      | b :: r =>
          if byteZ b <? RuneSelf then
            (if Builder.jsonSafeSet b then [b] else "\"%byte :: escapeByte b)
            ++ escapeJson k r
          else
            let '(c, size) := DecodeRune s in
            if (c =? RuneError) && (size =? 1)%nat then
              B "\u" ++ B "fffd" ++ escapeJson k (skipn size s)
            else if (c =? 8232) || (c =? 8233) then
              B "\u202" ++ [at_ Builder.hexdigits (Z.to_nat (Z.land c 15))]
              ++ escapeJson k (skipn size s)
            else firstn size s ++ escapeJson k (skipn size s)
      end
  end.

Definition escape (s : list byte) : list byte := escapeJson (length s) s.

(** [s] with every byte that is not part of a valid UTF-8 encoding
    replaced by the encoding of U+FFFD; [fuel] bounds the characters. *)
Fixpoint coerceFrom (fuel : nat) (s : list byte) : list byte :=
  match fuel with
  | O => []
  | S k =>
      match s with
      | [] => []
      | b :: r =>
          if byteZ b <? RuneSelf then b :: coerceFrom k r
          else
            let '(c, size) := DecodeRune s in
            EncodeRune c ++ coerceFrom k (skipn size s)
      end
  end.

Definition coerceUTF8 (s : list byte) : list byte := coerceFrom (length s) s.

(** [utf8.Valid(s)]; [fuel] bounds the characters. *)
Fixpoint validFrom (fuel : nat) (s : list byte) : bool :=
  match fuel with
  | O => match s with [] => true | _ => false end
  | S k =>
      match s with
      | [] => true
      | _ :: _ =>
          let '(c, size) := DecodeRune s in
          if (c =? RuneError) && (size =? 1)%nat then false
          else validFrom k (skipn size s)
      end
  end.

Definition Valid (s : list byte) : bool := validFrom (length s) s.

(** A byte that starts a scalar: no space, bracket, brace, colon or
    comma. *)
Definition scalarStart (c : byte) : bool :=
  negb (json.isSpace c || Byte.eqb c "[" || Byte.eqb c "{" || Byte.eqb c "]"
        || Byte.eqb c "}" || Byte.eqb c ":" || Byte.eqb c ",").

(** What may follow a number in the input: nothing, or a byte that cannot
    continue it. *)
Definition numberEnds (rest : list byte) : bool :=
  match rest with
  | [] => true
  | c :: _ =>
      negb (json.is09 c || Byte.eqb c "." || json.isExp c
            || Byte.eqb c "+" || Byte.eqb c "-")
  end.

(** ** The Builder's punctuation, as a specification *)

(** What [writeNewLine] appends at the nesting depth [nd]. *)
Definition lineBreak (ind : list byte) (nd : Z) : list byte :=
  x0a :: concat (repeat ind (Z.to_nat nd)).

(** What [startChunk] appends in the state [st] at the depth [nd]. *)
Definition separator (ind : list byte) (st : Builder.builderState) (nd : Z)
  : list byte :=
  match st with
  | Builder.builderValue =>
      ","%byte :: (if (0 <? nd) && (0 <? Z.of_nat (length ind))
                   then lineBreak ind nd else [])
  | Builder.builderObj =>
      if 0 <? Z.of_nat (length ind) then lineBreak ind nd else []
  | _ => []
  end.

(** The key terminator [startChunk] leaves behind. *)
Definition chosenKeyTerm (ind : list byte) (st : Builder.builderState)
    (kt : option (list byte)) : option (list byte) :=
  match st, kt with
  | Builder.builderInit, None =>
      Some (if 0 <? Z.of_nat (length ind)
            then [":"%byte; " "%byte] else [":"%byte])
  | _, _ => kt
  end.

(** A sequence of calls without [Reset]. *)
Definition isReset (c : Builder.call) : bool :=
  match c with Builder.CReset => true | _ => false end.

(** Whether the message of an error contains the character [ch]. *)
Definition mentions (ch : ascii) (e : error) : bool :=
  match e with
  | errorString msg | TokenizerError msg =>
      existsb (Ascii.eqb ch) (list_ascii_of_string msg)
  | NumError _ num _ => existsb (Ascii.eqb ch) (list_ascii_of_string (text num))
  end.

(** ** Documents, as a specification *)

(** A value of [int]: the nesting depth stays one through every call. *)
Definition isInt (z : Z) : bool := (- 2 ^ 63 <=? z) && (z <? 2 ^ 63).

(** The separators in front of the chunks [texts] of one container. *)
Fixpoint joinChunks (ind : list byte) (nd : Z) (st : Builder.builderState)
    (texts : list (list byte)) : list byte :=
  match texts with
  | [] => []
  | t :: r =>
      separator ind st nd ++ t ++ joinChunks ind nd Builder.builderValue r
  end.

(** What [End] appends in front of the closing byte of a container that
    was opened at the depth [nd]. *)
Definition closing (ind : list byte) (nd : Z) (empty : bool) : list byte :=
  if negb empty && (0 <? Z.of_nat (length ind)) then lineBreak ind nd else [].

Definition isNil {A : Type} (l : list A) : bool :=
  match l with [] => true | _ :: _ => false end.

Section Rendering.
Context {SC : Strconv}.

(** The text of a value that is no container. *)
Definition scalarText (v : value) : list byte :=
  match v with
  | VBool b => if b then Builder.jsonTrue else Builder.jsonFalse
  | VStr s => jsonString s
  | VBlob data => x22 :: b64Encode data ++ [x22]
  | VInt x bitsize =>
      if 32 <? bitsize then x22 :: FormatInt x ++ [x22] else FormatInt x
  | VUint x bitsize =>
      if 32 <? bitsize then x22 :: FormatUint x ++ [x22] else FormatUint x
  | VFloat f bits => Builder.floatText f bits
  | VArr _ | VObj _ => []
  end.

(** The text of the document [v] at the depth [nd], with the indent
    [ind] and the key terminator [kt]. *)
Fixpoint render (ind kt : list byte) (nd : Z) (v : value) {struct v}
  : list byte :=
  match v with
  | VArr items =>
      "["%byte
      :: joinChunks ind (wrap_int (nd + 1)) Builder.builderObj
           (map (render ind kt (wrap_int (nd + 1))) items)
      ++ closing ind nd (isNil items) ++ ["]"%byte]
  | VObj fields =>
      "{"%byte
      :: joinChunks ind (wrap_int (nd + 1)) Builder.builderObj
           (map (fun kx : list byte * value =>
                   jsonString (fst kx) ++ kt
                   ++ render ind kt (wrap_int (nd + 1)) (snd kx))
              fields)
      ++ closing ind nd (isNil fields) ++ ["}"%byte]
  | _ => scalarText v
  end.

(** The [float64] the tokenizer reads from the text of [f]. *)
Definition readFloat (f : float64) (bits : Z) : float64 :=
  match json.scanNumber json.numBegin (Builder.floatText f bits) with
  | Some (lit, _) => json.numberValue lit
  | None => f
  end.

(** A [float64] at the width [bits]. *)
Definition atWidth (bits : Z) (f : float64) : float64 :=
  if bits =? 32 then float32 f else f.

(** The text of [f] is a JSON number, and the tokenizer reads from it a
    finite value that is [f] at the width [bits]. *)
Definition floatReadsBack (f : float64) (bits : Z) : bool :=
  match json.scanNumber json.numBegin (Builder.floatText f bits) with
  | Some (lit, []) =>
      negb (IsInf (json.numberValue lit))
      && float_eqb (atWidth bits (json.numberValue lit)) (atWidth bits f)
  | _ => false
  end.

(** The values the round trip is stated for: strings and keys are valid
    UTF-8, an integer is one its width of 1 to 64 bits holds, a float is
    finite, of 32 or 64 bits, and [strconv] writes it so that it reads
    back. *)
Fixpoint roundTrips (v : value) {struct v} : bool :=
  match v with
  | VBool _ | VBlob _ => true
  | VStr s => Valid s
  | VInt x bitsize =>
      (0 <? bitsize) && (bitsize <=? 64)
      && (- 2 ^ (bitsize - 1) <=? x) && (x <? 2 ^ (bitsize - 1))
  | VUint x bitsize =>
      (0 <? bitsize) && (bitsize <=? 64) && (0 <=? x) && (x <? 2 ^ bitsize)
  | VFloat f bits =>
      ((bits =? 32) || (bits =? 64))
      && negb (IsInf f || IsNaN f) && floatReadsBack f bits
  | VArr items => forallb roundTrips items
  | VObj fields =>
      forallb (fun kx : list byte * value =>
                 Valid (fst kx) && roundTrips (snd kx)) fields
  end.

(** Two lists agree element by element. *)
Fixpoint all2 {A B : Type} (f : A -> B -> bool) (l : list A) (m : list B)
  : bool :=
  match l, m with
  | [], [] => true
  | x :: r, y :: s => f x y && all2 f r s
  | _, _ => false
  end.

(** The value [w] is the value [v], a float bit for bit at its declared
    width and everything else exactly. *)
Fixpoint sameAtWidth (v w : value) {struct v} : bool :=
  match v, w with
  | VBool a, VBool b => Bool.eqb a b
  | VStr s, VStr t => all2 Byte.eqb s t
  | VBlob s, VBlob t => all2 Byte.eqb s t
  | VInt x a, VInt y b => (x =? y) && (a =? b)
  | VUint x a, VUint y b => (x =? y) && (a =? b)
  | VFloat f a, VFloat g b =>
      (a =? b) && float_eqb (atWidth a g) (atWidth a f)
  | VArr l, VArr m => all2 sameAtWidth l m
  | VObj l, VObj m =>
      all2 (fun (kx : list byte * value) (ky : list byte * value) =>
              all2 Byte.eqb (fst kx) (fst ky)
              && sameAtWidth (snd kx) (snd ky)) l m
  | _, _ => false
  end.

(** The value read back: a float is the one the tokenizer reads. *)
Fixpoint readBack (v : value) {struct v} : value :=
  match v with
  | VFloat f bits => VFloat (readFloat f bits) bits
  | VArr items => VArr (map readBack items)
  | VObj fields =>
      VObj (map (fun kx : list byte * value => (fst kx, readBack (snd kx)))
              fields)
  | _ => v
  end.

End Rendering.

(** What may follow a value in the output: nothing, a comma, a line
    break or a closing delimiter. *)
Definition valueEnds (rest : list byte) : bool :=
  match rest with
  | [] => true
  | c :: _ =>
      Byte.eqb c "," || Byte.eqb c x0a || Byte.eqb c "]" || Byte.eqb c "}"
      || json.isSpace c
  end.

(** Where the tokenizer stands in front of a token: at the top, at the
    first or a later element of an array, at the value of a key, at the
    first or a later key of an object. *)
Inductive position : Type :=
| PTop | PFirst | PNext | PVal | PKeyFirst | PKeyNext.

(** The token state in which the tokenizer stands there. *)
Definition posState (p : position) : json.tokenState :=
  match p with
  | PTop => json.tokenTopValue
  | PFirst => json.tokenArrayStart
  | PNext => json.tokenArrayComma
  | PVal => json.tokenObjectColon
  | PKeyFirst => json.tokenObjectStart
  | PKeyNext => json.tokenObjectComma
  end.

(** The separator the tokenizer consumes there. *)
Definition posSep (p : position) : list byte :=
  match p with
  | PNext | PKeyNext => [","%byte]
  | PVal => [":"%byte]
  | _ => []
  end.

(** The token state after the separator. *)
Definition posInner (p : position) : json.tokenState :=
  match p with
  | PTop => json.tokenTopValue
  | PFirst => json.tokenArrayStart
  | PNext => json.tokenArrayValue
  | PVal => json.tokenObjectValue
  | PKeyFirst => json.tokenObjectStart
  | PKeyNext => json.tokenObjectKey
  end.

(** The token state after the token. *)
Definition posAfter (p : position) : json.tokenState :=
  match p with
  | PTop => json.tokenTopValue
  | PFirst | PNext => json.tokenArrayComma
  | PVal => json.tokenObjectComma
  | PKeyFirst | PKeyNext => json.tokenObjectColon
  end.

Definition isValuePos (p : position) : bool :=
  match p with PTop | PFirst | PNext | PVal => true | _ => false end.

(** [e.Write(e.KeyTerm)] writes this. *)
Definition keyTermText (kt : option (list byte)) : list byte :=
  match kt with Some t => t | None => [] end.

(** The Reader [c] stands at the position [p] in front of the text
    [txt]: white space, the separator of the position and white space
    again lie between. *)
Definition stands (c : Reader.Reader json.Decoder) (p : position)
    (txt : list byte) : Prop :=
  json.state (Reader.d c) = posState p
  /\ exists ws1 ws2,
       forallb json.isSpace ws1 = true /\ forallb json.isSpace ws2 = true
       /\ json.buf (Reader.d c) = ws1 ++ posSep p ++ ws2 ++ txt.

(** The Reader [c1] is the Reader [c] after one value was read at the
    position [p], with [rest] left to read. *)
Definition passed (c c1 : Reader.Reader json.Decoder) (p : position)
    (rest : list byte) : Prop :=
  Reader.err c1 = None
  /\ Reader.delim c1 = Reader.delim c
  /\ Reader.delimstack c1 = Reader.delimstack c
  /\ json.buf (Reader.d c1) = rest
  /\ json.state (Reader.d c1) = posAfter p
  /\ json.tokenStack (Reader.d c1) = json.tokenStack (Reader.d c).

Section PullLists.
Context {D : Type} {Dec : Decoder D}.
Variable pullOne : value -> Reader.Reader D -> option (value * Reader.Reader D).

(** The loop of [pull] over the elements of an array. *)
Fixpoint pullList (l : list value) (c : Reader.Reader D)
  : option (list value * Reader.Reader D) :=
  match l with
  | [] =>
      match Reader.More c with
      | Some (false, c1) => Some ([], c1)
      | _ => None
      end
  | x :: r =>
      match Reader.More c with
      | Some (true, c1) =>
          match pullOne x c1 with
          | Some (x', c2) =>
              match pullList r c2 with
              | Some (r', c3) => Some (x' :: r', c3)
              | None => None
              end
          | None => None
          end
      | _ => None
      end
  end.

(** The loop of [pull] over the fields of an object. *)
Fixpoint pullFieldList (l : list (list byte * value)) (c : Reader.Reader D)
  : option (list (list byte * value) * Reader.Reader D) :=
  match l with
  | [] =>
      match Reader.More c with
      | Some (false, c1) => Some ([], c1)
      | _ => None
      end
  | (_, x) :: r =>
      match Reader.More c with
      | Some (true, c1) =>
          let '(k', c2) := Reader.Key c1 in
          match pullOne x c2 with
          | Some (x', c3) =>
              match pullFieldList r c3 with
              | Some (r', c4) => Some ((k', x') :: r', c4)
              | None => None
              end
          | None => None
          end
      | _ => None
      end
  end.

End PullLists.

(** The key terminator a Builder chooses: a colon and white space. *)
Definition colonTerm (kt : list byte) : Prop :=
  exists ws, kt = ":"%byte :: ws /\ forallb json.isSpace ws = true.

(** The document [v] is pulled back from its text, wherever the text
    stands as a value. *)
Definition pullsBack {SC : Strconv} (v : value) : Prop :=
  roundTrips v = true ->
  forall (ind kt : list byte) (nd : Z) (c : Reader.Reader json.Decoder)
         (p : position) (rest : list byte),
    forallb json.isSpace ind = true -> colonTerm kt ->
    isValuePos p = true ->
    stands c p (render ind kt nd v ++ rest) ->
    valueEnds rest = true ->
    Reader.err c = None ->
    exists c1, pull v c = Some (readBack v, c1) /\ passed c c1 p rest.

(** The document of [ExampleBuilder]. *)
Definition exampleDocument : value :=
  VObj [(B "subject", VStr (B "Fun"));
        (B "labels", VArr [VStr (B "casual"); VStr (B "message")]);
        (B "attachment",
         VObj [(B "size", VInt 11 64);
               (B "type", VStr (B "text/plain"));
               (B "data", VBlob (B "hello world"))]);
        (B "isUnread", VBool true);
        (B "score", VFloat f_041 64)].

(* ===================================================================== *)
(** * Part II: properties *)
(* ===================================================================== *)

(** ** Decimal text *)

Lemma digitByte_isDigit (d : Z) : 0 <= d <= 9 -> isDigit (digitByte d) = true.
Proof.
  intros H.
  assert (d = 0 \/ d = 1 \/ d = 2 \/ d = 3 \/ d = 4 \/ d = 5 \/ d = 6
          \/ d = 7 \/ d = 8 \/ d = 9) as C by lia.
  repeat (destruct C as [-> | C]; [reflexivity |]).
  subst d; reflexivity.
Qed.

Lemma formatBits_digits fuel :
  forall n acc,
    Forall (fun b => isDigit b = true) acc ->
    Forall (fun b => isDigit b = true) (formatBits fuel n acc).
Proof.
  induction fuel as [| k IH]; intros n acc Hacc; simpl; [assumption |].
  assert (Forall (fun b => isDigit b = true) (digitByte (n mod 10) :: acc)).
  { constructor; [| assumption].
    apply digitByte_isDigit.
    pose proof (Z.mod_pos_bound n 10 ltac:(lia)); lia. }
  destruct (n <? 10); auto.
Qed.

Lemma FormatUint_digits (v : Z) :
  Forall (fun b => isDigit b = true) (FormatUint v).
Proof. apply formatBits_digits; constructor. Qed.

Lemma isDigit_plain (b : byte) : isDigit b = true -> plain b = true.
Proof. destruct b; vm_compute; congruence. Qed.

Lemma FormatUint_plain (v : Z) :
  Forall (fun b => plain b = true) (FormatUint v).
Proof.
  eapply Forall_impl; [| apply FormatUint_digits].
  intros b; apply isDigit_plain.
Qed.

Lemma FormatInt_plain (v : Z) :
  Forall (fun b => plain b = true) (FormatInt v).
Proof.
  unfold FormatInt. destruct (v <? 0).
  - constructor; [reflexivity | apply FormatUint_plain].
  - apply FormatUint_plain.
Qed.

Lemma digitByte_value (d : Z) : 0 <= d <= 9 -> byteZ (digitByte d) - 48 = d.
Proof.
  intros H.
  assert (d = 0 \/ d = 1 \/ d = 2 \/ d = 3 \/ d = 4 \/ d = 5 \/ d = 6
          \/ d = 7 \/ d = 8 \/ d = 9) as C by lia.
  repeat (destruct C as [-> | C]; [reflexivity |]).
  subst d; reflexivity.
Qed.

(** The digits [formatBits] puts in front of [acc] denote [n]. *)
Lemma formatBits_value fuel :
  forall n acc,
    0 <= n < 2 ^ Z.of_nat fuel ->
    decimalFrom (formatBits fuel n acc) 0 = decimalFrom acc n.
Proof.
  induction fuel as [| k IH]; intros n acc Hn.
  - simpl in *. assert (n = 0) by lia. now subst.
  - cbn [formatBits].
    pose proof (Z.mod_pos_bound n 10 ltac:(lia)) as Hm.
    destruct (Z.ltb_spec n 10) as [Hlt | Hge].
    + unfold decimalFrom; simpl.
      rewrite digitByte_value by lia.
      rewrite Z.mod_small by lia. reflexivity.
    + rewrite IH.
      * unfold decimalFrom; simpl.
        rewrite digitByte_value by lia.
        f_equal. pose proof (Z.div_mod n 10 ltac:(lia)). lia.
      * rewrite Nat2Z.inj_succ, Z.pow_succ_r in Hn by lia.
        split; [apply Z.div_pos; lia |].
        apply Z.div_lt_upper_bound; lia.
Qed.

Lemma FormatUint_value (v : Z) : 0 <= v -> decimalValue (FormatUint v) = v.
Proof.
  intros Hv. unfold decimalValue, FormatUint.
  rewrite formatBits_value; [reflexivity |].
  split; [assumption |].
  rewrite Nat2Z.inj_succ, Z2Nat.id by apply Z.log2_nonneg.
  destruct (Z.eq_dec v 0) as [-> | Hnz]; [reflexivity |].
  apply Z.log2_spec; lia.
Qed.

Lemma formatBits_cons fuel n acc :
  exists c r, formatBits (S fuel) n acc = c :: r.
Proof.
  revert n acc. induction fuel as [| k IH]; intros n acc.
  - simpl. destruct (n <? 10); eauto.
  - cbn [formatBits]. destruct (n <? 10); [eauto |].
    apply (IH (n / 10) (digitByte (n mod 10) :: acc)).
Qed.

Lemma decimalFrom_ge s :
  Forall (fun b => isDigit b = true) s ->
  forall n, n <= decimalFrom s n \/ n < 0.
Proof.
  induction 1 as [| c r Hc _ IH]; intros n; [left; reflexivity |].
  unfold decimalFrom in *; simpl.
  unfold isDigit, inRange in Hc. apply andb_true_iff in Hc.
  destruct (IH (n * 10 + (byteZ c - 48))); lia.
Qed.

(** [ParseUint]'s loop reads a string of digits as the number it denotes,
    as long as that fits. *)
Lemma parseDigits_digits maxVal s :
  maxVal <= 2 ^ 64 - 1 ->
  Forall (fun b => isDigit b = true) s ->
  forall n, 0 <= n -> decimalFrom s n <= maxVal ->
  parseDigits maxVal s n = inl (decimalFrom s n).
Proof.
  intros Hmax Hs. induction Hs as [| c r Hc Hr IH]; intros n Hn Hv;
    [reflexivity |].
  unfold decimalFrom in *. simpl in *.
  pose proof Hc as Hc'. unfold isDigit, inRange in Hc'.
  apply andb_true_iff in Hc'. destruct Hc' as [H1 H2].
  change (byteZ "0") with 48.
  replace ((0 <=? byteZ c - 48) && (byteZ c - 48 <=? 9)) with true
    by (symmetry; apply andb_true_iff; lia).
  destruct (decimalFrom_ge r Hr (n * 10 + (byteZ c - 48))) as [Hge | Hneg];
    [| lia].
  unfold decimalFrom in Hge.
  change ((2 ^ 64 - 1) / 10 + 1) with 1844674407370955162 in *.
  change (2 ^ 64 - 1) with 18446744073709551615 in *.
  destruct (Z.leb_spec 1844674407370955162 n); [lia |].
  destruct (Z.ltb_spec maxVal (n * 10 + (byteZ c - 48))); [lia |].
  apply IH; lia.
Qed.

(** [ParseUint] inverts [FormatUint] at every bit size that holds [v]. *)
Lemma ParseUint_FormatUint (v bitSize : Z) :
  0 < bitSize <= 64 -> 0 <= v < 2 ^ bitSize ->
  ParseUint (FormatUint v) bitSize = (v, None).
Proof.
  intros Hb Hv. unfold ParseUint, parseUint.
  destruct (formatBits_cons (Z.to_nat (Z.log2 v)) v []) as (c & r & Hcr).
  fold (FormatUint v) in Hcr.
  assert ((bitSize =? 0) = false) as -> by lia.
  assert (((bitSize <? 0) || (64 <? bitSize)) = false) as Hok
      by (apply orb_false_iff; lia).
  rewrite parseDigits_digits.
  - fold (decimalValue (FormatUint v)). rewrite FormatUint_value by lia.
    rewrite Hcr, Hok. reflexivity.
  - assert (2 ^ bitSize <= 2 ^ 64) by (apply Z.pow_le_mono_r; lia). lia.
  - apply FormatUint_digits.
  - lia.
  - fold (decimalValue (FormatUint v)). rewrite FormatUint_value; lia.
Qed.

Lemma FormatUint_head (v : Z) :
  exists c r, FormatUint v = c :: r /\ isDigit c = true.
Proof.
  destruct (formatBits_cons (Z.to_nat (Z.log2 v)) v []) as (c & r & Hcr).
  fold (FormatUint v) in Hcr. exists c, r. split; [assumption |].
  pose proof (FormatUint_digits v) as H. rewrite Hcr in H.
  now inversion H.
Qed.

(** [ParseInt] inverts [FormatInt] at every bit size that holds [v]. *)
Lemma ParseInt_FormatInt (v bitSize : Z) :
  0 < bitSize <= 64 -> - 2 ^ (bitSize - 1) <= v < 2 ^ (bitSize - 1) ->
  ParseInt (FormatInt v) bitSize = (v, None).
Proof.
  intros Hb Hv.
  assert (2 ^ bitSize = 2 * 2 ^ (bitSize - 1)) as Hpow.
  { rewrite <- Z.pow_succ_r by lia. f_equal; lia. }
  assert ((bitSize =? 0) = false) as Hz by lia.
  unfold ParseInt, FormatInt.
  destruct (Z.ltb_spec v 0) as [Hneg | Hpos].
  - change (Byte.eqb "-" "-") with true. rewrite orb_true_r.
    pose proof (ParseUint_FormatUint (- v) bitSize Hb ltac:(lia)) as HP.
    unfold ParseUint in HP.
    destruct (parseUint (FormatUint (- v)) bitSize) as [un e].
    destruct e; [discriminate |]. injection HP as ->.
    rewrite Hz. simpl.
    destruct (Z.ltb_spec (2 ^ (bitSize - 1)) (- v)); [lia |].
    f_equal; lia.
  - destruct (FormatUint_head v) as (c & r & Hcr & Hc). rewrite Hcr.
    assert ((Byte.eqb c "+" || Byte.eqb c "-") = false) as ->
        by (destruct c; vm_compute in Hc |- *; congruence).
    assert (Byte.eqb c "-" = false) as ->
        by (destruct c; vm_compute in Hc |- *; congruence).
    rewrite <- Hcr.
    pose proof (ParseUint_FormatUint v bitSize Hb ltac:(lia)) as HP.
    unfold ParseUint in HP.
    destruct (parseUint (FormatUint v) bitSize) as [un e].
    destruct e; [discriminate |]. injection HP as ->.
    rewrite Hz. simpl.
    destruct (Z.leb_spec (2 ^ (bitSize - 1)) v); [lia |].
    reflexivity.
Qed.

(** ** The output buffer *)

Import Builder.

Lemma Write_Write e p q : Write (Write e p) q = Write e (p ++ q).
Proof. unfold Write, set_Buffer; simpl. now rewrite app_assoc. Qed.

Lemma WriteByte_Write e c : WriteByte e c = Write e [c].
Proof. reflexivity. Qed.

Lemma Write_nil e : Write e [] = e.
Proof. destruct e; unfold Write, set_Buffer; simpl. now rewrite app_nil_r. Qed.

Lemma appender_Write p : appender (fun e => Write e p).
Proof. intros e. reflexivity. Qed.

Lemma appender_WriteByte c : appender (fun e => WriteByte e c).
Proof. intros e. reflexivity. Qed.

Lemma appender_id : appender (fun e => e).
Proof. intros e. simpl. now rewrite Write_nil. Qed.

Lemma appender_comp F G :
  appender F -> appender G -> appender (fun e => G (F e)).
Proof.
  intros HF HG e.
  rewrite (HG (F e)), (HF e), (HG (F zero)), Write_Write.
  reflexivity.
Qed.

Lemma appender_if (c : bool) F G :
  appender F -> appender G -> appender (fun e => if c then F e else G e).
Proof. destruct c; auto. Qed.

Lemma appender_flushRun s a b : appender (fun e => flushRun e s a b).
Proof.
  unfold flushRun. apply appender_if; [apply appender_Write | apply appender_id].
Qed.

Lemma appender_writeEscape b : appender (fun e => writeEscape e b).
Proof.
  unfold writeEscape.
  repeat (apply appender_if; [apply appender_WriteByte |]).
  apply (appender_comp (fun e => WriteByte (Write e (B "u00")) _)
           (fun e => WriteByte e _)); [| apply appender_WriteByte].
  apply (appender_comp (fun e => Write e _) (fun e => WriteByte e _));
    [apply appender_Write | apply appender_WriteByte].
Qed.

Lemma appender_writeJsonLoop fuel s :
  forall i start, appender (writeJsonLoop fuel s i start).
Proof.
  induction fuel as [| k IH]; intros i start; simpl.
  - apply appender_id.
  - destruct (i <? length s)%nat.
    + destruct (byteZ (at_ s i) <? RuneSelf).
      * destruct (jsonSafeSet (at_ s i)); [apply IH |].
        apply (appender_comp
                 (fun e => writeEscape (WriteByte (flushRun e s start i) "\")
                             (at_ s i))); [| apply IH].
        apply (appender_comp (fun e => WriteByte (flushRun e s start i) "\")
                 (fun e => writeEscape e _)); [| apply appender_writeEscape].
        apply (appender_comp (fun e => flushRun e s start i)
                 (fun e => WriteByte e _));
          [apply appender_flushRun | apply appender_WriteByte].
      * destruct (DecodeRune (skipn i s)) as [c size].
        destruct ((c =? RuneError) && (size =? 1)%nat).
        { apply (appender_comp
                   (fun e => Write (flushRun e s start i) _)
                   (writeJsonLoop k s (i + size) (i + size)));
            [| apply IH].
          apply (appender_comp (fun e => flushRun e s start i)
                   (fun e => Write e _));
            [apply appender_flushRun | apply appender_Write]. }
        destruct ((c =? 8232) || (c =? 8233)); [| apply IH].
        apply (appender_comp
                 (fun e => WriteByte (Write (flushRun e s start i) (B "\u202"))
                             (at_ hexdigits (Z.to_nat (Z.land c 15)))));
          [| apply IH].
        apply (appender_comp
                 (fun e => Write (flushRun e s start i) (B "\u202"))
                 (fun e => WriteByte e _)); [| apply appender_WriteByte].
        apply (appender_comp (fun e => flushRun e s start i)
                 (fun e => Write e _));
          [apply appender_flushRun | apply appender_Write].
    + apply (appender_comp
               (fun e => if (start <? length s)%nat
                         then Write e (skipn start s) else e)
               (fun e => WriteByte e x22)); [| apply appender_WriteByte].
      apply appender_if; [apply appender_Write | apply appender_id].
Qed.

(** [WriteJsonString] appends [jsonString s] and touches nothing else. *)
Lemma WriteJsonString_Write e s :
  WriteJsonString e s = Write e (jsonString s).
Proof.
  unfold jsonString, WriteJsonString.
  apply (appender_comp (fun e => WriteByte e x22)
           (writeJsonLoop (S (length s)) s 0 0));
    [apply appender_WriteByte | apply appender_writeJsonLoop].
Qed.

Lemma plain_at s i :
  Forall (fun b => plain b = true) s -> (i < length s)%nat ->
  plain (at_ s i) = true.
Proof.
  intros H Hi. rewrite Forall_forall in H. apply H. now apply nth_In.
Qed.

(** On a string of plain bytes the loop runs to the end without writing,
    and the final flush copies the pending run. *)
Lemma writeJsonLoop_plain fuel s :
  Forall (fun b => plain b = true) s ->
  forall i start e,
    (i <= length s)%nat -> (length s - i < fuel)%nat ->
    writeJsonLoop fuel s i start e =
    WriteByte (if (start <? length s)%nat
               then Write e (skipn start s) else e) x22.
Proof.
  intros Hs. induction fuel as [| k IH]; intros i start e Hi Hf; [lia |].
  simpl. destruct (Nat.ltb_spec i (length s)) as [Hlt | Hge]; [| reflexivity].
  pose proof (plain_at s i Hs Hlt) as Hp. unfold plain in Hp.
  apply andb_true_iff in Hp. destruct Hp as [H1 H2].
  rewrite H1, H2. apply IH; lia.
Qed.

Lemma jsonString_plain s :
  Forall (fun b => plain b = true) s ->
  jsonString s = [x22] ++ s ++ [x22].
Proof.
  intros Hs. unfold jsonString, WriteJsonString.
  rewrite (writeJsonLoop_plain _ s Hs) by (simpl; lia).
  destruct s as [| b r]; reflexivity.
Qed.

(** ** The fields an emit call leaves alone *)

Lemma startChunk_fields e st :
  state (startChunk e st) = st /\
  Err (startChunk e st) = Err e /\
  Indent (startChunk e st) = Indent e /\
  nestdepth (startChunk e st) = nestdepth e /\
  scratch (startChunk e st) = scratch e.
Proof.
  unfold startChunk, newLine, writeNewLine.
  destruct (state e); simpl;
    repeat match goal with
           | |- context [if ?c then _ else _] => destruct c
           | |- context [match KeyTerm e with _ => _ end] => destruct (KeyTerm e)
           end; simpl; auto.
Qed.

(** ** C3: wide integers are quoted, narrow ones are bare *)

(** C3.  For every argument value [v], [Builder.Int(v, bitsize)] and
    [Builder.Uint(v, bitsize)] write, after the punctuation of the chunk
    start, the decimal text of [v] between double quotes when
    [bitsize > 32] and the bare decimal text when [bitsize <= 32]; the
    signed and the unsigned path apply the same rule, and the call changes
    nothing but the output and the state the chunk start sets. *)
Theorem C3_wide_integers_quoted (e : Builder) (v bitsize : Z) :
  Int e v bitsize =
    Write (startChunk e builderValue)
      (if 32 <? bitsize then [x22] ++ FormatInt v ++ [x22] else FormatInt v)
  /\ Uint e v bitsize =
    Write (startChunk e builderValue)
      (if 32 <? bitsize then [x22] ++ FormatUint v ++ [x22] else FormatUint v).
Proof.
  unfold Int, Uint. destruct (32 <? bitsize).
  - rewrite !WriteJsonString_Write.
    rewrite (jsonString_plain _ (FormatInt_plain v)).
    rewrite (jsonString_plain _ (FormatUint_plain v)).
    split; reflexivity.
  - split; reflexivity.
Qed.

(** ** C10: no range validation on narrow integers *)

(** C10.  For every [bitsize <= 32], [Builder.Int] and [Builder.Uint] write
    the full decimal text of their argument as a bare number, whatever its
    size, and leave the error as it was; [Int(2^40, 32)] still writes all
    of [1099511627776].  The bit size decides between quoted and bare and
    nothing else: two bit sizes on the same side of 32 give the same
    Builder. *)
Theorem C10_narrow_integers_unchecked (e : Builder) (v bitsize : Z) :
  bitsize <= 32 ->
  Buffer (Int e v bitsize) = Buffer (startChunk e builderValue) ++ FormatInt v
  /\ Err (Int e v bitsize) = Err e
  /\ Buffer (Uint e v bitsize)
     = Buffer (startChunk e builderValue) ++ FormatUint v
  /\ Err (Uint e v bitsize) = Err e
  /\ (forall b1 b2, (32 <? b1) = (32 <? b2) ->
        Int e v b1 = Int e v b2 /\ Uint e v b1 = Uint e v b2)
  /\ Bytes (Int zero (2 ^ 40) 32) = B "1099511627776"
  /\ Err (Int zero (2 ^ 40) 32) = None.
Proof.
  intros Hb.
  destruct (startChunk_fields e builderValue) as (_ & HErr & _).
  unfold Int, Uint.
  assert ((32 <? bitsize) = false) as -> by lia.
  split; [reflexivity |]. split; [assumption |].
  split; [reflexivity |]. split; [assumption |].
  split; [| split; reflexivity].
  intros b1 b2 H. rewrite H. split; reflexivity.
Qed.

Lemma C10_narrow_integers_unchecked_witness :
  32 <= 32 /\
  Buffer (Int zero (2 ^ 40) 32)
  = Buffer (startChunk zero builderValue) ++ FormatInt (2 ^ 40).
Proof.
  split; [lia |].
  exact (proj1 (C10_narrow_integers_unchecked zero (2 ^ 40) 32 ltac:(lia))).
Defined.

(** ** C5: ending a container right after a key *)

Lemma Key_state e k : state (Key e k) = builderKey.
Proof.
  unfold Key, KeyBytes, writeKeyTerm. rewrite WriteJsonString_Write.
  reflexivity.
Qed.

(** C5.  [Builder.End] immediately after [Builder.Key] always leaves the
    error "key without value" in [Err] and still writes the closing byte
    as the last byte of the output.  For [StartObject], [Key("foo")],
    [EndObject], at every indent, the error is set and the output ends in
    the closing brace; without indent the output is the text shown. *)
Theorem C5_key_without_value
    (e : Builder) (k : list byte) (kind : byte) (indent : list byte) :
  Err (End (Key e k) kind) = Some (errorString "key without value")
  /\ Buffer (End (Key e k) kind) = Buffer (Key e k) ++ [kind]
  /\ Err (EndObject (Key (StartObject (set_Indent zero indent)) (B "foo")))
     = Some (errorString "key without value")
  /\ last (Bytes (EndObject
                    (Key (StartObject (set_Indent zero indent)) (B "foo"))))
          x00 = "}"%byte
  /\ Bytes (EndObject (Key (StartObject zero) (B "foo")))
     = B "{" ++ [x22] ++ B "foo" ++ [x22] ++ B ":}".
Proof.
  assert (forall e0 k0 c,
             Err (End (Key e0 k0) c) = Some (errorString "key without value")
             /\ Buffer (End (Key e0 k0) c) = Buffer (Key e0 k0) ++ [c]) as H.
  { intros e0 k0 c. unfold End. cbn [state set_nestdepth].
    rewrite Key_state. split; reflexivity. }
  split; [apply H |]. split; [apply H |]. split; [apply H |].
  split; [| reflexivity].
  unfold EndObject, Bytes. rewrite (proj2 (H _ _ _)).
  apply last_last.
Qed.

(** ** The structure a call leaves behind

    What a call appends, and the structure it leaves, depend on the
    structure it finds only: not on the output so far, the error or the
    scratch array. *)

Ltac setters :=
  unfold set_state, set_nestdepth, set_scratch, set_Err, set_KeyTerm,
    Write, WriteByte, set_Buffer in *; cbn [Buffer Err Indent KeyTerm state
    scratch nestdepth] in *.

Lemma startChunk_shape (ind : list byte) (kt : option (list byte))
    (st : builderState) (nd : Z) (nx : builderState) :
  exists (out : list byte) (kt' : option (list byte)),
    forall b er sc,
      startChunk (mk b er ind kt st sc nd) nx
      = mk (b ++ out) er ind kt' nx sc nd.
Proof.
  unfold startChunk, newLine, writeNewLine; cbn.
  destruct st; cbn.
  - destruct kt; [exists [], (Some l) |
                  destruct (0 <? Z.of_nat (length ind));
                  [exists [], (Some [":"%byte; " "%byte])
                  | exists [], (Some [":"%byte])]];
      intros; setters; now rewrite app_nil_r.
  - destruct (0 <? Z.of_nat (length ind)).
    + eexists; exists kt; intros; setters. rewrite <- app_assoc. reflexivity.
    + exists [], kt; intros; setters. now rewrite app_nil_r.
  - exists [], kt; intros; setters. now rewrite app_nil_r.
  - destruct ((0 <? nd) && (0 <? Z.of_nat (length ind))).
    + eexists; exists kt; intros; setters. rewrite <- !app_assoc. reflexivity.
    + eexists; exists kt; intros; setters. reflexivity.
Qed.

Lemma step_structure {SC : Strconv} (c : call) (e1 e2 : Builder) :
  structure e1 = structure e2 ->
  structure (step e1 c) = structure (step e2 c)
  /\ exists (keep : bool) (out : list byte),
       Buffer (step e1 c) = (if keep then Buffer e1 else []) ++ out
       /\ Buffer (step e2 c) = (if keep then Buffer e2 else []) ++ out.
Proof.
  destruct e1 as [b1 er1 ind1 kt1 st1 sc1 nd1],
           e2 as [b2 er2 ind2 kt2 st2 sc2 nd2].
  unfold structure; simpl. intros [= -> -> -> ->].
  destruct (startChunk_shape ind2 kt2 st2 nd2 builderKey) as (ok & kk & Hk).
  destruct (startChunk_shape ind2 kt2 st2 nd2 builderObj) as (oo & ko & Ho).
  destruct (startChunk_shape ind2 kt2 st2 nd2 builderValue) as (ov & kv & Hv).
  assert (forall (x y : builderState * Z * list byte * option (list byte))
                 (p q : list byte) o,
             x = y -> p = b1 ++ o -> q = b2 ++ o ->
             x = y /\ exists (keep : bool) (out : list byte),
                 p = (if keep then b1 else []) ++ out
                 /\ q = (if keep then b2 else []) ++ out) as fin.
  { intros x y p q o Hxy -> ->. split; [assumption |]. exists true, o.
    split; reflexivity. }
  destruct c; cbn [step];
    unfold Reset, Key, KeyBytes, RawKey, Start, Raw, Null, Bool, Blob,
      Str, Int, Uint, Float, Raw, writeKeyTerm;
    rewrite ?WriteJsonString_Write, ?Hk, ?Ho, ?Hv; setters.
  - split; [reflexivity | exists false, []; split; reflexivity].
  - eapply fin; rewrite <- ?app_assoc; reflexivity.
  - eapply fin; rewrite <- ?app_assoc; reflexivity.
  - eapply fin; rewrite <- ?app_assoc; reflexivity.
  - unfold End, writeNewLine; setters.
    destruct st2; cbn;
      try (destruct (0 <? Z.of_nat (length ind2)); cbn); setters;
      eapply fin; rewrite <- ?app_assoc; reflexivity.
  - eapply fin; rewrite <- ?app_assoc; reflexivity.
  - eapply fin; rewrite <- ?app_assoc; reflexivity.
  - destruct v; rewrite ?Hv; setters;
      eapply fin; rewrite <- ?app_assoc; reflexivity.
  - destruct (EncodedLen (Z.of_nat (length data)) <? 512);
      rewrite ?WriteJsonString_Write; setters;
      eapply fin; rewrite <- ?app_assoc; reflexivity.
  - eapply fin; rewrite <- ?app_assoc; reflexivity.
  - destruct (32 <? bitsize); rewrite ?WriteJsonString_Write; setters;
      eapply fin; rewrite <- ?app_assoc; reflexivity.
  - destruct (32 <? bitsize); rewrite ?WriteJsonString_Write; setters;
      eapply fin; rewrite <- ?app_assoc; reflexivity.
  - unfold setError; setters.
    destruct (IsInf f || IsNaN f), er1, er2; setters;
      eapply fin; rewrite <- ?app_assoc; reflexivity.
Qed.

Lemma run_structure {SC : Strconv} (cs : list call) :
  forall e1 e2,
    structure e1 = structure e2 ->
    structure (run e1 cs) = structure (run e2 cs)
    /\ exists (keep : bool) (out : list byte),
         Buffer (run e1 cs) = (if keep then Buffer e1 else []) ++ out
         /\ Buffer (run e2 cs) = (if keep then Buffer e2 else []) ++ out.
Proof.
  induction cs as [| c cs IH]; intros e1 e2 H.
  - split; [assumption |]. exists true, []. now rewrite !app_nil_r.
  - destruct (step_structure c e1 e2 H) as (Hs & k1 & o1 & Ha & Hb).
    destruct (IH _ _ Hs) as (Hr & k2 & o2 & Hc & Hd).
    split; [exact Hr |]. cbn [run fold_left]. fold (run (step e1 c) cs).
    fold (run (step e2 c) cs). rewrite Hc, Hd.
    destruct k2.
    + rewrite Ha, Hb. exists k1, (o1 ++ o2). now rewrite !app_assoc.
    + exists false, o2. split; reflexivity.
Qed.

(** ** C7: NaN and the infinities *)

Lemma Float_shape {SC : Strconv} (e : Builder) (f : float64) (bits : Z) :
  structure (Float e f bits) = structure (startChunk e builderValue)
  /\ Buffer (Float e f bits)
     = Buffer (startChunk e builderValue) ++ floatText f bits
  /\ Err (Float e f bits)
     = match Err e with
       | Some first => Some first
       | None =>
           if IsInf f || IsNaN f
           then Some (errorString
                        ("unsupported float64 value "
                         ++ text (FormatFloat f "g" (-1) bits)))
           else None
       end.
Proof.
  destruct e as [b er ind kt st sc nd].
  destruct (startChunk_shape ind kt st nd builderValue) as (o & k & H).
  unfold Float, setError. rewrite H. setters.
  destruct (IsInf f || IsNaN f), er; setters; repeat split; reflexivity.
Qed.

(** C7.  [Builder.Float] with a NaN or an infinity records the error
    "unsupported float64 value" followed by the value's text, unless an
    earlier error is already held, which stays.  The call still completes:
    it writes the chunk's punctuation and a text for the value, the state
    becomes [builderValue] and the nesting depth stays, exactly as for any
    other float [g]; and whatever calls [cs] follow, they reach the same
    structure and append the same bytes as they do after [g]. *)
Theorem C7_nonfinite_float_keeps_structure
    {SC : Strconv} (e : Builder) (f : float64) (bits : Z) :
  (IsInf f || IsNaN f) = true ->
  Err (Float e f bits)
  = Some (match Err e with
          | Some first => first
          | None => errorString ("unsupported float64 value "
                                 ++ text (FormatFloat f "g" (-1) bits))
          end)
  /\ state (Float e f bits) = builderValue
  /\ nestdepth (Float e f bits) = nestdepth e
  /\ Buffer (Float e f bits)
     = Buffer (startChunk e builderValue) ++ floatText f bits
  /\ forall (g : float64) (cs : list call),
       structure (run (Float e f bits) cs) = structure (run (Float e g bits) cs)
       /\ exists (keep : bool) (out : list byte),
            Buffer (run (Float e f bits) cs)
            = (if keep then Buffer (Float e f bits) else []) ++ out
            /\ Buffer (run (Float e g bits) cs)
               = (if keep then Buffer (Float e g bits) else []) ++ out.
Proof.
  intros Hf.
  destruct (Float_shape e f bits) as (Hs & Hb & He).
  destruct (startChunk_fields e builderValue) as (S1 & _ & _ & S4 & _).
  split. { rewrite He, Hf. now destruct (Err e). }
  split. { transitivity (state (startChunk e builderValue));
           [unfold structure in Hs; congruence | assumption]. }
  split. { transitivity (nestdepth (startChunk e builderValue));
           [unfold structure in Hs; congruence | assumption]. }
  split; [assumption |].
  intros g cs. apply run_structure.
  rewrite Hs. symmetry. apply Float_shape.
Qed.

Lemma C7_nonfinite_float_keeps_structure_witness :
  (IsInf S754_nan || IsNaN S754_nan) = true
  /\ Err (Float (SC := sampleStrconv) zero S754_nan 64)
     = Some (errorString "unsupported float64 value NaN").
Proof.
  split; [reflexivity |].
  exact (proj1 (C7_nonfinite_float_keeps_structure
                  (SC := sampleStrconv) zero S754_nan 64 eq_refl)).
Defined.

(** ** C2: which calls keep the first error *)

(** Every call of the Builder but [Reset], and [End] right after a key,
    keeps an error that is already held. *)
Lemma Builder_keeps_first_error {SC : Strconv}
    (e : Builder) (c : call) (first : error) :
  Err e = Some first ->
  match c with
  | CReset => True
  | CEnd _ => state e <> builderKey -> Err (step e c) = Some first
  | _ => Err (step e c) = Some first
  end.
Proof.
  intros H. destruct e as [b er ind kt st sc nd]. simpl in H. subst er.
  destruct (startChunk_shape ind kt st nd builderKey) as (ok & kk & Hk).
  destruct (startChunk_shape ind kt st nd builderObj) as (oo & ko & Ho).
  destruct (startChunk_shape ind kt st nd builderValue) as (ov & kv & Hv).
  destruct c; cbn [step]; trivial;
    unfold Key, KeyBytes, RawKey, Start, Raw, Null, Bool, Blob,
      Str, Int, Uint, Float, Raw, writeKeyTerm, setError;
    rewrite ?WriteJsonString_Write, ?Hk, ?Ho, ?Hv; setters;
    try reflexivity.
  - intros Hst. unfold End, writeNewLine; setters.
    destruct st; try contradiction; cbn;
      try (destruct (0 <? Z.of_nat (length ind)); cbn); reflexivity.
  - destruct v; rewrite ?Hv; reflexivity.
  - destruct (EncodedLen (Z.of_nat (length data)) <? 512);
      rewrite ?WriteJsonString_Write; reflexivity.
  - destruct (32 <? bitsize); rewrite ?WriteJsonString_Write; reflexivity.
  - destruct (32 <? bitsize); rewrite ?WriteJsonString_Write; reflexivity.
  - destruct (IsInf f || IsNaN f); reflexivity.
Qed.

(** C2, on the code.  [Builder.End] assigns [Err] where every other call
    goes through [setError]: after [StartObject], [Key("a")],
    [Float(NaN, 64)], [Key("b")] the Builder holds the float's error, and
    [EndObject] replaces it with "key without value".  In general [Key]
    leaves [Err] as it is and [End] right after it overwrites whatever
    error was held. *)
Theorem C2_End_replaces_first_error :
  (let e1 := run (SC := sampleStrconv) zero
               [CStart "{"; CKey (B "a"); CFloat S754_nan 64; CKey (B "b")] in
   Err e1 = Some (errorString "unsupported float64 value NaN")
   /\ Err (step (SC := sampleStrconv) e1 (CEnd "}"))
      = Some (errorString "key without value"))
  /\ forall (e : Builder) (k : list byte) (kind : byte),
       Err (Key e k) = Err e
       /\ Err (End (Key e k) kind) = Some (errorString "key without value").
Proof.
  split; [vm_compute; split; reflexivity |].
  intros e k kind. split.
  - unfold Key, KeyBytes, writeKeyTerm. rewrite WriteJsonString_Write.
    setters. apply startChunk_fields.
  - unfold End. cbn [state set_nestdepth]. rewrite Key_state. reflexivity.
Qed.

(** ** The Reader's error *)

Import Reader.

Section ReaderFacts.
Context {D : Type} {Dec : Decoder D}.

Lemma setError_held (c : Reader D) (e first : error) :
  err c = Some first -> setError c e = c.
Proof. unfold setError. now intros ->. Qed.

Lemma setErrorf_held (c : Reader D) (msg : string) (first : error) :
  err c = Some first -> setErrorf c msg = c.
Proof. unfold setErrorf. now intros ->. Qed.

Lemma setError_sets (c : Reader D) (e : error) : err (setError c e) <> None.
Proof.
  unfold setError. destruct (err c) eqn:H; [now rewrite H |].
  simpl. discriminate.
Qed.

Lemma next_held (c : Reader D) (first : error) :
  err c = Some first -> err (snd (next c)) = Some first.
Proof.
  intros H. unfold next. destruct (dec_Token (d c)) as [[t e] d'].
  destruct e; simpl; [| assumption].
  rewrite (setError_held _ _ first); assumption.
Qed.

(** What [next] does: one [Token()] call, whose token is kept in [tok] and
    whose error, if any, goes through [setError]. *)
Lemma next_spec (c : Reader D) :
  let '(t, e, d') := dec_Token (d c) in
  fst (next c) = t /\ d (snd (next c)) = d' /\ tok (snd (next c)) = t
  /\ delimstack (snd (next c)) = delimstack c
  /\ delim (snd (next c)) = delim c
  /\ match e with
     | None => err (snd (next c)) = err c
     | Some _ => err (snd (next c)) <> None
     end.
Proof.
  unfold next. destruct (dec_Token (d c)) as [[t e] d'].
  destruct e; simpl; repeat split; try reflexivity;
    try (unfold setError; cbn; destruct (err c); reflexivity).
  apply setError_sets.
Qed.

(** Every call of the Reader, [Reset] included, keeps an error that is
    already held. *)
Lemma Reader_keeps_first_error (c : Reader D) (k : call) (first : error) :
  err c = Some first ->
  match step c k with
  | Some c' => err c' = Some first
  | None => True
  end.
Proof.
  intros H. pose proof (next_held c first H) as Hn.
  destruct k; cbn [step]; trivial;
    unfold Key, ObjectStart, ArrayStart, pushDelim, More, popDelim, Int, Uint,
      Float, Bool, Str, Blob, Str, Discard, setErrorExpected;
    try destruct (dec_More (d c)); cbn [snd option_map]; try assumption;
    destruct (next c) as [t c1]; cbn [snd] in Hn;
    try (destruct t; cbn [snd isDelim negb];
         rewrite ?(setError_held c1 _ first Hn); try assumption).
  all: repeat match goal with
         | |- context [if ?b then _ else _] => destruct b
         | |- context [ParseInt ?v ?b] => destruct (ParseInt v b) as [? [?|]]
         | |- context [ParseUint ?v ?b] => destruct (ParseUint v b) as [? [?|]]
         | |- context [DecodeString ?v] => destruct (DecodeString v) as [? [?|]]
         | |- context [match ?l with [] => _ | _ :: _ => _ end] => destruct l
         end; cbn [snd option_map];
       rewrite ?(setError_held c1 _ first Hn),
               ?(setErrorf_held c1 _ first Hn); trivial.
Qed.

End ReaderFacts.

(** ** C9: [Reader.Key] *)

(** C9 as stated fails: inside the object of [{}], with no further element
    pending, [Key] returns the empty string and sets no error (it does not
    pull a token either: the Reader is unchanged).  So it is on the token
    stream of the document and on its bytes. *)
Lemma C9_Key_at_end_sets_no_error :
  (let c := snd (ObjectStart (readStream [TDelim 123; TDelim 125])) in
   delim c = 123 /\ dec_More (d c) = false
   /\ Key c = ([], c) /\ err (snd (Key c)) = None)
  /\ (let c := snd (ObjectStart (NewReaderBytes (B "{}"))) in
      delim c = 123 /\ dec_More (d c) = false
      /\ Key c = ([], c) /\ err (snd (Key c)) = None).
Proof. split; vm_compute; repeat split; reflexivity. Qed.

(** C9, amended.  While the tokenizer reports another element pending,
    [Reader.Key] pulls exactly one token; it returns the token when it is a
    string, and otherwise returns the empty string with an error held
    afterwards: the error held before the call if there was one, else the
    error the tokenizer reported for this pull if there was one, else
    "expected key but got T at offset N", with T the type of the token
    pulled (or the delimiter itself) and N the tokenizer's offset after
    the pull.  When no further element is pending it returns the empty
    string and leaves the Reader as it is: no token pulled, no error set.
    Whether the Reader is inside an object plays no part: the delimiter
    and the stack are not looked at and stay as they are. *)
Theorem C9_Key_pulls_a_string_or_nothing
    {D : Type} {Dec : Decoder D} (c : Reader D) :
  if dec_More (d c) then
    let '(t, e, d') := dec_Token (d c) in
    let reported (e0 : error) : error :=
      match e0 with
      | NumError _ _ ErrSyntax =>
          errExpected (set_tok (set_d c d') t) "number"
      | _ => e0
      end in
    d (snd (Key c)) = d' /\ tok (snd (Key c)) = t
    /\ delim (snd (Key c)) = delim c
    /\ delimstack (snd (Key c)) = delimstack c
    /\ match t with
       | Tstring s =>
           fst (Key c) = s
           /\ match e with
              | None => err (snd (Key c)) = err c
              | Some e0 =>
                  err (snd (Key c)) <> None
                  /\ err (snd (Key c))
                     = match err c with
                       | Some first => Some first
                       | None => Some (reported e0)
                       end
              end
       | _ =>
           fst (Key c) = []
           /\ err (snd (Key c)) <> None
           /\ err (snd (Key c))
              = match err c, e with
                | Some first, _ => Some first
                | None, Some e0 => Some (reported e0)
                | None, None =>
                    Some (errorString
                            ("expected key but got "
                             ++ match t with
                                | TDelim x => text (EncodeRune x)
                                | _ => typeName t
                                end
                             ++ " at offset "
                             ++ text (FormatInt (dec_InputOffset d'))))
                end
       end
  else Key c = ([], c).
Proof.
  destruct c as [dc er tk ds dl]. unfold Key. cbn [d].
  destruct (dec_More dc); [| reflexivity].
  unfold next, setErrorExpected, setError, errExpected, Sprint_Delim.
  cbn [d]. destruct (dec_Token dc) as [[t e] d'].
  destruct t, e as [e0 |], er as [first |]; cbn;
    repeat split; try discriminate; try reflexivity.
Qed.

(** ** C4: the mismatched closing delimiter *)

(** [popDelim] sets no error of its own, for any tokenizer: it leaves in
    [err] what [next] left there. *)
Lemma popDelim_sets_no_error {D : Type} {Dec : Decoder D} (c : Reader D) :
  match popDelim c with
  | Some c' => err c' = err (snd (next c))
  | None => True
  end.
Proof.
  unfold popDelim. destruct (next c) as [t c1].
  destruct t; trivial. destruct (delimstack c1); trivial.
Qed.

(** C4 as stated fails: on the input [[1,2}] the calls [ArrayStart],
    [Int], [Int] succeed, and [More] then returns false with an error
    held, but the error is the tokenizer's syntax error for the brace it
    met.  Its message names the brace; the bracket does not occur in it,
    and it is not the Reader's "expected ]" error.  The tokenizer checks
    the nesting of the delimiters itself and [next] hands its error to
    [setError]; it hands out no delimiter, so the Reader's own comparison
    of delimiters is not reached and nothing is popped. *)
Lemma C4_mismatched_close_error_omits_bracket :
  let c0 := NewReaderBytes (B "[1,2}") in
  let c1 := snd (ArrayStart c0) in
  let c2 := snd (Int c1 32) in
  let c3 := snd (Int c2 32) in
  fst (ArrayStart c0) = true /\ fst (Int c1 32) = 1 /\ fst (Int c2 32) = 2
  /\ err c3 = None /\ delim c3 = 91
  /\ match More c3 with
     | Some (more, c4) =>
         more = false
         /\ err c4
            = Some (TokenizerError "invalid character '}' after array element")
         /\ option_map (mentions "]") (err c4) = Some false
         /\ err c4 <> Some (errExpected c4 "]")
         /\ err c4 <> Some (errExpected c3 "]")
         /\ tok c4 = Tnil
         /\ delim c4 = 91 /\ delimstack c4 = delimstack c3
     | None => False
     end.
Proof. vm_compute. repeat split; try reflexivity; discriminate. Qed.

(** C4, amended.  When the Reader is past an element of an array and the
    input goes on with a closing brace, as in [[1,2}] after the calls
    [ArrayStart], [Int], [Int], then [More] returns false and, unless an
    error was held before, the Reader holds the tokenizer's syntax error
    "invalid character '}' after array element".  The token pulled is
    nil: the current delimiter and the stack stay as they are, and the
    tokenizer stays where it was. *)
Theorem C4_mismatched_close_reports_syntax_error
    (c : Reader json.Decoder) (rest : list byte) :
  json.state (d c) = json.tokenArrayComma ->
  json.skipSpace (json.buf (d c)) = "}"%byte :: rest ->
  More c
  = Some (false,
          set_err (set_tok c Tnil)
            (match err c with
             | Some first => Some first
             | None =>
                 Some (TokenizerError
                         "invalid character '}' after array element")
             end)).
Proof.
  intros Hst Hsk. destruct c as [dc er tk ds dl].
  destruct dc as [bf sc st stack]. cbn in Hst, Hsk. subst st.
  unfold More, popDelim, next. cbn [d dec_More dec_Token JSONDecoder].
  unfold json.More, json.Token, json.peek. cbn [json.buf fst].
  rewrite Hsk. cbn. destruct er; reflexivity.
Qed.

Lemma C4_mismatched_close_reports_syntax_error_witness :
  let c3 := snd (Int (snd (Int (snd (ArrayStart (NewReaderBytes (B "[1,2}"))))
                             32)) 32) in
  json.state (d c3) = json.tokenArrayComma
  /\ json.skipSpace (json.buf (d c3)) = B "}"
  /\ err c3 = None
  /\ More c3
     = Some (false,
             set_err (set_tok c3 Tnil)
               (Some (TokenizerError
                        "invalid character '}' after array element"))).
Proof.
  split; [reflexivity |]. split; [reflexivity |]. split; [reflexivity |].
  exact (C4_mismatched_close_reports_syntax_error
           (snd (Int (snd (Int (snd (ArrayStart (NewReaderBytes (B "[1,2}"))))
                            32)) 32))
           [] eq_refl eq_refl).
Defined.

(** ** C8: reset *)

(** C8, on the code.  [Reader.Reset] replaces the decoder and empties the
    delimiter stack; it leaves the error, the current delimiter and the
    last token as they were.  A Reader that failed on one document and is
    reset onto the document [true] reads the value and still reports the
    old error, where a new Reader reports none; a Reader reset inside an
    array still holds the bracket as its current delimiter.
    [Builder.Reset] does clear the output, the error, the state and the
    depth, and keeps [Indent], [KeyTerm] and the scratch array. *)
Theorem C8_Reader_Reset_keeps_error_and_delimiter :
  (forall (D : Type) (Dec : Decoder D) (c : Reader D) (d0 : D),
      err (Reset c d0) = err c /\ delim (Reset c d0) = delim c
      /\ tok (Reset c d0) = tok c
      /\ delimstack (Reset c d0) = [] /\ d (Reset c d0) = d0)
  /\ (let c1 := snd (Bool (readStream [Tfloat64 (f64 1 0)])) in
      let c2 := Reset c1 (mkStream [Tbool true] 0) in
      err c1 = Some (errorString "expected boolean but got float64 at offset 1")
      /\ fst (Bool c2) = true
      /\ err (snd (Bool c2)) = err c1
      /\ err (snd (Bool (readStream [Tbool true]))) = None)
  /\ (let c1 := snd (ArrayStart (readStream [TDelim 91; Tbool true])) in
      delim (Reset c1 (mkStream [Tbool true] 0)) = 91
      /\ delim (readStream [Tbool true]) = 0)
  /\ forall e : Builder,
       Builder.Reset e
       = Builder.mk [] None (Indent e) (KeyTerm e) builderInit (scratch e) 0.
Proof.
  split; [intros; repeat split; reflexivity |].
  split; [vm_compute; repeat split; reflexivity |].
  split; [vm_compute; repeat split; reflexivity |].
  intros e. reflexivity.
Qed.

(** ** C6: fixed-point or exponent notation *)

Lemma digits2_pos_bounds (m : positive) :
  2 ^ (Z.pos (digits2_pos m) - 1) <= Z.pos m < 2 ^ Z.pos (digits2_pos m).
Proof.
  induction m as [m IH | m IH |]; cbn [digits2_pos].
  - rewrite Pos2Z.inj_succ.
    replace (Z.succ (Z.pos (digits2_pos m)) - 1)
      with (Z.succ (Z.pos (digits2_pos m) - 1)) by lia.
    rewrite !Z.pow_succ_r by lia. lia.
  - rewrite Pos2Z.inj_succ.
    replace (Z.succ (Z.pos (digits2_pos m)) - 1)
      with (Z.succ (Z.pos (digits2_pos m) - 1)) by lia.
    rewrite !Z.pow_succ_r by lia. lia.
  - simpl. lia.
Qed.

(** A float of the binary64 format has at most 53 bits of mantissa, and
    exactly 53 above the least exponent. *)
Lemma bounded64 (m : positive) (e : Z) :
  bounded 53 1024 m e = true ->
  -1074 <= e <= 971 /\ Z.pos m < 2 ^ 53 /\ (-1074 < e -> 2 ^ 52 <= Z.pos m).
Proof.
  unfold bounded, canonical_mantissa, fexp, emin. intros H.
  apply andb_true_iff in H. destruct H as [H1 H2].
  apply Z.eqb_eq in H1. apply Z.leb_le in H2.
  pose proof (digits2_pos_bounds m) as [Hlo Hhi].
  assert (Z.pos (digits2_pos m) <= 53 /\
          (-1074 < e -> Z.pos (digits2_pos m) = 53)) as [Hd Hn] by lia.
  split; [lia |]. split.
  - eapply Z.lt_le_trans; [exact Hhi |]. apply Z.pow_le_mono_r; lia.
  - intros He. rewrite (Hn He) in Hlo. exact Hlo.
Qed.

Lemma scaled64_lt (m1 m2 : positive) (e1 e2 : Z) :
  bounded 53 1024 m1 e1 = true -> bounded 53 1024 m2 e2 = true ->
  e1 < e2 -> scaled64 m1 e1 < scaled64 m2 e2.
Proof.
  intros B1 B2 He.
  destruct (bounded64 _ _ B1) as (E1 & M1 & _).
  destruct (bounded64 _ _ B2) as (E2 & _ & N2).
  specialize (N2 ltac:(lia)). unfold scaled64.
  replace (e2 + 1074) with ((e1 + 1074) + (e2 - e1)) by lia.
  rewrite (Z.pow_add_r 2 (e1 + 1074) (e2 - e1)) by lia.
  assert (0 < 2 ^ (e1 + 1074)) as HA by (apply Z.pow_pos_nonneg; lia).
  assert (2 ^ 1 <= 2 ^ (e2 - e1)) as HB by (apply Z.pow_le_mono_r; lia).
  change (2 ^ 1) with 2 in HB.
  set (A := 2 ^ (e1 + 1074)) in *. set (Bp := 2 ^ (e2 - e1)) in *.
  apply Z.lt_le_trans with (2 ^ 53 * A).
  - apply Z.mul_lt_mono_pos_r; assumption.
  - change (2 ^ 53) with (2 ^ 52 * 2). rewrite <- Z.mul_assoc.
    apply Z.mul_le_mono_nonneg; [lia | assumption | lia |].
    rewrite (Z.mul_comm 2 A). apply Z.mul_le_mono_nonneg_l; lia.
Qed.

(** On positive floats of the format, [SFcompare] compares the values. *)
Lemma SFcompare_bounded64 (m1 m2 : positive) (e1 e2 : Z) :
  bounded 53 1024 m1 e1 = true -> bounded 53 1024 m2 e2 = true ->
  SFcompare (S754_finite false m1 e1) (S754_finite false m2 e2)
  = Some (scaled64 m1 e1 ?= scaled64 m2 e2).
Proof.
  intros B1 B2. cbn [SFcompare]. f_equal.
  destruct (Z.compare_spec e1 e2) as [-> | Hlt | Hgt].
  - rewrite Pos.compare_cont_spec. cbn [Pos.switch_Eq].
    unfold scaled64.
    destruct (bounded64 _ _ B2) as (E2 & _).
    rewrite <- Zmult_compare_compat_r
      by (apply Z.lt_gt, Z.pow_pos_nonneg; lia).
    destruct (m1 ?= m2)%positive eqn:E; symmetry; exact E.
  - symmetry. apply Z.compare_lt_iff. now apply scaled64_lt.
  - symmetry. apply Z.compare_gt_iff. now apply scaled64_lt.
Qed.

Lemma at_app (p l : list byte) (k : nat) :
  at_ (p ++ l) (length p + k) = at_ l k.
Proof. apply app_nth2_plus. Qed.

Lemma store_app (p l : list byte) (k : nat) (x : byte) :
  store (p ++ l) (length p + k) x = p ++ store l k x.
Proof.
  induction p as [| y p IH]; [reflexivity |].
  simpl. now rewrite IH.
Qed.

(** The clean-up drops the zero of an exponent [e-0d] ... *)
Lemma cleanExponent_strips (p : list byte) (d : byte) :
  cleanExponent (p ++ B "e-0" ++ [d]) = p ++ B "e-" ++ [d].
Proof.
  unfold cleanExponent. rewrite length_app.
  change (length (B "e-0" ++ [d])) with 4%nat.
  replace (length p + 4 - 4)%nat with (length p + 0)%nat by lia.
  replace (length p + 4 - 3)%nat with (length p + 1)%nat by lia.
  replace (length p + 4 - 2)%nat with (length p + 2)%nat by lia.
  replace (length p + 4 - 1)%nat with (length p + 3)%nat by lia.
  rewrite !at_app, store_app, firstn_app_2.
  assert ((4 <=? length p + 4)%nat = true) as -> by (apply Nat.leb_le; lia).
  reflexivity.
Qed.

(** ... and leaves every other exponent [e-cd] as it is. *)
Lemma cleanExponent_keeps (p : list byte) (c d : byte) :
  c <> "0"%byte ->
  cleanExponent (p ++ B "e-" ++ [c; d]) = p ++ B "e-" ++ [c; d].
Proof.
  intros Hc. unfold cleanExponent. rewrite length_app.
  change (length (B "e-" ++ [c; d])) with 4%nat.
  replace (length p + 4 - 2)%nat with (length p + 2)%nat by lia.
  rewrite (at_app p _ 2). change (at_ (B "e-" ++ [c; d]) 2) with c.
  destruct (Byte.eqb c "0") eqn:E.
  - apply Byte.byte_dec_bl in E. contradiction.
  - now rewrite andb_false_r.
Qed.

Lemma c64_1e_6_value : c64_1e_6 = S754_finite false 4722366482869645 (-72).
Proof. vm_compute. reflexivity. Qed.

Lemma c64_1e21_value : c64_1e21 = S754_finite false 7629394531250000 17.
Proof. vm_compute. reflexivity. Qed.

(** The rule of [Float] at 64 bits, on the value of a finite float. *)
Lemma floatFmt64_exact (m : positive) (e : Z) :
  bounded 53 1024 m e = true ->
  floatFmt (S754_finite false m e) 64
  = if (scaled64 m e <? scaled64 4722366482869645 (-72))
       || (10 ^ 21 * 2 ^ 1074 <=? scaled64 m e)
    then "e"%byte else "f"%byte.
Proof.
  intros Bm.
  assert (bounded 53 1024 4722366482869645 (-72) = true) as B6 by reflexivity.
  assert (bounded 53 1024 7629394531250000 17 = true) as B21 by reflexivity.
  assert (scaled64 7629394531250000 17 = 10 ^ 21 * 2 ^ 1074) as E21
      by (vm_compute; reflexivity).
  unfold floatFmt, fne0, flt, fge, SFltb, SFleb, SFeqb.
  rewrite c64_1e_6_value, c64_1e21_value.
  rewrite (SFcompare_bounded64 _ _ _ _ Bm B6).
  rewrite (SFcompare_bounded64 _ _ _ _ B21 Bm).
  rewrite E21. cbn [SFcompare negb Z.eqb andb orb].
  generalize (scaled64 m e) (scaled64 4722366482869645 (-72))
    (10 ^ 21 * 2 ^ 1074).
  intros x lo hi.
  destruct (Z.compare_spec x lo); destruct (Z.compare_spec hi x);
    destruct (Z.ltb_spec x lo); destruct (Z.leb_spec hi x);
    try reflexivity; lia.
Qed.

Lemma cutoff_rule (x lo hi : Z) :
  ((if (x <? lo) || (hi <=? x) then "e"%byte else "f"%byte) = "e"%byte
   <-> x < lo \/ hi <= x)
  /\ ((if (x <? lo) || (hi <=? x) then "e"%byte else "f"%byte) = "f"%byte
      <-> lo <= x < hi).
Proof.
  assert ("e"%byte <> "f"%byte) as Hne by discriminate.
  destruct (Z.ltb_spec x lo); destruct (Z.leb_spec hi x); cbn [orb];
    split; split; intros; try reflexivity; try lia; try congruence.
Qed.

(** C6.  For a finite nonzero float [m * 2^e] of the binary64 format,
    [Builder.Float] at 64 bits uses the exponent notation exactly when the
    absolute value is below the [float64] constant [1e-6] or at or above
    [1e21] (compared as exact values; the constants are the floats nearest
    to the decimal numbers); zero is written in fixed point.  At either
    width the rule is the source's test, and at 32 bits it compares the
    value converted to [float32] with the [float32] constants, so that the
    [float32] nearest to [1e-6] is fixed point at 32 bits and exponent at
    64.  [1e21] is in exponent notation, [9.999e20] in fixed point,
    [1.5e-7] in exponent notation.  The text written is [strconv]'s, with
    an exponent [e-0d] cleaned up to [e-d] and any other [e-cd] left as it
    is: from [1.5e-07] the Builder writes [1.5e-7]. *)
Theorem C6_float_notation {SC : Strconv} (s : bool) (m : positive) (e : Z) :
  bounded 53 1024 m e = true ->
  (floatFmt (SFabs (S754_finite s m e)) 64 = "e"%byte <->
     scaled64 m e < scaled64 4722366482869645 (-72)
     \/ 10 ^ 21 * 2 ^ 1074 <= scaled64 m e)
  /\ (floatFmt (SFabs (S754_finite s m e)) 64 = "f"%byte <->
     scaled64 4722366482869645 (-72) <= scaled64 m e < 10 ^ 21 * 2 ^ 1074)
  /\ (c64_1e_6 = S754_finite false 4722366482869645 (-72)
      /\ Z.abs (4722366482869645 * 10 ^ 6 - 2 ^ 72) * 2 <= 10 ^ 6
      /\ c64_1e21 = S754_finite false 7629394531250000 17
      /\ 7629394531250000 * 2 ^ 17 = 10 ^ 21
      /\ c32_1e_6 = S754_finite false 8796093 (-43)
      /\ Z.abs (8796093 * 10 ^ 6 - 2 ^ 43) * 2 <= 10 ^ 6
      /\ c32_1e21 = S754_finite false 14210855 46
      /\ Z.abs (14210855 * 2 ^ 46 - 10 ^ 21) * 2 <= 2 ^ 46)
  /\ (forall a : float64,
        floatFmt a 64
        = if fne0 a && (flt a c64_1e_6 || fge a c64_1e21)
          then "e"%byte else "f"%byte)
  /\ (forall a : float64,
        floatFmt a 32
        = if fne0 a && (flt (float32 a) c32_1e_6 || fge (float32 a) c32_1e21)
          then "e"%byte else "f"%byte)
  /\ (forall (sg : bool) (bits : Z),
        floatFmt (SFabs (S754_zero sg)) bits = "f"%byte)
  /\ (floatFmt (SFabs f_1e21) 64 = "e"%byte
      /\ floatFmt (SFabs f_9999e17) 64 = "f"%byte
      /\ floatFmt (SFabs f_15e_8) 64 = "e"%byte
      /\ floatFmt (f64 8796093 (-43)) 32 = "f"%byte
      /\ floatFmt (f64 8796093 (-43)) 64 = "e"%byte)
  /\ (forall (b : Builder) (f : float64) (bits : Z),
        Buffer (Builder.Float b f bits)
        = Buffer (startChunk b builderValue) ++ floatText f bits)
  /\ (forall (f : float64) (bits : Z),
        floatText f bits
        = if Byte.eqb (floatFmt (SFabs f) bits) "e"
          then cleanExponent (AppendFloat [] f "e" (-1) bits)
          else AppendFloat [] f (floatFmt (SFabs f) bits) (-1) bits)
  /\ (forall (p : list byte) (d : byte),
        cleanExponent (p ++ B "e-0" ++ [d]) = p ++ B "e-" ++ [d])
  /\ (forall (p : list byte) (c d : byte),
        c <> "0"%byte ->
        cleanExponent (p ++ B "e-" ++ [c; d]) = p ++ B "e-" ++ [c; d])
  /\ (AppendFloat [] f_15e_8 "e" (-1) 64 = B "1.5e-07" ->
      Bytes (Builder.Float zero f_15e_8 64) = B "1.5e-7").
Proof.
  intros Bm. cbn [SFabs].
  pose proof (floatFmt64_exact m e Bm) as H.
  split; [| split].
  - rewrite H. apply cutoff_rule.
  - rewrite H. apply cutoff_rule.
  - split.
    { repeat split; try (vm_compute; reflexivity);
        vm_compute; discriminate. }
    split.
    { intros a. unfold floatFmt. change (64 =? 64) with true.
      change (64 =? 32) with false. cbn [andb orb].
      destruct (fne0 a); [| reflexivity].
      rewrite orb_false_r. reflexivity. }
    split.
    { intros a. unfold floatFmt. change (32 =? 64) with false.
      change (32 =? 32) with true. cbn [andb orb].
      destruct (fne0 a); reflexivity. }
    split; [intros sg bits; reflexivity |].
    split; [repeat split; vm_compute; reflexivity |].
    split; [intros b f bits; apply Float_shape |].
    split.
    { intros f bits. unfold floatText.
      destruct (Byte.eqb (floatFmt (SFabs f) bits) "e") eqn:E;
        [| reflexivity].
      apply Byte.byte_dec_bl in E. rewrite E. reflexivity. }
    split; [apply cleanExponent_strips |].
    split; [apply cleanExponent_keeps |].
    intros HA. unfold Bytes.
    rewrite (proj1 (proj2 (Float_shape zero f_15e_8 64))).
    unfold floatText.
    assert (floatFmt (SFabs f_15e_8) 64 = "e"%byte) as ->
        by (vm_compute; reflexivity).
    rewrite HA. reflexivity.
Qed.

Lemma C6_float_notation_witness :
  bounded 53 1024 5666839779443574 (-75) = true
  /\ (floatFmt (SFabs (S754_finite false 5666839779443574 (-75))) 64
      = "e"%byte <->
      scaled64 5666839779443574 (-75) < scaled64 4722366482869645 (-72)
      \/ 10 ^ 21 * 2 ^ 1074 <= scaled64 5666839779443574 (-75))
  /\ Bytes (Builder.Float (SC := sampleStrconv) zero f_15e_8 64) = B "1.5e-7".
Proof.
  pose proof (C6_float_notation (SC := sampleStrconv) false
                5666839779443574 (-75) eq_refl) as H.
  split; [reflexivity |]. split; [exact (proj1 H) |].
  apply H. reflexivity.
Defined.

(* ===================================================================== *)
(** * C1: the round trip *)
(* ===================================================================== *)

(** ** Bytes *)

Lemma below_check (P : Z -> bool) (n : nat) :
  forallb P (map Z.of_nat (seq 0 n)) = true ->
  forall x, 0 <= x < Z.of_nat n -> P x = true.
Proof.
  intros H x Hx. rewrite forallb_forall in H. apply H.
  apply in_map_iff. exists (Z.to_nat x). split; [lia |].
  apply in_seq. lia.
Qed.

Lemma Zbyte_byteZ (a : byte) : Zbyte (byteZ a) = a.
Proof. destruct a; reflexivity. Qed.

Lemma byteZ_range (a : byte) : 0 <= byteZ a < 256.
Proof.
  unfold byteZ. pose proof (Byte.to_N_bounded a). lia.
Qed.

Lemma byteZ_Zbyte (z : Z) : 0 <= z < 256 -> byteZ (Zbyte z) = z.
Proof.
  intros H.
  pose proof (below_check (fun x => byteZ (Zbyte x) =? x) 256) as E.
  cbv beta in E. apply Z.eqb_eq. apply E; [vm_compute; reflexivity | lia].
Qed.

(** ** base64 *)

Lemma decodeMap_b64char (x : Z) :
  0 <= x < 64 -> decodeMap (b64char x) = Some x.
Proof.
  intros H.
  pose proof (below_check b64inverse 64) as E.
  assert (b64inverse x = true) as Ex
      by (apply E; [vm_compute; reflexivity | lia]).
  unfold b64inverse in Ex. destruct (decodeMap (b64char x)); [| discriminate].
  apply Z.eqb_eq in Ex. now subst.
Qed.

Lemma b64char_plain (x : Z) : 0 <= x < 64 -> plain (b64char x) = true.
Proof.
  intros H. pose proof (below_check (fun x => plain (b64char x)) 64) as E.
  cbv beta in E. apply E; [vm_compute; reflexivity | lia].
Qed.

Lemma b64Decode_step (x : Z) (r : list byte) (q : list Z) (si : Z)
    (out : list byte) :
  0 <= x < 64 ->
  b64Decode (b64char x :: r) q si out
  = match q with
    | [_; _; _] => b64Decode r [] (si + 1) (out ++ quantumBytes (q ++ [x]))
    | _ => b64Decode r (q ++ [x]) (si + 1) out
    end.
Proof.
  intros H. cbn [b64Decode]. now rewrite decodeMap_b64char.
Qed.

Ltac sextet := 
  match goal with
  | |- 0 <= _ mod 64 < 64 => apply Z.mod_pos_bound; lia
  end.

Lemma Zbyte_eq (z : Z) (a : byte) : z = byteZ a -> Zbyte z = a.
Proof. intros ->. apply Zbyte_byteZ. Qed.

Ltac octet := apply Zbyte_eq; Z.div_mod_to_equations; lia.

(** [DecodeString] inverts [Encode]. *)
Lemma b64Decode_b64Encode (n : nat) :
  forall (d : list byte) (si : Z) (out : list byte),
    (length d <= n)%nat ->
    b64Decode (b64Encode d) [] si out = (out ++ d, None).
Proof.
  induction n as [n IH] using lt_wf_ind. intros d si out Hn.
  destruct d as [| a [| b [| c r]]].
  - simpl. now rewrite app_nil_r.
  - cbn [b64Encode].
    pose proof (byteZ_range a) as Ha.
    rewrite !b64Decode_step by sextet. cbn [app b64Decode quantumBytes].
    do 3 f_equal. octet.
  - cbn [b64Encode].
    pose proof (byteZ_range a) as Ha. pose proof (byteZ_range b) as Hb.
    rewrite !b64Decode_step by sextet. cbn [app b64Decode quantumBytes].
    do 2 f_equal. f_equal; [octet | f_equal; octet].
  - cbn [b64Encode].
    pose proof (byteZ_range a) as Ha. pose proof (byteZ_range b) as Hb.
    pose proof (byteZ_range c) as Hc.
    rewrite !b64Decode_step by sextet. cbn [app quantumBytes].
    rewrite (IH (length r)) by (simpl in Hn; lia || reflexivity).
    rewrite <- app_assoc. do 2 f_equal. cbn [app].
    f_equal; [octet | f_equal; [octet | f_equal; octet]].
Qed.

Lemma DecodeString_b64Encode (d : list byte) :
  DecodeString (b64Encode d) = (d, None).
Proof.
  unfold DecodeString. now rewrite (b64Decode_b64Encode (length d)).
Qed.

Lemma b64Encode_plain (n : nat) :
  forall d, (length d <= n)%nat ->
            Forall (fun b => plain b = true) (b64Encode d).
Proof.
  induction n as [n IH] using lt_wf_ind. intros d Hn.
  destruct d as [| a [| b [| c r]]]; cbn [b64Encode].
  - constructor.
  - repeat constructor; apply b64char_plain; sextet.
  - repeat constructor; apply b64char_plain; sextet.
  - repeat (constructor; [apply b64char_plain; sextet |]).
    apply (IH (length r)); simpl in Hn; lia || reflexivity.
Qed.

Lemma b64Encode_nil (d : list byte) : b64Encode d = [] -> d = [].
Proof. destruct d as [| a [| b [| c r]]]; [reflexivity | discriminate ..]. Qed.

(** ** Strings: the loop of [WriteJsonString] and its specification *)

Lemma writeEscape_Write (e : Builder) (b : byte) :
  writeEscape e b = Write e (escapeByte b).
Proof.
  unfold writeEscape, escapeByte.
  repeat match goal with
         | |- context [if ?c then _ else _] => destruct c
         end; try reflexivity.
  rewrite !WriteByte_Write, !Write_Write. reflexivity.
Qed.

Lemma DecodeRune_size (p : list byte) :
  p <> [] -> (1 <= snd (DecodeRune p) <= length p)%nat.
Proof.
  destruct p as [| b0 r]; [congruence |]. intros _.
  unfold DecodeRune.
  repeat match goal with
         | |- context [if ?c then _ else _] => destruct c
         | |- context [match ?l with [] => _ | _ :: _ => _ end] =>
             is_var l; destruct l
         end; simpl; lia.
Qed.

Lemma skipn_at (s : list byte) (i : nat) :
  (i < length s)%nat -> skipn i s = at_ s i :: skipn (S i) s.
Proof.
  revert i. induction s as [| x s IH]; intros i Hi; [simpl in Hi; lia |].
  destruct i; [reflexivity |]. simpl in Hi.
  change (skipn (S i) (x :: s)) with (skipn i s).
  change (skipn (S (S i)) (x :: s)) with (skipn (S i) s).
  change (at_ (x :: s) (S i)) with (at_ s i).
  apply IH. lia.
Qed.

Lemma slice_empty (s : list byte) (a : nat) : slice s a a = [].
Proof. unfold slice. now rewrite Nat.sub_diag. Qed.

Lemma slice_extend (s : list byte) (a i n : nat) :
  (a <= i)%nat ->
  slice s a (i + n) = slice s a i ++ firstn n (skipn i s).
Proof.
  intros Hai. unfold slice.
  replace (i + n - a)%nat with ((i - a) + n)%nat by lia.
  replace (skipn i s) with (skipn (i - a) (skipn a s))
    by (rewrite skipn_skipn; f_equal; lia).
  generalize (skipn a s) as l. generalize (i - a)%nat as k. clear.
  induction k as [| k IH]; intros l; [reflexivity |].
  destruct l as [| x l]; [simpl; now rewrite firstn_nil |].
  simpl. now rewrite IH.
Qed.

Lemma slice_snoc (s : list byte) (a i : nat) :
  (a <= i)%nat -> (i < length s)%nat ->
  slice s a (S i) = slice s a i ++ [at_ s i].
Proof.
  intros Hai Hi. replace (S i) with (i + 1)%nat by lia.
  rewrite slice_extend by assumption. now rewrite (skipn_at s i Hi).
Qed.

Lemma slice_to_end (s : list byte) (a : nat) :
  slice s a (length s) = skipn a s.
Proof.
  unfold slice. apply firstn_all2. rewrite length_skipn. lia.
Qed.

Lemma flushRun_Write (e : Builder) (s : list byte) (start i : nat) :
  (start <= i)%nat -> flushRun e s start i = Write e (slice s start i).
Proof.
  intros H. unfold flushRun. destruct (Nat.ltb_spec start i); [reflexivity |].
  assert (start = i) as -> by lia. now rewrite slice_empty, Write_nil.
Qed.

Ltac writes :=
  rewrite ?WriteByte_Write; rewrite ?Write_Write; f_equal;
  repeat (rewrite <- ?app_assoc; cbn [app]); try reflexivity.

(** The loop writes the pending run, the escaped text of what is left of
    [s], and the closing quote. *)
Lemma writeJsonLoop_escapeJson (f : nat) (s : list byte) :
  forall (i start : nat) (e : Builder),
    (start <= i <= length s)%nat -> (length s - i <= f)%nat ->
    writeJsonLoop (S f) s i start e
    = WriteByte (Write e (slice s start i ++ escapeJson f (skipn i s))) x22.
Proof.
  induction f as [| f IH]; intros i start e Hi Hf.
  - assert (i = length s) as -> by lia.
    cbn [writeJsonLoop]. rewrite Nat.ltb_irrefl.
    rewrite slice_to_end. rewrite skipn_all. cbn [escapeJson].
    rewrite app_nil_r.
    destruct (Nat.ltb_spec start (length s)); [reflexivity |].
    rewrite skipn_all2 by lia. now rewrite Write_nil.
  - remember (S f) as g eqn:Hg. cbn [writeJsonLoop]. subst g.
    destruct (Nat.ltb_spec i (length s)) as [Hlt | Hge].
    + rewrite (skipn_at s i Hlt). cbn [escapeJson].
      rewrite <- (skipn_at s i Hlt).
      destruct (byteZ (at_ s i) <? RuneSelf).
      * destruct (jsonSafeSet (at_ s i)).
        -- rewrite IH by lia. rewrite slice_snoc by lia. writes.
        -- rewrite IH by lia.
           rewrite flushRun_Write, writeEscape_Write by lia.
           rewrite slice_empty. writes.
      * pose proof (DecodeRune_size (skipn i s)) as Hsz.
        rewrite (skipn_at s i Hlt) in Hsz at 1.
        specialize (Hsz ltac:(discriminate)).
        rewrite length_skipn in Hsz.
        destruct (DecodeRune (skipn i s)) as [c size]. cbn [snd] in Hsz.
        rewrite skipn_skipn, (Nat.add_comm size i).
        destruct ((c =? RuneError) && (size =? 1)%nat).
        { rewrite IH by lia. rewrite flushRun_Write by lia.
          rewrite slice_empty. writes. }
        destruct ((c =? 8232) || (c =? 8233)).
        { rewrite IH by lia. rewrite flushRun_Write by lia.
          rewrite slice_empty. writes. }
        rewrite IH by lia. rewrite slice_extend by lia. writes.
    + assert (i = length s) as -> by lia.
      rewrite slice_to_end, skipn_all. cbn [escapeJson]. rewrite app_nil_r.
      destruct (Nat.ltb_spec start (length s)); [reflexivity |].
      rewrite skipn_all2 by lia. now rewrite Write_nil.
Qed.

Lemma jsonString_escape (s : list byte) :
  jsonString s = [x22] ++ escape s ++ [x22].
Proof.
  unfold jsonString, WriteJsonString, escape.
  rewrite writeJsonLoop_escapeJson by (simpl; lia).
  rewrite slice_empty. reflexivity.
Qed.

(** ** Strings: what the tokenizer reads back *)

Lemma safe_byte_scans (b : byte) :
  (byteZ b <? RuneSelf) = true -> jsonSafeSet b = true ->
  Byte.eqb b x22 = false /\ Byte.eqb b "\" = false /\ (byteZ b <? 32) = false.
Proof. destruct b; vm_compute; intros; repeat split; congruence. Qed.

Lemma high_byte_scans (b : byte) :
  (byteZ b <? RuneSelf) = false ->
  Byte.eqb b x22 = false /\ Byte.eqb b "\" = false /\ (byteZ b <? 32) = false.
Proof. destruct b; vm_compute; intros; repeat split; congruence. Qed.

(** The escape of an unsafe ASCII byte reads back as the byte. *)
Lemma scanString_escapeByte (b : byte) :
  (byteZ b <? RuneSelf) = true -> jsonSafeSet b = false ->
  forall (k : nat) (tail acc : list byte),
    json.scanString (S k) ("\"%byte :: escapeByte b ++ tail) acc
    = json.scanString k tail (acc ++ [b]).
Proof.
  destruct b; intros H1 H2; try (vm_compute in H2; discriminate H2);
    try (vm_compute in H1; discriminate H1); intros k tail acc; reflexivity.
Qed.

Lemma scanString_replacement (k : nat) (tail acc : list byte) :
  json.scanString (S k) (B "\u" ++ B "fffd" ++ tail) acc
  = json.scanString k tail (acc ++ EncodeRune RuneError).
Proof. reflexivity. Qed.

Lemma scanString_separator (c : Z) (k : nat) (tail acc : list byte) :
  ((c =? 8232) || (c =? 8233)) = true ->
  json.scanString (S k)
    (B "\u202" ++ [at_ hexdigits (Z.to_nat (Z.land c 15))] ++ tail) acc
  = json.scanString k tail (acc ++ EncodeRune c).
Proof.
  intros H. apply orb_true_iff in H.
  destruct H as [H | H]; apply Z.eqb_eq in H; subst c; reflexivity.
Qed.

(** A valid encoding is decoded from its own bytes, whatever follows. *)
Lemma DecodeRune_prefix (p q : list byte) (c : Z) (size : nat) :
  DecodeRune p = (c, size) ->
  ((c =? RuneError) && (size =? 1)%nat) = false ->
  (byteZ (hd x00 p) <? RuneSelf) = false ->
  DecodeRune (firstn size p ++ q) = (c, size)
  /\ skipn size (firstn size p ++ q) = q.
Proof.
  destruct p as [| b0 r]; [simpl; discriminate |].
  cbn [hd]. intros HD Hv Hb. unfold DecodeRune in HD. rewrite Hb in HD.
  repeat match type of HD with
         | context [if ?x then _ else _] => destruct x eqn:?
         | context [match ?l with [] => _ | _ :: _ => _ end] =>
             is_var l; destruct l
         end;
    injection HD as <- <-; try discriminate Hv;
    cbn [firstn app skipn DecodeRune];
    repeat match goal with
           | H : ?x = _ |- context [?x] => rewrite H
           end; split; reflexivity.
Qed.

(** The tokenizer reads the escaped text of [s] back as [s], coerced to
    valid UTF-8. *)
Lemma scanString_escapeJson (k : nat) :
  forall (s : list byte) (f : nat) (acc rest : list byte),
    (length s <= k)%nat -> (length (escapeJson k s) < f)%nat ->
    json.scanString f (escapeJson k s ++ x22 :: rest) acc
    = Some (acc ++ coerceFrom k s, rest).
Proof.
  induction k as [| k IH]; intros s f acc rest Hk Hf.
  - destruct s; [| simpl in Hk; lia]. destruct f; [simpl in Hf; lia |].
    simpl. now rewrite app_nil_r.
  - destruct s as [| b r].
    + destruct f; [simpl in Hf; lia |]. simpl. now rewrite app_nil_r.
    + cbn [escapeJson coerceFrom] in *.
      destruct f as [| f]; [lia |].
      destruct (byteZ b <? RuneSelf) eqn:Hb.
      * destruct (jsonSafeSet b) eqn:Hs.
        -- destruct (safe_byte_scans b Hb Hs) as (E1 & E2 & E3).
           cbn [app json.scanString]. rewrite E1, E2, E3, Hb.
           rewrite IH.
           ++ now rewrite <- app_assoc.
           ++ simpl in Hk; lia.
           ++ cbn [app length] in Hf. lia.
        -- rewrite <- app_assoc. cbn [app].
           rewrite (scanString_escapeByte b Hb Hs).
           rewrite IH.
           ++ now rewrite <- app_assoc.
           ++ simpl in Hk; lia.
           ++ cbn [app length] in Hf. rewrite length_app in Hf. lia.
      * pose proof (DecodeRune_size (b :: r) ltac:(discriminate)) as Hsz.
        destruct (DecodeRune (b :: r)) as [c size] eqn:HD. cbn [snd] in Hsz.
        assert (length (skipn size (b :: r)) <= k)%nat as Hlen
            by (rewrite length_skipn; cbn [length] in *; lia).
        destruct ((c =? RuneError) && (size =? 1)%nat) eqn:Hv.
        { apply andb_true_iff in Hv. destruct Hv as [Hc _].
          apply Z.eqb_eq in Hc. subst c.
          rewrite <- !app_assoc. rewrite scanString_replacement.
          rewrite IH; [now rewrite <- app_assoc | assumption |].
          rewrite !length_app in Hf. simpl in Hf. lia. }
        destruct ((c =? 8232) || (c =? 8233)) eqn:Hu.
        { rewrite <- !app_assoc. rewrite (scanString_separator c) by assumption.
          rewrite IH; [now rewrite <- app_assoc | assumption |].
          rewrite !length_app in Hf. simpl in Hf. lia. }
        destruct (DecodeRune_prefix (b :: r)
                    (escapeJson k (skipn size (b :: r)) ++ x22 :: rest)
                    c size HD Hv Hb) as [HP HS].
        destruct (high_byte_scans b Hb) as (E1 & E2 & E3).
        rewrite <- app_assoc.
        assert (exists t, firstn size (b :: r) = b :: t) as [t Ht]
            by (destruct size; [lia | simpl; eauto]).
        rewrite Ht in HP, HS |- *. cbn [app json.scanString].
        rewrite E1, E2, E3, Hb. cbn [app] in HP, HS. rewrite HP, HS.
        rewrite IH; [now rewrite <- app_assoc | assumption |].
        rewrite length_app in Hf.
        assert (length (firstn size (b :: r)) = size) as Hfl
            by (apply firstn_length_le; lia).
        lia.
Qed.

(** ** Valid UTF-8 is read back unchanged *)

Lemma inRange_spec (lo hi : Z) (b : byte) :
  inRange lo hi b = true -> lo <= byteZ b <= hi.
Proof.
  unfold inRange. intros H. apply andb_true_iff in H. lia.
Qed.

Ltac tests :=
  repeat match goal with
         | |- context [?a <=? ?b] => destruct (Z.leb_spec a b); try lia
         | |- context [?a <? ?b] => destruct (Z.ltb_spec a b); try lia
         | |- context [?a =? ?b] => destruct (Z.eqb_spec a b); try lia
         end; cbn [andb orb negb].

(** [EncodeRune] inverts [DecodeRune] on a valid encoding. *)
Lemma EncodeRune_DecodeRune (p : list byte) (c : Z) (size : nat) :
  p <> [] -> DecodeRune p = (c, size) ->
  ((c =? RuneError) && (size =? 1)%nat) = false ->
  EncodeRune c = firstn size p.
Proof.
  destruct p as [| b0 r]; [congruence |]. intros _ HD Hv.
  pose proof (byteZ_range b0) as R0.
  unfold DecodeRune in HD.
  destruct (Z.ltb_spec (byteZ b0) RuneSelf) as [Hlt | Hge].
  { injection HD as <- <-. unfold RuneSelf in Hlt.
    unfold EncodeRune; tests; cbn [firstn]; f_equal; apply Zbyte_byteZ. }
  unfold RuneSelf in Hge.
  destruct (inRange 194 223 b0) eqn:H2.
  { apply inRange_spec in H2.
    destruct r as [| b1 r]; [injection HD as <- <-; discriminate Hv |].
    destruct (inRange 128 191 b1) eqn:H21;
      [| injection HD as <- <-; discriminate Hv].
    apply inRange_spec in H21. injection HD as <- <-.
    unfold EncodeRune, cont; tests; cbn [firstn];
      (f_equal; [| f_equal]); apply Zbyte_eq; Z.div_mod_to_equations; lia. }
  destruct (inRange 224 239 b0) eqn:H3.
  { apply inRange_spec in H3.
    destruct r as [| b1 [| b2 r]]; try (injection HD as <- <-; discriminate Hv).
    match type of HD with
    | context [if ?x then _ else _] => destruct x eqn:H31
    end; [| injection HD as <- <-; discriminate Hv].
    apply andb_true_iff in H31. destruct H31 as [H31 H32].
    apply inRange_spec in H31, H32. injection HD as <- <-.
    assert ((byteZ b0 = 224 -> 160 <= byteZ b1) /\
            (byteZ b0 = 237 -> byteZ b1 <= 159) /\
            128 <= byteZ b1 <= 191) as (A1 & A2 & A3).
    { revert H31. tests; lia. }
    clear H31.
    unfold EncodeRune, cont; tests; cbn [firstn];
      (f_equal; [| f_equal; [| f_equal]]); apply Zbyte_eq;
      Z.div_mod_to_equations; lia. }
  destruct (inRange 240 244 b0) eqn:H4.
  { apply inRange_spec in H4.
    destruct r as [| b1 [| b2 [| b3 r]]];
      try (injection HD as <- <-; discriminate Hv).
    match type of HD with
    | context [if ?x then _ else _] => destruct x eqn:H41
    end; [| injection HD as <- <-; discriminate Hv].
    apply andb_true_iff in H41. destruct H41 as [H41 H43].
    apply andb_true_iff in H41. destruct H41 as [H41 H42].
    apply inRange_spec in H41, H42, H43. injection HD as <- <-.
    assert ((byteZ b0 = 240 -> 144 <= byteZ b1) /\
            (byteZ b0 = 244 -> byteZ b1 <= 143) /\
            128 <= byteZ b1 <= 191) as (A1 & A2 & A3).
    { revert H41. tests; lia. }
    clear H41.
    unfold EncodeRune, cont; tests; cbn [firstn];
      (f_equal; [| f_equal; [| f_equal; [| f_equal]]]); apply Zbyte_eq;
      Z.div_mod_to_equations; lia. }
  injection HD as <- <-. discriminate Hv.
Qed.

Lemma coerceFrom_valid (k : nat) :
  forall s : list byte,
    (length s <= k)%nat -> validFrom k s = true -> coerceFrom k s = s.
Proof.
  induction k as [| k IH]; intros s Hk Hv.
  - destruct s; [reflexivity | simpl in Hk; lia].
  - destruct s as [| b r]; [reflexivity |].
    cbn [validFrom coerceFrom] in *.
    pose proof (DecodeRune_size (b :: r) ltac:(discriminate)) as Hsz.
    destruct (byteZ b <? RuneSelf) eqn:Hb.
    + assert (DecodeRune (b :: r) = (byteZ b, 1%nat)) as HD
          by (unfold DecodeRune; now rewrite Hb).
      rewrite HD in Hv.
      destruct ((byteZ b =? RuneError) && (1 =? 1)%nat); [discriminate |].
      cbn [skipn] in Hv. f_equal. apply IH; [simpl in Hk; lia | assumption].
    + destruct (DecodeRune (b :: r)) as [c size] eqn:HD. cbn [snd] in Hsz.
      destruct ((c =? RuneError) && (size =? 1)%nat) eqn:Hc; [discriminate |].
      rewrite (EncodeRune_DecodeRune (b :: r) c size ltac:(discriminate) HD Hc).
      rewrite IH; [apply firstn_skipn | | assumption].
      rewrite length_skipn. cbn [length] in *. lia.
Qed.

Lemma coerceUTF8_valid (s : list byte) : Valid s = true -> coerceUTF8 s = s.
Proof. apply coerceFrom_valid. lia. Qed.

(** ** One value through the tokenizer *)

(** At the top level, the first token of an input that starts with a
    scalar is that scalar. *)
Lemma Token_top_scalar (c : byte) (r rest : list byte) (t : json_Token) :
  scalarStart c = true ->
  json.decodeScalar (c :: r) = Some (t, rest) ->
  exists d',
    json.Token (json.NewDecoder (c :: r)) = (t, None, d')
    /\ json.buf d' = rest /\ json.state d' = json.tokenTopValue
    /\ json.tokenStack d' = [].
Proof.
  intros Hc HD. unfold scalarStart in Hc. apply negb_true_iff in Hc.
  destruct (json.isSpace c) eqn:Hsp; [discriminate Hc |]. cbn [orb] in Hc.
  repeat (apply orb_false_iff in Hc; destruct Hc as [Hc ?]).
  unfold json.Token, json.peek, json.NewDecoder.
  cbn [json.buf json.skipSpace]. rewrite Hsp. cbn [hd_error fst snd].
  repeat match goal with
         | H : Byte.eqb c _ = false |- _ => rewrite H
         end.
  unfold json.tokenAt. cbn [json.advance json.buf json.state json.tokenStack
                           json.scanned].
  repeat match goal with
         | H : Byte.eqb c _ = false |- _ => rewrite H
         end.
  cbn [orb json.tokenValueAllowed]. rewrite HD.
  eexists. split; [reflexivity |]. repeat split.
Qed.

Lemma plain_escape (s : list byte) :
  Forall (fun b => plain b = true) s -> escape s = s.
Proof.
  intros H. pose proof (jsonString_plain s H) as E.
  rewrite jsonString_escape in E. cbn [app] in E. injection E as E.
  now apply app_inv_tail in E.
Qed.

Lemma plain_coerce (s : list byte) :
  Forall (fun b => plain b = true) s -> coerceUTF8 s = s.
Proof.
  unfold coerceUTF8. induction 1 as [| b r Hb _ IH]; [reflexivity |].
  cbn [length coerceFrom]. unfold plain in Hb.
  apply andb_true_iff in Hb. destruct Hb as [-> _]. now rewrite IH.
Qed.

(** The tokenizer reads the literal [WriteJsonString] writes for [s] as
    the string [coerceUTF8 s]. *)
Lemma decodeScalar_jsonString (s rest : list byte) :
  json.decodeScalar (jsonString s ++ rest) = Some (Tstring (coerceUTF8 s), rest).
Proof.
  rewrite jsonString_escape. cbn [app]. unfold json.decodeScalar.
  change (Byte.eqb x22 x22) with true. cbv iota.
  rewrite <- app_assoc. cbn [app]. unfold escape.
  rewrite scanString_escapeJson.
  - reflexivity.
  - lia.
  - cbn [length]. rewrite length_app. cbn [length]. lia.
Qed.

(** ** Numbers: decimal text through the tokenizer *)

Lemma formatBits_head (fuel : nat) :
  forall n acc,
    0 < n < 2 ^ Z.of_nat fuel ->
    exists c r, formatBits fuel n acc = c :: r /\ json.is19 c = true.
Proof.
  induction fuel as [| k IH]; intros n acc Hn; [simpl in Hn; lia |].
  cbn [formatBits]. destruct (Z.ltb_spec n 10) as [Hlt | Hge].
  - eexists; eexists; split; [reflexivity |].
    rewrite Z.mod_small by lia.
    assert (n = 1 \/ n = 2 \/ n = 3 \/ n = 4 \/ n = 5 \/ n = 6
            \/ n = 7 \/ n = 8 \/ n = 9) as C by lia.
    repeat (destruct C as [-> | C]; [reflexivity |]). subst n; reflexivity.
  - apply IH.
    rewrite Nat2Z.inj_succ, Z.pow_succ_r in Hn by lia.
    split; [apply Z.div_str_pos; lia |].
    apply Z.div_lt_upper_bound; lia.
Qed.

(** The decimal text of a positive number: a digit from 1 to 9, then
    digits. *)
Lemma FormatUint_shape (v : Z) :
  0 < v ->
  exists c ds, FormatUint v = c :: ds /\ json.is19 c = true
               /\ Forall (fun b => isDigit b = true) ds.
Proof.
  intros Hv.
  destruct (formatBits_head (S (Z.to_nat (Z.log2 v))) v []) as (c & ds & E & Hc).
  { split; [assumption |].
    rewrite Nat2Z.inj_succ, Z2Nat.id by apply Z.log2_nonneg.
    apply Z.log2_spec; lia. }
  fold (FormatUint v) in E. exists c, ds. repeat split; try assumption.
  pose proof (FormatUint_digits v) as H. rewrite E in H. now inversion H.
Qed.

Lemma numNext_ends (st : json.numState) (c : byte) (r : list byte) :
  numberEnds (c :: r) = true -> json.numNext st c = None.
Proof.
  unfold numberEnds. intros H. apply negb_true_iff in H.
  apply orb_false_iff in H. destruct H as [H Em].
  apply orb_false_iff in H. destruct H as [H Ep].
  apply orb_false_iff in H. destruct H as [H Ee].
  apply orb_false_iff in H. destruct H as [H Ed].
  assert (json.is19 c = false) as H19.
  { unfold json.is19, json.is09, inRange in *.
    apply andb_false_iff in H. apply andb_false_iff.
    destruct H as [H | H]; [left | right]; lia. }
  assert (Byte.eqb c "0" = false) as Hz.
  { destruct (Byte.eqb c "0") eqn:E; [| reflexivity].
    apply Byte.byte_dec_bl in E. subst c. discriminate H. }
  destruct st; cbn [json.numNext];
    repeat match goal with
           | E : ?x = false |- context [?x] => rewrite E
           end; reflexivity.
Qed.

(** A run of digits is scanned to its end. *)
Lemma scanNumber_digits (ds rest : list byte) :
  Forall (fun b => isDigit b = true) ds -> numberEnds rest = true ->
  json.scanNumber json.num1 (ds ++ rest) = Some (ds, rest).
Proof.
  intros Hds Hr. induction Hds as [| c ds Hc _ IH].
  - destruct rest as [| c r]; [reflexivity |].
    cbn [app json.scanNumber]. now rewrite (numNext_ends _ c r Hr).
  - cbn [app json.scanNumber json.numNext].
    change (json.is09 c) with (isDigit c). rewrite Hc, IH. reflexivity.
Qed.

(** The tokenizer takes the decimal text of an integer as one number
    literal. *)
Lemma scanNumber_FormatInt (v : Z) (rest : list byte) :
  numberEnds rest = true ->
  json.scanNumber json.numBegin (FormatInt v ++ rest)
  = Some (FormatInt v, rest).
Proof.
  intros Hr.
  assert (forall u, 0 < u ->
            forall st, st = json.numBegin \/ st = json.numNeg ->
            json.scanNumber st (FormatUint u ++ rest)
            = Some (FormatUint u, rest)) as Hpos.
  { intros u Hu st Hst.
    destruct (FormatUint_shape u Hu) as (c & ds & E & Hc & Hds).
    rewrite E. cbn [app json.scanNumber].
    assert (json.numNext st c = Some json.num1) as ->.
    { assert (Byte.eqb c "-" = false /\ Byte.eqb c "0" = false) as [E1 E2]
          by (destruct c; vm_compute in Hc |- *; split; congruence).
      destruct Hst as [-> | ->]; cbn [json.numNext]; now rewrite ?E1, E2, Hc. }
    now rewrite scanNumber_digits. }
  unfold FormatInt. destruct (Z.ltb_spec v 0) as [Hneg | Hge].
  - cbn [app json.scanNumber json.numNext].
    change (Byte.eqb "-" "-") with true. cbv iota.
    rewrite Hpos by (lia || auto). reflexivity.
  - destruct (Z.eq_dec v 0) as [-> | Hnz].
    + change (FormatUint 0) with ["0"%byte]. cbn [app json.scanNumber].
      change (json.numNext json.numBegin "0") with (Some json.num0).
      cbv iota. destruct rest as [| c r]; [reflexivity |].
      cbn [json.scanNumber]. now rewrite (numNext_ends _ c r Hr).
    + apply Hpos; [lia | auto].
Qed.

Lemma spanDigits_digits (ds : list byte) :
  Forall (fun b => isDigit b = true) ds -> json.spanDigits ds = (ds, []).
Proof.
  induction 1 as [| c ds Hc _ IH]; [reflexivity |].
  cbn [json.spanDigits]. change (json.is09 c) with (isDigit c).
  now rewrite Hc, IH.
Qed.

(** The sign, mantissa and exponent the tokenizer finds in the decimal
    text of an integer. *)
Lemma literalParts_FormatInt (v : Z) :
  json.literalParts (FormatInt v) = (v <? 0, Z.abs v, 0).
Proof.
  unfold json.literalParts, FormatInt.
  destruct (Z.ltb_spec v 0) as [Hneg | Hge].
  - change (Byte.eqb "-" "-") with true. cbv iota.
    rewrite (spanDigits_digits _ (FormatUint_digits (- v))).
    rewrite app_nil_r. fold (decimalValue (FormatUint (- v))).
    rewrite FormatUint_value by lia. cbn [length]. f_equal. f_equal. lia.
  - destruct (FormatUint_head v) as (c & r & E & Hc).
    rewrite E.
    assert (Byte.eqb c "-" = false) as ->
        by (destruct c; vm_compute in Hc |- *; congruence).
    rewrite <- E.
    rewrite (spanDigits_digits _ (FormatUint_digits v)).
    rewrite app_nil_r. rewrite FormatUint_value by lia.
    cbn [length]. f_equal. f_equal. lia.
Qed.

(** ** Numbers: an integer below [2^53] as a [float64] *)

Lemma Pos_iter_xO_value (m p : positive) :
  Z.pos (Pos.iter xO m p) = Z.pos m * 2 ^ Z.pos p.
Proof.
  induction p as [| p IH] using Pos.peano_ind.
  - cbn [Pos.iter]. lia.
  - rewrite Pos.iter_succ, Pos2Z.inj_succ, Z.pow_succ_r by lia.
    rewrite Pos2Z.inj_xO, IH. lia.
Qed.

Lemma Pos_iter_xO_digits (m p : positive) :
  digits2_pos (Pos.iter xO m p) = (digits2_pos m + p)%positive.
Proof.
  induction p as [| p IH] using Pos.peano_ind.
  - cbn [Pos.iter digits2_pos]. lia.
  - rewrite Pos.iter_succ. cbn [digits2_pos]. rewrite IH. lia.
Qed.

(** Rounding a float that is already in the format returns it. *)
Lemma binary_round_aux_bounded (s : bool) (m : positive) (e : Z) :
  bounded 53 1024 m e = true ->
  binary_round_aux 53 1024 s (Z.pos m) e loc_Exact = S754_finite s m e.
Proof.
  intros H. unfold bounded in H. apply andb_true_iff in H.
  destruct H as [Hc He]. unfold canonical_mantissa in Hc.
  apply Z.eqb_eq in Hc.
  unfold binary_round_aux, shr_fexp. cbn [Zdigits2 shr_record_of_loc].
  rewrite Hc, Z.sub_diag. cbn [shr shr_m loc_of_shr_record round_nearest_even
                                 Zdigits2 shr_record_of_loc].
  rewrite Hc, Z.sub_diag. cbn [shr shr_m]. now rewrite He.
Qed.

(** An integer of at most 53 bits is a [float64]: its mantissa is the
    integer shifted up to 53 bits. *)
Lemma binary_round_small (s : bool) (m : positive) :
  Z.pos m < 2 ^ 53 ->
  exists (mz : positive) (ez : Z),
    binary_round 53 1024 s m 0 = S754_finite s mz ez
    /\ -52 <= ez <= 0 /\ Z.pos mz = Z.pos m * 2 ^ (- ez).
Proof.
  intros Hm. pose proof (digits2_pos_bounds m) as [Hlo Hhi].
  assert (Z.pos (digits2_pos m) <= 53) as HD.
  { destruct (Z.le_gt_cases (Z.pos (digits2_pos m)) 53) as [? | Hgt];
      [assumption |].
    assert (2 ^ 53 <= 2 ^ (Z.pos (digits2_pos m) - 1))
        by (apply Z.pow_le_mono_r; lia). lia. }
  unfold binary_round, shl_align, fexp, emin.
  rewrite Z.add_0_r. rewrite Z.max_l by lia. rewrite Z.sub_0_r.
  destruct (Z.pos (digits2_pos m) - 53) as [| p | p] eqn:E; [| lia |].
  - exists m, 0. split.
    + apply binary_round_aux_bounded.
      unfold bounded, canonical_mantissa, fexp, emin.
      rewrite Z.add_0_r, Z.max_l by lia.
      apply andb_true_iff. split; [apply Z.eqb_eq; lia | reflexivity].
    + split; [lia |]. simpl. lia.
  - exists (Pos.iter xO m p), (Z.neg p). split.
    + apply binary_round_aux_bounded.
      unfold bounded, canonical_mantissa, fexp, emin.
      rewrite Pos_iter_xO_digits, Pos2Z.inj_add.
      rewrite Z.max_l by lia.
      apply andb_true_iff. split; [apply Z.eqb_eq; lia | apply Z.leb_le; lia].
    + split; [lia |]. rewrite Pos_iter_xO_value. reflexivity.
Qed.

Lemma truncF_binary_round (s : bool) (m : positive) :
  Z.pos m < 2 ^ 53 ->
  truncF (binary_round 53 1024 s m 0)
  = Some (if s then - Z.pos m else Z.pos m).
Proof.
  intros Hm. destruct (binary_round_small s m Hm) as (mz & ez & -> & He & Hv).
  cbn [truncF]. rewrite Hv. clear Hv Hm.
  destruct (Z.leb_spec 0 ez).
  - assert (ez = 0) as -> by lia. change (2 ^ (- 0)) with 1.
    change (2 ^ 0) with 1. rewrite !Z.mul_1_r. reflexivity.
  - rewrite Z.div_mul by (apply Z.pow_nonzero; lia). reflexivity.
Qed.

(** The tokenizer's [float64] for the decimal text of [v] holds [v]
    exactly, as long as [v] has at most 53 bits. *)
Lemma truncF_numberValue_FormatInt (v : Z) :
  Z.abs v < 2 ^ 53 ->
  truncF (json.numberValue (FormatInt v)) = Some v
  /\ IsInf (json.numberValue (FormatInt v)) = false.
Proof.
  intros Hv. unfold json.numberValue. rewrite literalParts_FormatInt.
  unfold json.decimalToFloat.
  destruct (Z.abs v) as [| m | m] eqn:E; [| | lia].
  - split; [| reflexivity]. cbn [truncF]. f_equal. lia.
  - change (0 <=? 0) with true. cbv iota.
    change (10 ^ 0) with 1. rewrite Z.mul_1_r. cbn [Z.to_pos].
    split.
    + rewrite truncF_binary_round by assumption. f_equal.
      destruct (Z.ltb_spec v 0); lia.
    + destruct (binary_round_small (v <? 0) m Hv) as (mz & ez & -> & _).
      reflexivity.
Qed.

(* ===================================================================== *)
(** * Further properties of the Builder and the Reader *)
(* ===================================================================== *)

(** ** One value, built and read back *)

(** The first pull of a Reader on an input that starts with a scalar. *)
Lemma next_top_scalar (c : byte) (r rest : list byte) (t : json_Token) :
  scalarStart c = true ->
  json.decodeScalar (c :: r) = Some (t, rest) ->
  fst (next (NewReaderBytes (c :: r))) = t
  /\ err (snd (next (NewReaderBytes (c :: r)))) = None
  /\ json.buf (d (snd (next (NewReaderBytes (c :: r))))) = rest.
Proof.
  intros Hc HD.
  destruct (Token_top_scalar c r rest t Hc HD) as (d' & HT & Hb & _).
  unfold next, NewReaderBytes, Reader.NewReader. cbn [d dec_Token JSONDecoder].
  rewrite HT. cbn. auto.
Qed.

(** A value emitted first writes no separator. *)
Lemma first_chunk (ind : list byte) (st : builderState) :
  Buffer (startChunk (set_Indent zero ind) st) = []
  /\ Builder.Err (startChunk (set_Indent zero ind) st) = None.
Proof.
  unfold startChunk. cbn. destruct (0 <? Z.of_nat (length ind)); auto.
Qed.

Lemma Bytes_Str (ind s : list byte) :
  Bytes (Builder.Str (set_Indent zero ind) s) = jsonString s.
Proof.
  unfold Builder.Str, Bytes. rewrite WriteJsonString_Write.
  cbn [Buffer Write set_Buffer]. now rewrite (proj1 (first_chunk ind _)).
Qed.

Lemma jsonString_cons (s : list byte) :
  jsonString s = x22 :: escape s ++ [x22].
Proof. apply jsonString_escape. Qed.

(** X1.  Whatever bytes [s] holds, the literal [Builder.Str] writes for it
    is read back by [Reader.Str] without error as [s] with every byte that
    is not part of a valid UTF-8 encoding replaced by U+FFFD; so the
    strings of the single bytes [0xff] and [0xfe] read back the same. *)
Theorem Str_reads_back_coerced (ind s : list byte) :
  fst (Reader.Str (NewReaderBytes (Bytes (Builder.Str (set_Indent zero ind) s))))
  = coerceUTF8 s
  /\ err (snd (Reader.Str
                 (NewReaderBytes (Bytes (Builder.Str (set_Indent zero ind) s)))))
     = None
  /\ coerceUTF8 [xff] = [xef; xbf; xbd]
  /\ coerceUTF8 [xfe] = [xef; xbf; xbd].
Proof.
  rewrite Bytes_Str. rewrite jsonString_cons.
  pose proof (decodeScalar_jsonString s []) as HD.
  rewrite app_nil_r, jsonString_cons in HD.
  destruct (next_top_scalar x22 _ _ _ eq_refl HD) as (Ht & He & _).
  unfold Reader.Str.
  destruct (next (NewReaderBytes (x22 :: escape s ++ [x22]))) as [t c1].
  cbn [fst snd] in *. subst t. repeat split; assumption || reflexivity.
Qed.

(** X2.  A string that is valid UTF-8 makes the round trip unchanged:
    [Reader.Str] returns exactly the bytes given to [Builder.Str], with no
    error. *)
Theorem Str_round_trip (ind s : list byte) :
  Valid s = true ->
  fst (Reader.Str (NewReaderBytes (Bytes (Builder.Str (set_Indent zero ind) s))))
  = s
  /\ err (snd (Reader.Str
                 (NewReaderBytes (Bytes (Builder.Str (set_Indent zero ind) s)))))
     = None.
Proof.
  intros Hv.
  rewrite Bytes_Str. rewrite jsonString_cons.
  pose proof (decodeScalar_jsonString s []) as HD.
  rewrite app_nil_r, jsonString_cons in HD.
  destruct (next_top_scalar x22 _ _ _ eq_refl HD) as (Ht & He & _).
  unfold Reader.Str.
  destruct (next (NewReaderBytes (x22 :: escape s ++ [x22]))) as [t c1].
  cbn [fst snd] in *. subst t. split; [| assumption].
  now apply coerceUTF8_valid.
Qed.

Lemma Str_round_trip_witness :
  Valid [x22; "\"%byte; xe2; x80; xa8; "a"%byte; x01; xc3; xa5; x0a] = true
  /\ fst (Reader.Str
            (NewReaderBytes
               (Bytes (Builder.Str (set_Indent zero [])
                         [x22; "\"%byte; xe2; x80; xa8; "a"%byte; x01; xc3;
                          xa5; x0a]))))
     = [x22; "\"%byte; xe2; x80; xa8; "a"%byte; x01; xc3; xa5; x0a].
Proof.
  split; [reflexivity |].
  exact (proj1 (Str_round_trip []
                  [x22; "\"%byte; xe2; x80; xa8; "a"%byte; x01; xc3; xa5; x0a]
                  eq_refl)).
Defined.

Lemma Bytes_Blob (ind data : list byte) :
  Bytes (Builder.Blob (set_Indent zero ind) data)
  = x22 :: b64Encode data ++ [x22].
Proof.
  unfold Builder.Blob, Bytes.
  destruct (EncodedLen (Z.of_nat (length data)) <? 512);
    rewrite WriteJsonString_Write;
    cbn [Buffer Write set_Buffer set_scratch];
    rewrite (proj1 (first_chunk ind _));
    now rewrite (jsonString_plain _ (b64Encode_plain _ data (le_n _))).
Qed.

(** What a Reader pulls first from the literal of a string of plain
    bytes. *)
Lemma next_plain_literal (s : list byte) :
  Forall (fun b => plain b = true) s ->
  fst (next (NewReaderBytes (x22 :: s ++ [x22]))) = Tstring s
  /\ err (snd (next (NewReaderBytes (x22 :: s ++ [x22])))) = None.
Proof.
  intros Hs. pose proof (decodeScalar_jsonString s []) as HD.
  rewrite app_nil_r, (jsonString_plain s Hs), (plain_coerce s Hs) in HD.
  cbn [app] in HD.
  destruct (next_top_scalar x22 _ _ _ eq_refl HD) as (Ht & He & _). auto.
Qed.

(** X3.  Every byte sequence makes the round trip through [Builder.Blob]
    and [Reader.Blob] unchanged and without error: the Builder writes the
    unpadded base64 text between quotes, and the Reader decodes it (the
    empty sequence is written as the empty string and read back as
    empty). *)
Theorem Blob_round_trip (ind data : list byte) :
  Bytes (Builder.Blob (set_Indent zero ind) data)
  = x22 :: b64Encode data ++ [x22]
  /\ fst (Reader.Blob
            (NewReaderBytes (Bytes (Builder.Blob (set_Indent zero ind) data))))
     = data
  /\ err (snd (Reader.Blob
                 (NewReaderBytes
                    (Bytes (Builder.Blob (set_Indent zero ind) data)))))
     = None.
Proof.
  split; [apply Bytes_Blob |]. rewrite Bytes_Blob.
  destruct (next_plain_literal _ (b64Encode_plain _ data (le_n _)))
    as (Ht & He).
  unfold Reader.Blob, Reader.Str.
  destruct (next (NewReaderBytes (x22 :: b64Encode data ++ [x22]))) as [t c1].
  cbn [fst snd] in *. subst t.
  destruct (b64Encode data) as [| x l] eqn:E.
  - apply b64Encode_nil in E. subst data. split; [reflexivity | assumption].
  - rewrite <- E, DecodeString_b64Encode. split; [reflexivity | assumption].
Qed.

Lemma Bytes_Int_wide (ind : list byte) (v bitsize : Z) :
  32 < bitsize ->
  Bytes (Builder.Int (set_Indent zero ind) v bitsize)
  = x22 :: FormatInt v ++ [x22]
  /\ Bytes (Builder.Uint (set_Indent zero ind) v bitsize)
     = x22 :: FormatUint v ++ [x22].
Proof.
  intros Hb. unfold Builder.Int, Builder.Uint, Bytes.
  assert ((32 <? bitsize) = true) as -> by lia.
  rewrite !WriteJsonString_Write. cbn [Buffer Write set_Buffer].
  rewrite (proj1 (first_chunk ind _)).
  rewrite (jsonString_plain _ (FormatInt_plain v)).
  rewrite (jsonString_plain _ (FormatUint_plain v)). split; reflexivity.
Qed.

(** X4.  A signed integer of a width above 32 bits makes the round trip
    exactly, beyond the 53 bits a [float64] holds: [Builder.Int] writes
    the decimal text between quotes and [Reader.Int], at the same width,
    parses the string token; no error is set. *)
Theorem Int_wide_round_trip (ind : list byte) (v bitsize : Z) :
  32 < bitsize <= 64 ->
  - 2 ^ (bitsize - 1) <= v < 2 ^ (bitsize - 1) ->
  fst (Reader.Int
         (NewReaderBytes (Bytes (Builder.Int (set_Indent zero ind) v bitsize)))
         bitsize) = v
  /\ err (snd (Reader.Int
                 (NewReaderBytes
                    (Bytes (Builder.Int (set_Indent zero ind) v bitsize)))
                 bitsize)) = None.
Proof.
  intros Hb Hv.
  rewrite (proj1 (Bytes_Int_wide ind v bitsize ltac:(lia))).
  destruct (next_plain_literal _ (FormatInt_plain v)) as (Ht & He).
  unfold Reader.Int.
  destruct (next (NewReaderBytes (x22 :: FormatInt v ++ [x22]))) as [t c1].
  cbn [fst snd] in *. subst t.
  rewrite ParseInt_FormatInt by lia. split; [reflexivity | assumption].
Qed.

Lemma Int_wide_round_trip_witness :
  32 < 64 <= 64
  /\ - 2 ^ (64 - 1) <= 9007199254740993 < 2 ^ (64 - 1)
  /\ fst (Reader.Int
            (NewReaderBytes
               (Bytes (Builder.Int (set_Indent zero []) 9007199254740993 64)))
            64) = 9007199254740993.
Proof.
  split; [lia |]. split; [lia |].
  exact (proj1 (Int_wide_round_trip [] 9007199254740993 64
                  ltac:(lia) ltac:(lia))).
Defined.

(** X5.  An unsigned integer of a width above 32 bits makes the round
    trip exactly, up to [2^64 - 1]: [Builder.Uint] writes the decimal text
    between quotes and [Reader.Uint], at the same width, parses it; no
    error is set. *)
Theorem Uint_wide_round_trip (ind : list byte) (v bitsize : Z) :
  32 < bitsize <= 64 ->
  0 <= v < 2 ^ bitsize ->
  fst (Reader.Uint
         (NewReaderBytes (Bytes (Builder.Uint (set_Indent zero ind) v bitsize)))
         bitsize) = v
  /\ err (snd (Reader.Uint
                 (NewReaderBytes
                    (Bytes (Builder.Uint (set_Indent zero ind) v bitsize)))
                 bitsize)) = None.
Proof.
  intros Hb Hv.
  rewrite (proj2 (Bytes_Int_wide ind v bitsize ltac:(lia))).
  destruct (next_plain_literal _ (FormatUint_plain v)) as (Ht & He).
  unfold Reader.Uint.
  destruct (next (NewReaderBytes (x22 :: FormatUint v ++ [x22]))) as [t c1].
  cbn [fst snd] in *. subst t.
  rewrite ParseUint_FormatUint by lia. split; [reflexivity | assumption].
Qed.

Lemma Uint_wide_round_trip_witness :
  32 < 64 <= 64
  /\ 0 <= 18446744073709551615 < 2 ^ 64
  /\ fst (Reader.Uint
            (NewReaderBytes
               (Bytes (Builder.Uint (set_Indent zero [])
                         18446744073709551615 64)))
            64) = 18446744073709551615.
Proof.
  split; [lia |]. split; [lia |].
  exact (proj1 (Uint_wide_round_trip [] 18446744073709551615 64
                  ltac:(lia) ltac:(lia))).
Defined.

(** ** Numbers written bare *)

Lemma FormatInt_starts (v : Z) :
  exists c r, FormatInt v = c :: r
              /\ (c = "-"%byte \/ isDigit c = true).
Proof.
  unfold FormatInt. destruct (v <? 0).
  - exists "-"%byte, (FormatUint (- v)). auto.
  - destruct (FormatUint_head v) as (c & r & E & Hc). exists c, r. auto.
Qed.

Lemma number_head (c : byte) :
  c = "-"%byte \/ isDigit c = true ->
  scalarStart c = true
  /\ Byte.eqb c x22 = false /\ Byte.eqb c "t" = false
  /\ Byte.eqb c "f" = false /\ Byte.eqb c "n" = false.
Proof.
  intros [-> | H]; [vm_compute; auto |].
  destruct c; vm_compute in H |- *; try discriminate H; auto.
Qed.

Lemma decodeScalar_FormatInt (v : Z) :
  Z.abs v < 2 ^ 53 ->
  json.decodeScalar (FormatInt v)
  = Some (Tfloat64 (json.numberValue (FormatInt v)), []).
Proof.
  intros Hv. destruct (FormatInt_starts v) as (c & r & E & Hc).
  destruct (number_head c Hc) as (_ & H1 & H2 & H3 & H4).
  pose proof (scanNumber_FormatInt v [] eq_refl) as HS.
  rewrite app_nil_r in HS.
  destruct (truncF_numberValue_FormatInt v Hv) as [_ Hinf].
  unfold json.decodeScalar. rewrite E, H1, H2, H3, H4. rewrite <- E, HS.
  destruct (json.numberValue (FormatInt v)); try reflexivity.
  discriminate Hinf.
Qed.

Lemma next_FormatInt (v : Z) :
  Z.abs v < 2 ^ 53 ->
  fst (next (NewReaderBytes (FormatInt v)))
  = Tfloat64 (json.numberValue (FormatInt v))
  /\ err (snd (next (NewReaderBytes (FormatInt v)))) = None.
Proof.
  intros Hv. pose proof (decodeScalar_FormatInt v Hv) as HD.
  destruct (FormatInt_starts v) as (c & r & E & Hc).
  destruct (number_head c Hc) as (Hs & _).
  rewrite E in HD |- *.
  destruct (next_top_scalar c r [] _ Hs HD) as (Ht & He & _). auto.
Qed.

Lemma Bytes_Int_narrow (ind : list byte) (v bitsize : Z) :
  bitsize <= 32 ->
  Bytes (Builder.Int (set_Indent zero ind) v bitsize) = FormatInt v
  /\ Bytes (Builder.Uint (set_Indent zero ind) v bitsize) = FormatUint v.
Proof.
  intros Hb. unfold Builder.Int, Builder.Uint, Bytes.
  assert ((32 <? bitsize) = false) as -> by lia.
  cbn [Buffer Write set_Buffer].
  rewrite (proj1 (first_chunk ind _)). split; reflexivity.
Qed.

(** X6.  A signed integer of a width of 32 bits or less is written as a
    bare JSON number, which the tokenizer hands to the Reader as a
    [float64]: [Reader.Int] returns it unchanged, at whatever width the
    caller reads it, whenever its magnitude is below [2^53]; no error is
    set.  Beyond that the value is not kept: [2^53 + 1] written at width 0
    reads back as [2^53]. *)
Theorem Int_narrow_round_trip (ind : list byte) (v bitsize readsize : Z) :
  bitsize <= 32 ->
  Z.abs v < 2 ^ 53 ->
  (fst (Reader.Int
          (NewReaderBytes (Bytes (Builder.Int (set_Indent zero ind) v bitsize)))
          readsize) = v
   /\ err (snd (Reader.Int
                  (NewReaderBytes
                     (Bytes (Builder.Int (set_Indent zero ind) v bitsize)))
                  readsize)) = None)
  /\ fst (Reader.Int
            (NewReaderBytes (Bytes (Builder.Int zero (2 ^ 53 + 1) 0))) 0)
     = 2 ^ 53.
Proof.
  intros Hb Hv. split; [| vm_compute; reflexivity].
  rewrite (proj1 (Bytes_Int_narrow ind v bitsize Hb)).
  destruct (next_FormatInt v Hv) as (Ht & He).
  destruct (truncF_numberValue_FormatInt v Hv) as [Htr _].
  unfold Reader.Int.
  destruct (next (NewReaderBytes (FormatInt v))) as [t c1].
  cbn [fst snd] in *. subst t. split; [| assumption].
  unfold int64_of_float. rewrite Htr.
  assert (2 ^ 53 < 2 ^ 63) by (apply Z.pow_lt_mono_r; lia).
  assert (((- 2 ^ 63 <=? v) && (v <? 2 ^ 63)) = true) as ->
      by (apply andb_true_iff; lia).
  reflexivity.
Qed.

Lemma Int_narrow_round_trip_witness :
  32 <= 32
  /\ Z.abs (-2147483648) < 2 ^ 53
  /\ fst (Reader.Int
            (NewReaderBytes
               (Bytes (Builder.Int (set_Indent zero []) (-2147483648) 32)))
            8) = -2147483648.
Proof.
  split; [lia |]. split; [vm_compute; reflexivity |].
  exact (proj1 (proj1 (Int_narrow_round_trip [] (-2147483648) 32 8
                         ltac:(lia) ltac:(vm_compute; reflexivity)))).
Defined.

(** X7.  An unsigned integer of a width of 32 bits or less is written as
    a bare JSON number and read back unchanged by [Reader.Uint], at
    whatever width the caller reads it, whenever it is below [2^53]; no
    error is set. *)
Theorem Uint_narrow_round_trip (ind : list byte) (v bitsize readsize : Z) :
  bitsize <= 32 ->
  0 <= v < 2 ^ 53 ->
  fst (Reader.Uint
         (NewReaderBytes (Bytes (Builder.Uint (set_Indent zero ind) v bitsize)))
         readsize) = v
  /\ err (snd (Reader.Uint
                 (NewReaderBytes
                    (Bytes (Builder.Uint (set_Indent zero ind) v bitsize)))
                 readsize)) = None.
Proof.
  intros Hb Hv.
  rewrite (proj2 (Bytes_Int_narrow ind v bitsize Hb)).
  assert (FormatUint v = FormatInt v) as ->
      by (unfold FormatInt; assert ((v <? 0) = false) as -> by lia;
          reflexivity).
  assert (Z.abs v < 2 ^ 53) as Ha by lia.
  destruct (next_FormatInt v Ha) as (Ht & He).
  destruct (truncF_numberValue_FormatInt v Ha) as [Htr _].
  unfold Reader.Uint.
  destruct (next (NewReaderBytes (FormatInt v))) as [t c1].
  cbn [fst snd] in *. subst t. split; [| assumption].
  unfold uint64_of_float. rewrite Htr.
  assert (2 ^ 53 < 2 ^ 64) by (apply Z.pow_lt_mono_r; lia).
  assert (((0 <=? v) && (v <? 2 ^ 64)) = true) as ->
      by (apply andb_true_iff; lia).
  reflexivity.
Qed.

Lemma Uint_narrow_round_trip_witness :
  32 <= 32
  /\ 0 <= 4294967295 < 2 ^ 53
  /\ fst (Reader.Uint
            (NewReaderBytes
               (Bytes (Builder.Uint (set_Indent zero []) 4294967295 32)))
            32) = 4294967295.
Proof.
  split; [lia |]. split; [lia |].
  exact (proj1 (Uint_narrow_round_trip [] 4294967295 32 32
                  ltac:(lia) ltac:(lia))).
Defined.

(** ** A wide integer read at a narrower width *)

Lemma parseDigits_range maxVal s :
  maxVal <= 2 ^ 64 - 1 ->
  Forall (fun b => isDigit b = true) s ->
  forall n, 0 <= n <= maxVal -> maxVal < decimalFrom s n ->
  parseDigits maxVal s n = inr ErrRange.
Proof.
  intros Hmax Hs. induction Hs as [| c r Hc Hr IH]; intros n Hn Hv.
  - unfold decimalFrom in Hv. simpl in Hv. lia.
  - unfold decimalFrom in *. simpl in *.
    pose proof Hc as Hc'. unfold isDigit, inRange in Hc'.
    apply andb_true_iff in Hc'. destruct Hc' as [H1 H2].
    change (byteZ "0") with 48.
    replace ((0 <=? byteZ c - 48) && (byteZ c - 48 <=? 9)) with true
      by (symmetry; apply andb_true_iff; lia).
    change ((2 ^ 64 - 1) / 10 + 1) with 1844674407370955162 in *.
    destruct (Z.leb_spec 1844674407370955162 n); [reflexivity |].
    destruct (Z.ltb_spec maxVal (n * 10 + (byteZ c - 48))); [reflexivity |].
    apply IH; lia.
Qed.

Lemma parseUint_FormatUint_wide (v bitSize : Z) :
  0 < bitSize <= 64 -> 2 ^ bitSize <= v ->
  parseUint (FormatUint v) bitSize = (2 ^ bitSize - 1, Some ErrRange).
Proof.
  intros Hb Hv. unfold parseUint.
  destruct (formatBits_cons (Z.to_nat (Z.log2 v)) v []) as (c & r & Hcr).
  fold (FormatUint v) in Hcr.
  assert ((bitSize =? 0) = false) as -> by lia.
  assert (((bitSize <? 0) || (64 <? bitSize)) = false) as Hok
      by (apply orb_false_iff; lia).
  assert (0 < 2 ^ bitSize) by (apply Z.pow_pos_nonneg; lia).
  rewrite parseDigits_range.
  - rewrite Hcr, Hok. reflexivity.
  - assert (2 ^ bitSize <= 2 ^ 64) by (apply Z.pow_le_mono_r; lia). lia.
  - apply FormatUint_digits.
  - lia.
  - fold (decimalValue (FormatUint v)). rewrite FormatUint_value by lia. lia.
Qed.

Lemma ParseInt_FormatInt_saturates (v bitSize : Z) :
  1 < bitSize <= 64 ->
  ~ (- 2 ^ (bitSize - 1) <= v < 2 ^ (bitSize - 1)) ->
  ParseInt (FormatInt v) bitSize
  = (if v <? 0 then - 2 ^ (bitSize - 1) else 2 ^ (bitSize - 1) - 1,
     Some (NumError "ParseInt" (FormatInt v) ErrRange)).
Proof.
  intros Hb Hv.
  assert (2 ^ bitSize = 2 * 2 ^ (bitSize - 1)) as Hpow.
  { rewrite <- Z.pow_succ_r by lia. f_equal; lia. }
  assert (2 <= 2 ^ (bitSize - 1)) as Hc2.
  { change 2 with (2 ^ 1) at 1. apply Z.pow_le_mono_r; lia. }
  assert ((bitSize =? 0) = false) as Hz by lia.
  assert (forall u, 0 <= u ->
            exists un e, parseUint (FormatUint u) bitSize = (un, e)
              /\ (e = None \/ e = Some ErrRange)
              /\ (u < 2 ^ bitSize -> un = u)
              /\ (2 ^ bitSize <= u -> un = 2 ^ bitSize - 1)) as HU.
  { intros u Hu. destruct (Z.lt_ge_cases u (2 ^ bitSize)) as [Hlt | Hge].
    - pose proof (ParseUint_FormatUint u bitSize ltac:(lia) ltac:(lia)) as HP.
      unfold ParseUint in HP.
      destruct (parseUint (FormatUint u) bitSize) as [un e].
      destruct e; [discriminate |]. injection HP as ->.
      exists u, None. repeat split; auto. lia.
    - rewrite (parseUint_FormatUint_wide u bitSize ltac:(lia) Hge).
      eexists; eexists; repeat split; auto. lia. }
  unfold ParseInt at 1. unfold FormatInt at 1.
  destruct (Z.ltb_spec v 0) as [Hneg | Hpos].
  - change (Byte.eqb "-" "-") with true. rewrite orb_true_r.
    destruct (HU (- v) ltac:(lia)) as (un & e & -> & He & H1 & H2).
    rewrite Hz. cbn [negb andb].
    assert ((2 ^ (bitSize - 1) <? un) = true) as Hcut.
    { apply Z.ltb_lt.
      destruct (Z.lt_ge_cases (- v) (2 ^ bitSize)) as [Hlt | Hge];
        [rewrite (H1 Hlt) | rewrite (H2 Hge)]; lia. }
    destruct He as [-> | ->]; rewrite Hcut; reflexivity.
  - destruct (FormatUint_head v) as (c & r & Hcr & Hc). rewrite Hcr.
    assert ((Byte.eqb c "+" || Byte.eqb c "-") = false) as ->
        by (destruct c; vm_compute in Hc |- *; congruence).
    assert (Byte.eqb c "-" = false) as ->
        by (destruct c; vm_compute in Hc |- *; congruence).
    replace (FormatInt v) with (FormatUint v)
      by (unfold FormatInt; destruct (Z.ltb_spec v 0); [lia | reflexivity]).
    destruct (HU v Hpos) as (un & e & -> & He & H1 & H2).
    rewrite Hz. cbn [negb andb].
    assert ((2 ^ (bitSize - 1) <=? un) = true) as Hcut.
    { apply Z.leb_le.
      destruct (Z.lt_ge_cases v (2 ^ bitSize)) as [Hlt | Hge];
        [rewrite (H1 Hlt) | rewrite (H2 Hge)]; lia. }
    destruct He as [-> | ->]; rewrite Hcut; reflexivity.
Qed.

(** X8.  A signed integer written at a width above 32 bits and read at a
    width (of 2 to 64 bits) that does not hold it: [Reader.Int] returns
    the nearest bound of the width it was asked for, and holds the range
    error of [strconv.ParseInt] for the text read. *)
Theorem Int_wide_read_narrow_saturates
    (ind : list byte) (v bitsize readsize : Z) :
  32 < bitsize ->
  1 < readsize <= 64 ->
  ~ (- 2 ^ (readsize - 1) <= v < 2 ^ (readsize - 1)) ->
  fst (Reader.Int
         (NewReaderBytes (Bytes (Builder.Int (set_Indent zero ind) v bitsize)))
         readsize)
  = (if v <? 0 then - 2 ^ (readsize - 1) else 2 ^ (readsize - 1) - 1)
  /\ err (snd (Reader.Int
                 (NewReaderBytes
                    (Bytes (Builder.Int (set_Indent zero ind) v bitsize)))
                 readsize))
     = Some (NumError "ParseInt" (FormatInt v) ErrRange).
Proof.
  intros Hb Hr Hv.
  rewrite (proj1 (Bytes_Int_wide ind v bitsize Hb)).
  destruct (next_plain_literal _ (FormatInt_plain v)) as (Ht & He).
  unfold Reader.Int.
  destruct (next (NewReaderBytes (x22 :: FormatInt v ++ [x22]))) as [t c1].
  cbn [fst snd] in *. subst t.
  rewrite (ParseInt_FormatInt_saturates v readsize Hr Hv).
  split; [reflexivity |]. cbn [snd]. unfold Reader.setError. rewrite He.
  reflexivity.
Qed.

Lemma Int_wide_read_narrow_saturates_witness :
  32 < 64
  /\ 1 < 8 <= 64
  /\ ~ (- 2 ^ (8 - 1) <= 300 < 2 ^ (8 - 1))
  /\ fst (Reader.Int
            (NewReaderBytes (Bytes (Builder.Int (set_Indent zero []) 300 64)))
            8) = 127.
Proof.
  split; [lia |]. split; [lia |]. split; [lia |].
  exact (proj1 (Int_wide_read_narrow_saturates [] 300 64 8
                  ltac:(lia) ltac:(lia) ltac:(lia))).
Defined.

(** ** The Reader over any tokenizer *)

(** X9.  A typed pull that meets a token of another type (with no error
    held and none reported by the tokenizer) consumes that token, returns
    the zero value of its type and holds "expected K but got T at offset
    N": K names the kind asked for, T the type of the token found (or the
    delimiter itself) and N is the tokenizer's offset after the token.
    [Int] and [Uint] accept a number and a string, the others their own
    type only. *)
Theorem typed_pull_of_wrong_type {D : Type} {Dec : Decoder D}
    (c : Reader D) (t : json_Token) (d' : D) (bitsize : Z) :
  err c = None ->
  dec_Token (d c) = (t, None, d') ->
  let found (expected : string) : Reader D :=
    set_err (set_tok (set_d c d') t)
      (Some (errorString
               ("expected " ++ expected ++ " but got "
                ++ match t with
                   | TDelim x => text (EncodeRune x)
                   | _ => typeName t
                   end
                ++ " at offset " ++ text (FormatInt (dec_InputOffset d'))))) in
  match t with
  | Tstring _ => True
  | _ => Reader.Str c = ([], found "string"%string)
         /\ Reader.Blob c = ([], found "string"%string)
  end
  /\ match t with
     | Tbool _ => True
     | _ => Reader.Bool c = (false, found "boolean"%string)
     end
  /\ match t with
     | Tfloat64 _ => True
     | _ => Reader.Float c bitsize = (S754_zero false, found "number"%string)
     end
  /\ match t with
     | Tfloat64 _ | Tstring _ => True
     | _ => Reader.Int c bitsize = (0, found "number"%string)
            /\ Reader.Uint c bitsize = (0, found "number"%string)
     end.
Proof.
  intros He HT.
  unfold Reader.Blob, Reader.Str, Reader.Bool, Reader.Float, Reader.Int,
    Reader.Uint, next, setErrorExpected, Reader.setError, errExpected,
    Sprint_Delim.
  rewrite HT. destruct t; cbn; rewrite ?He; repeat split; reflexivity.
Qed.

Lemma typed_pull_of_wrong_type_witness :
  err (readStream [Tbool true]) = None
  /\ Reader.Str (readStream [Tbool true])
     = ([], Reader.mk (mkStream [] 1)
              (Some (errorString "expected string but got bool at offset 1"))
              (Tbool true) [] 0).
Proof.
  split; [reflexivity |].
  exact (proj1 (proj1 (typed_pull_of_wrong_type
                         (readStream [Tbool true]) (Tbool true)
                         (mkStream [] 1) 0 eq_refl eq_refl))).
Defined.

(** X10.  [Reader.Int] on a string token that does not start like a
    number (an empty string, or a first byte that is neither a digit nor a
    sign), read at a width of 0 to 64 bits: the syntax error of
    [strconv.ParseInt] is replaced by the Reader's own "expected number
    but got string at offset N", and 0 is returned. *)
Theorem Int_of_non_numeric_string {D : Type} {Dec : Decoder D}
    (c : Reader D) (s : list byte) (d' : D) (bitsize : Z) :
  err c = None ->
  dec_Token (d c) = (Tstring s, None, d') ->
  0 <= bitsize <= 64 ->
  match s with
  | [] => True
  | x :: _ => isDigit x = false /\ x <> "+"%byte /\ x <> "-"%byte
  end ->
  Reader.Int c bitsize
  = (0, set_err (set_tok (set_d c d') (Tstring s))
          (Some (errorString
                   ("expected number but got string at offset "
                    ++ text (FormatInt (dec_InputOffset d')))))).
Proof.
  intros He HT Hb Hs.
  assert (ParseInt s bitsize = (0, Some (NumError "ParseInt" s ErrSyntax)))
    as HP.
  { destruct s as [| x r]; [reflexivity |]. destruct Hs as (Hd & Hp & Hm).
    unfold ParseInt.
    assert (Byte.eqb x "-" = false) as ->
        by (destruct (Byte.eqb x "-") eqn:E; [| reflexivity];
            apply Byte.byte_dec_bl in E; contradiction).
    assert (Byte.eqb x "+" = false) as ->
        by (destruct (Byte.eqb x "+") eqn:E; [| reflexivity];
            apply Byte.byte_dec_bl in E; contradiction).
    cbn [orb]. unfold parseUint.
    assert (((if bitsize =? 0 then intSize else bitsize) <? 0)
            || (64 <? (if bitsize =? 0 then intSize else bitsize)) = false)
      as -> by (unfold intSize; destruct (Z.eqb_spec bitsize 0);
                apply orb_false_iff; lia).
    cbn [parseDigits]. change (byteZ "0") with 48.
    unfold isDigit, inRange in Hd.
    assert ((0 <=? byteZ x - 48) && (byteZ x - 48 <=? 9) = false) as ->.
    { apply andb_false_iff in Hd. apply andb_false_iff. lia. }
    reflexivity. }
  unfold Reader.Int, next, Reader.setError, errExpected.
  rewrite HT, HP. cbn. rewrite He. reflexivity.
Qed.

Lemma Int_of_non_numeric_string_witness :
  Reader.Int (readStream [Tstring (B "abc")]) 64
  = (0, Reader.mk (mkStream [] 1)
          (Some (errorString "expected number but got string at offset 1"))
          (Tstring (B "abc")) [] 0).
Proof.
  refine (eq_trans
            (Int_of_non_numeric_string (readStream [Tstring (B "abc")])
               (B "abc") (mkStream [] 1) 64 _ _ _ _) _).
  - reflexivity.
  - reflexivity.
  - lia.
  - vm_compute. repeat split; discriminate.
  - vm_compute. reflexivity.
Defined.

(** X11.  An error the Reader holds survives every sequence of calls,
    [Reset] included: whatever the calls pull afterwards, a run that does
    not panic ends with the same error held. *)
Theorem Reader_error_is_sticky {D : Type} {Dec : Decoder D}
    (ks : list (Reader.call (D := D))) :
  forall (c c' : Reader D) (first : error),
    err c = Some first ->
    Reader.run c ks = Some c' ->
    Reader.Err c' = Some first.
Proof.
  induction ks as [| k ks IH]; intros c c' first He Hr.
  - cbn in Hr. injection Hr as <-. exact He.
  - cbn [Reader.run] in Hr.
    pose proof (Reader_keeps_first_error c k first He) as Hk.
    destruct (Reader.step c k) as [c1 |]; [| discriminate Hr].
    exact (IH c1 c' first Hk Hr).
Qed.

Lemma Reader_error_is_sticky_witness :
  Reader.Err
    (snd (Reader.Str
            (Reader.Reset (snd (Reader.Bool (readStream [Tnil])))
               (mkStream [Tstring (B "a")] 0))))
  = Some (errorString "expected boolean but got <nil> at offset 1").
Proof.
  apply (Reader_error_is_sticky
           [Reader.CReset (mkStream [Tstring (B "a")] 0); Reader.CStr]
           (snd (Reader.Bool (readStream [Tnil])))).
  - reflexivity.
  - reflexivity.
Defined.

(** X12.  [Discard] skips one token, not one value.  A scalar is consumed
    and nothing else changes.  At the start of an array or an object only
    the opening delimiter is consumed -- the elements stay in the input
    and the delimiter is not pushed on the Reader's stack -- and the error
    "UNIMPLEMENTED json.Reader.Discard object" with the quoted delimiter
    is held. *)
Theorem Discard_skips_one_token {D : Type} {Dec : Decoder D}
    (c : Reader D) (t : json_Token) (d' : D) :
  err c = None ->
  dec_Token (d c) = (t, None, d') ->
  Reader.Discard c
  = match t with
    | TDelim x =>
        set_err (set_tok (set_d c d') t)
          (Some (errorString
                   ("UNIMPLEMENTED json.Reader.Discard object ("
                    ++ text ([x22] ++ EncodeRune x ++ [x22]) ++ ")")))
    | _ => set_tok (set_d c d') t
    end.
Proof.
  intros He HT. unfold Reader.Discard, next, Reader.setError. rewrite HT.
  destruct t; cbn; rewrite ?He; reflexivity.
Qed.

Lemma Discard_skips_one_token_witness :
  toks (d (Reader.Discard
             (readStream [TDelim 91; Tbool true; TDelim 93])))
  = [Tbool true; TDelim 93]
  /\ delimstack (Reader.Discard
                   (readStream [TDelim 91; Tbool true; TDelim 93])) = [].
Proof.
  rewrite (Discard_skips_one_token (Dec := StreamDecoder)
             (readStream [TDelim 91; Tbool true; TDelim 93]) (TDelim 91)
             (mkStream [Tbool true; TDelim 93] 1) ltac:(reflexivity) ltac:(reflexivity)).
  split; reflexivity.
Defined.

(** X13.  Opening and closing are inverse on the Reader's bookkeeping.
    [ObjectStart] or [ArrayStart] at the matching delimiter pushes the
    current delimiter and makes the new one current; the [More] that
    later meets a closing delimiter pops it, so the current delimiter and
    the stack are again what they were before the opening, whatever was
    read in between. *)
Theorem open_then_close_restores {D : Type} {Dec : Decoder D}
    (c c2 : Reader D) (dl x : Z) (d1 d3 : D) :
  dec_Token (d c) = (TDelim dl, None, d1) ->
  delimstack c2 = delimstack (snd (pushDelim c dl)) ->
  dec_More (d c2) = false ->
  dec_Token (d c2) = (TDelim x, None, d3) ->
  fst (pushDelim c dl) = true
  /\ delim (snd (pushDelim c dl)) = dl
  /\ delimstack (snd (pushDelim c dl)) = delimstack c ++ [delim c]
  /\ exists c3,
       Reader.More c2 = Some (false, c3)
       /\ delim c3 = delim c /\ delimstack c3 = delimstack c
       /\ d c3 = d3 /\ err c3 = err c2.
Proof.
  intros HT Hst HM HT2.
  assert (pushDelim c dl
          = (true, set_delim
                     (set_delimstack (set_tok (set_d c d1) (TDelim dl))
                        (delimstack c ++ [delim c])) dl)) as HP.
  { unfold pushDelim, next. rewrite HT. cbn. rewrite Z.eqb_refl.
    reflexivity. }
  rewrite HP in *. cbn [fst snd delim delimstack set_delim set_delimstack]
    in *.
  repeat split.
  unfold Reader.More, popDelim, next. rewrite HM, HT2.
  cbn [delimstack set_tok set_d]. rewrite Hst.
  destruct (delimstack c ++ [delim c]) as [| y l] eqn:E;
    [destruct (delimstack c); discriminate E |].
  rewrite <- E. eexists. split; [reflexivity |].
  cbn. rewrite last_last, removelast_last. repeat split.
Qed.

Lemma open_then_close_restores_witness :
  exists c3,
    Reader.More (snd (ArrayStart (readStream [TDelim 91; TDelim 93])))
    = Some (false, c3)
    /\ delim c3 = 0 /\ delimstack c3 = [].
Proof.
  destruct (open_then_close_restores (Dec := StreamDecoder)
              (readStream [TDelim 91; TDelim 93])
              (snd (ArrayStart (readStream [TDelim 91; TDelim 93])))
              91 93 (mkStream [TDelim 93] 1) (mkStream [] 2)
              ltac:(reflexivity) ltac:(reflexivity) ltac:(reflexivity)
              ltac:(reflexivity))
    as (_ & _ & _ & c3 & H1 & H2 & H3 & _).
  exists c3. auto.
Defined.

(** X14.  [More] panics when it meets a delimiter with nothing on the
    Reader's stack: with no further element pending it pulls the next
    token, and for a delimiter it indexes the last entry of an empty
    [delimstack].  This is where a Reader ends up after a typed pull or
    [Discard] has consumed an opening delimiter, as in [Str] then [More]
    on the input [[]]. *)
Theorem More_panics_on_empty_stack {D : Type} {Dec : Decoder D}
    (c : Reader D) (x : Z) (e : option error) (d' : D) :
  dec_More (d c) = false ->
  dec_Token (d c) = (TDelim x, e, d') ->
  delimstack c = [] ->
  Reader.More c = None
  /\ Reader.More (snd (Reader.Str (NewReaderBytes (B "[]")))) = None
  /\ Reader.More (Reader.Discard (NewReaderBytes (B "[]"))) = None.
Proof.
  intros HM HT Hs. split; [| split; vm_compute; reflexivity].
  unfold Reader.More, popDelim, next. rewrite HM, HT.
  destruct e; cbn; unfold Reader.setError; cbn;
    try destruct (err c); cbn; rewrite Hs; reflexivity.
Qed.

Lemma More_panics_on_empty_stack_witness :
  Reader.More (snd (Reader.Str (readStream [TDelim 91; TDelim 93]))) = None.
Proof.
  refine (proj1 (More_panics_on_empty_stack (Dec := StreamDecoder)
                   (snd (Reader.Str (readStream [TDelim 91; TDelim 93])))
                   93 None (mkStream [] 2) _ _ _)); reflexivity.
Defined.

(** X15.  [More] at the end of the input, outside every array and
    object: the Reader reports that nothing follows and holds the
    tokenizer's end-of-input error.  Trailing white space makes no
    difference. *)
Theorem More_at_end_of_input (ws : list byte) :
  Forall (fun b => json.isSpace b = true) ws ->
  exists c',
    Reader.More (NewReaderBytes ws) = Some (false, c')
    /\ Reader.Err c' = Some (TokenizerError "EOF")
    /\ delimstack c' = [].
Proof.
  intros Hws.
  assert (json.skipSpace ws = []) as Hsk.
  { induction Hws as [| b r Hb _ IH]; [reflexivity |].
    cbn [json.skipSpace]. now rewrite Hb. }
  unfold Reader.More, popDelim, next, NewReaderBytes, Reader.NewReader.
  cbn [d dec_More dec_Token JSONDecoder].
  unfold json.More, json.Token, json.peek, json.NewDecoder.
  cbn [json.buf]. rewrite Hsk. cbn. eexists. repeat split.
Qed.

Lemma More_at_end_of_input_witness :
  exists c',
    Reader.More (NewReaderBytes [x0a]) = Some (false, c')
    /\ Reader.Err c' = Some (TokenizerError "EOF")
    /\ delimstack c' = [].
Proof.
  apply (More_at_end_of_input [x0a]).
  repeat constructor.
Defined.

(** ** The Builder over sequences of calls *)

Lemma startChunk_exact (b : list byte) (er : option error) (ind : list byte)
    (kt : option (list byte)) (st : builderState) (sc : list byte) (nd : Z)
    (nx : builderState) :
  startChunk (Builder.mk b er ind kt st sc nd) nx
  = Builder.mk (b ++ separator ind st nd) er ind (chosenKeyTerm ind st kt)
      nx sc nd.
Proof.
  unfold startChunk, newLine, writeNewLine, separator, chosenKeyTerm,
    lineBreak; cbn.
  destruct st; cbn.
  - destruct kt; [| destruct (0 <? Z.of_nat (length ind))]; setters;
      now rewrite app_nil_r.
  - destruct (0 <? Z.of_nat (length ind)); setters;
      [rewrite <- app_assoc | rewrite app_nil_r]; reflexivity.
  - setters. now rewrite app_nil_r.
  - destruct ((0 <? nd) && (0 <? Z.of_nat (length ind))); setters;
      rewrite <- ?app_assoc; reflexivity.
Qed.

Ltac calls :=
  unfold Builder.Reset, Builder.Key, KeyBytes, RawKey, Start, Raw, Null,
    Builder.Bool, Builder.Blob, Builder.Str, Builder.Int, Builder.Uint,
    Builder.Float, Raw, writeKeyTerm, Builder.setError;
  rewrite ?WriteJsonString_Write, ?startChunk_exact; setters.

(** X16.  Where the Builder's error comes from.  [Reset] clears it.
    [End] right after a key sets "key without value", over whatever was
    held.  [Float] with a NaN or an infinity sets its error unless one is
    held.  Every other call leaves [Err] as it is: in particular [End]
    sets no error when nothing is open or when its kind does not match
    the [Start] it closes, and no call checks its argument. *)
Theorem Builder_error_sources {SC : Strconv}
    (e : Builder.Builder) (c : Builder.call) :
  Builder.Err (Builder.step e c)
  = match c with
    | Builder.CReset => None
    | Builder.CEnd _ =>
        if builderState_eqb (Builder.state e) builderKey
        then Some (errorString "key without value")
        else Builder.Err e
    | Builder.CFloat f bits =>
        match Builder.Err e with
        | Some first => Some first
        | None =>
            if IsInf f || IsNaN f
            then Some (errorString
                         ("unsupported float64 value "
                          ++ text (FormatFloat f "g" (-1) bits)))
            else None
        end
    | _ => Builder.Err e
    end.
Proof.
  destruct e as [b er ind kt st sc nd].
  destruct c; cbn [Builder.step]; calls; try reflexivity.
  - unfold End, writeNewLine; setters.
    destruct st; cbn;
      try (destruct (0 <? Z.of_nat (length ind)); cbn); reflexivity.
  - destruct v; calls; reflexivity.
  - destruct (EncodedLen (Z.of_nat (length data)) <? 512);
      calls; reflexivity.
  - destruct (32 <? bitsize); calls; reflexivity.
  - destruct (32 <? bitsize); calls; reflexivity.
  - destruct (IsInf f || IsNaN f), er; reflexivity.
Qed.

Lemma step_appends {SC : Strconv} (e : Builder.Builder) (c : Builder.call) :
  isReset c = false ->
  exists out, Buffer (Builder.step e c) = Buffer e ++ out.
Proof.
  intros Hc. destruct e as [b er ind kt st sc nd].
  destruct c; [discriminate Hc | ..]; cbn [Builder.step]; calls;
    rewrite <- ?app_assoc; try (eexists; reflexivity).
  - unfold End, writeNewLine; setters.
    destruct st; cbn;
      try (destruct (0 <? Z.of_nat (length ind)); cbn); setters;
      rewrite <- ?app_assoc; eexists; reflexivity.
  - destruct v; calls; rewrite <- ?app_assoc; eexists; reflexivity.
  - destruct (EncodedLen (Z.of_nat (length data)) <? 512);
      calls; rewrite <- ?app_assoc; eexists; reflexivity.
  - destruct (32 <? bitsize); calls; rewrite <- ?app_assoc;
      eexists; reflexivity.
  - destruct (32 <? bitsize); calls; rewrite <- ?app_assoc;
      eexists; reflexivity.
  - destruct (IsInf f || IsNaN f), er; setters; rewrite <- ?app_assoc;
      eexists; reflexivity.
Qed.

(** X17.  The output is append-only: a sequence of calls without [Reset]
    only adds bytes after those already written; nothing written is ever
    changed or taken back, whatever error arises. *)
Theorem Builder_output_is_append_only {SC : Strconv}
    (cs : list Builder.call) :
  forallb (fun c => negb (isReset c)) cs = true ->
  forall e : Builder.Builder,
    exists out, Bytes (Builder.run e cs) = Bytes e ++ out.
Proof.
  unfold Bytes. induction cs as [| c cs IH]; intros Hcs e.
  - exists []. cbn. now rewrite app_nil_r.
  - cbn [forallb] in Hcs. apply andb_true_iff in Hcs.
    destruct Hcs as [Hc Hcs]. apply negb_true_iff in Hc.
    destruct (step_appends e c Hc) as (o1 & H1).
    destruct (IH Hcs (Builder.step e c)) as (o2 & H2).
    exists (o1 ++ o2). unfold Builder.run in *. cbn [fold_left].
    rewrite H2, H1. now rewrite app_assoc.
Qed.

Lemma Builder_output_is_append_only_witness :
  exists out,
    Bytes (Builder.run (SC := sampleStrconv)
             (Builder.StartArray zero)
             [Builder.CInt 1 32; Builder.CEnd "}"; Builder.CEnd "]"])
    = B "[" ++ out.
Proof.
  apply (Builder_output_is_append_only (SC := sampleStrconv)
           [Builder.CInt 1 32; Builder.CEnd "}"; Builder.CEnd "]"]
           eq_refl (Builder.StartArray zero)).
Defined.

Lemma step_configuration {SC : Strconv}
    (e : Builder.Builder) (c : Builder.call) :
  Indent (Builder.step e c) = Indent e
  /\ KeyTerm (Builder.step e c)
     = match c with
       | Builder.CReset | Builder.CEnd _ => KeyTerm e
       | _ => chosenKeyTerm (Indent e) (Builder.state e) (KeyTerm e)
       end.
Proof.
  destruct e as [b er ind kt st sc nd].
  destruct c; cbn [Builder.step]; calls; try (split; reflexivity).
  - unfold End, writeNewLine; setters.
    destruct st; cbn;
      try (destruct (0 <? Z.of_nat (length ind)); cbn); split; reflexivity.
  - destruct v; calls; split; reflexivity.
  - destruct (EncodedLen (Z.of_nat (length data)) <? 512);
      calls; split; reflexivity.
  - destruct (32 <? bitsize); calls; split; reflexivity.
  - destruct (32 <? bitsize); calls; split; reflexivity.
  - destruct (IsInf f || IsNaN f), er; split; reflexivity.
Qed.

(** X18.  The Builder's configuration.  No call changes [Indent].  A key
    terminator that is set is never changed, not even by [Reset]; while
    none is set, the first call that starts a chunk on a new or reset
    Builder chooses it by the [Indent] of that moment: a colon and a
    space when [Indent] is not empty, a colon otherwise.  So a Builder
    that is reset and given another [Indent] keeps the terminator of its
    first use. *)
Theorem Builder_configuration_is_kept {SC : Strconv}
    (cs : list Builder.call) (e : Builder.Builder) (t ind : list byte)
    (c : Builder.call) :
  Indent (Builder.run e cs) = Indent e
  /\ KeyTerm (Builder.run (set_KeyTerm e (Some t)) cs) = Some t
  /\ KeyTerm (Builder.run
                (set_Indent (Builder.Reset
                               (Builder.run (set_KeyTerm e (Some t)) cs)) ind)
                cs) = Some t
  /\ match c with
     | Builder.CReset | Builder.CEnd _ => True
     | _ =>
         KeyTerm (Builder.step (set_Indent zero ind) c)
         = Some (if 0 <? Z.of_nat (length ind)
                 then [":"%byte; " "%byte] else [":"%byte])
     end.
Proof.
  assert (forall l e0, Indent (Builder.run e0 l) = Indent e0) as HI.
  { induction l as [| x l IH]; intros e0; [reflexivity |].
    unfold Builder.run in *. cbn [fold_left].
    rewrite IH. apply step_configuration. }
  assert (forall l e0, KeyTerm e0 = Some t ->
                       KeyTerm (Builder.run e0 l) = Some t) as HK.
  { induction l as [| x l IH]; intros e0 H0; [assumption |].
    unfold Builder.run in *. cbn [fold_left]. apply IH.
    rewrite (proj2 (step_configuration e0 x)), H0.
    destruct x; try reflexivity; unfold chosenKeyTerm;
      destruct (Builder.state e0); reflexivity. }
  split; [apply HI |]. split; [apply HK; reflexivity |].
  split; [apply HK; cbn; apply HK; reflexivity |].
  destruct c; trivial;
    rewrite (proj2 (step_configuration (set_Indent zero ind) _));
    reflexivity.
Qed.

(** X19.  [InObject] and [End].  When [InObject] answers true, [End]
    sets no error and leaves a depth that is not negative.  The answer
    does not tell an object from an array: it is true right after any
    [Start], of whatever kind, and false right after a key. *)
Theorem InObject_allows_End (e : Builder.Builder) (kind : byte)
    (k : list byte) :
  0 <= nestdepth e < 2 ^ 63 - 1 ->
  (InObject e = true ->
   Builder.Err (End e kind) = Builder.Err e
   /\ nestdepth (End e kind) = nestdepth e - 1
   /\ 0 <= nestdepth (End e kind))
  /\ InObject (Start e kind) = true
  /\ InObject (Builder.Key e k) = false.
Proof.
  intros Hd. destruct e as [b er ind kt st sc nd]. cbn in Hd.
  assert (forall z, - 2 ^ 63 <= z < 2 ^ 63 -> wrap_int z = z) as Hw.
  { intros z Hz. unfold wrap_int, intSize.
    change (2 ^ (64 - 1)) with (2 ^ 63). change (2 ^ 64) with (2 * 2 ^ 63).
    rewrite Z.mod_small; lia. }
  split; [| split].
  - unfold InObject. cbn. intros H. apply andb_true_iff in H.
    destruct H as [H1 H2]. apply Z.ltb_lt in H1.
    unfold End, writeNewLine; setters.
    rewrite (Hw (nd - 1)) by lia.
    destruct st; try discriminate H2; cbn;
      try (destruct (0 <? Z.of_nat (length ind)); cbn);
      repeat split; lia.
  - unfold InObject, Start. rewrite startChunk_exact. setters.
    rewrite (Hw (nd + 1)) by lia. apply andb_true_iff. split; [lia |].
    reflexivity.
  - unfold InObject. rewrite Key_state. apply andb_false_r.
Qed.

Lemma InObject_allows_End_witness :
  0 <= nestdepth (StartArray zero) < 2 ^ 63 - 1
  /\ InObject (StartArray zero) = true
  /\ Builder.Err (End (StartArray zero) "}") = None.
Proof.
  split; [vm_compute; split; [discriminate | reflexivity] |].
  split; [reflexivity |].
  exact (proj1 (proj1 (InObject_allows_End (StartArray zero) "}" []
                         ltac:(vm_compute; split;
                               [discriminate | reflexivity]))
                  eq_refl)).
Defined.

(** X20.  The typed calls are [Raw] and [RawKey] of their text.  [Str]
    and [StrBytes] are [Raw] of the quoted and escaped string; [Key] is
    [RawKey] of the quoted and escaped key; [Null] and [Bool] are [Raw]
    of their literal; [Int] and [Uint] are [Raw] of the decimal text,
    quoted above 32 bits; [Blob] is, but for the scratch array it fills,
    [Raw] of the base64 text between quotes, which needs no escape. *)
Theorem typed_calls_are_Raw (e : Builder.Builder) (s data : list byte)
    (v bitsize : Z) (sc : list byte) :
  Builder.Str e s = Raw e (jsonString s)
  /\ StrBytes e s = Raw e (jsonString s)
  /\ Builder.Key e s = RawKey e (jsonString s)
  /\ Builder.Int e v bitsize
     = Raw e (if 32 <? bitsize then x22 :: FormatInt v ++ [x22]
              else FormatInt v)
  /\ Builder.Uint e v bitsize
     = Raw e (if 32 <? bitsize then x22 :: FormatUint v ++ [x22]
              else FormatUint v)
  /\ set_scratch (Builder.Blob e data) sc
     = set_scratch (Raw e (x22 :: b64Encode data ++ [x22])) sc.
Proof.
  pose proof (jsonString_plain _ (FormatInt_plain v)) as HI.
  pose proof (jsonString_plain _ (FormatUint_plain v)) as HU.
  pose proof (jsonString_plain _ (b64Encode_plain _ data (le_n _))) as HB.
  unfold Builder.Str, StrBytes, Builder.Key, KeyBytes, RawKey, Raw,
    Builder.Int, Builder.Uint, Builder.Blob.
  rewrite !WriteJsonString_Write.
  repeat split.
  - destruct (32 <? bitsize); rewrite ?WriteJsonString_Write, ?HI;
      reflexivity.
  - destruct (32 <? bitsize); rewrite ?WriteJsonString_Write, ?HU;
      reflexivity.
  - destruct (EncodedLen (Z.of_nat (length data)) <? 512);
      rewrite ?WriteJsonString_Write, HB; reflexivity.
Qed.

Lemma step_ignores_scratch {SC : Strconv}
    (b : list byte) (er : option error) (ind : list byte)
    (kt : option (list byte)) (st : builderState) (sc1 sc2 : list byte)
    (nd : Z) (c : Builder.call) :
  set_scratch (Builder.step (Builder.mk b er ind kt st sc1 nd) c) []
  = set_scratch (Builder.step (Builder.mk b er ind kt st sc2 nd) c) [].
Proof.
  destruct c; cbn [Builder.step]; calls; try reflexivity.
  - unfold End, writeNewLine; setters.
    destruct st; cbn;
      try (destruct (0 <? Z.of_nat (length ind)); cbn); reflexivity.
  - destruct v; calls; reflexivity.
  - destruct (EncodedLen (Z.of_nat (length data)) <? 512);
      calls; reflexivity.
  - destruct (32 <? bitsize); calls; reflexivity.
  - destruct (32 <? bitsize); calls; reflexivity.
  - destruct (IsInf f || IsNaN f), er; reflexivity.
Qed.

Lemma run_ignores_scratch {SC : Strconv} (cs : list Builder.call) :
  forall e1 e2 : Builder.Builder,
    set_scratch e1 [] = set_scratch e2 [] ->
    set_scratch (Builder.run e1 cs) [] = set_scratch (Builder.run e2 cs) [].
Proof.
  induction cs as [| c cs IH]; intros e1 e2 H; [exact H |].
  unfold Builder.run in *. cbn [fold_left]. apply IH.
  destruct e1 as [b1 er1 ind1 kt1 st1 sc1 nd1],
           e2 as [b2 er2 ind2 kt2 st2 sc2 nd2].
  unfold set_scratch in H. cbn in H.
  injection H as -> -> -> -> -> ->.
  apply step_ignores_scratch.
Qed.

(** X21.  A Builder that is reset behaves as a new one with the same
    [Indent] and [KeyTerm]: whatever was written, held as error or left
    open before [Reset], the calls that follow write the same output,
    hold the same error and reach the same state and depth as they do on
    a new Builder so configured. *)
Theorem Reset_gives_a_new_Builder {SC : Strconv}
    (e : Builder.Builder) (cs : list Builder.call) :
  Bytes (Builder.run (Builder.Reset e) cs)
  = Bytes (Builder.run (set_KeyTerm (set_Indent zero (Indent e)) (KeyTerm e))
             cs)
  /\ Builder.Err (Builder.run (Builder.Reset e) cs)
     = Builder.Err
         (Builder.run (set_KeyTerm (set_Indent zero (Indent e)) (KeyTerm e))
            cs)
  /\ structure (Builder.run (Builder.Reset e) cs)
     = structure
         (Builder.run (set_KeyTerm (set_Indent zero (Indent e)) (KeyTerm e))
            cs).
Proof.
  pose proof (run_ignores_scratch cs (Builder.Reset e)
                (set_KeyTerm (set_Indent zero (Indent e)) (KeyTerm e))
                eq_refl) as H.
  unfold Bytes, structure.
  replace (Buffer (Builder.run (Builder.Reset e) cs))
    with (Buffer (set_scratch (Builder.run (Builder.Reset e) cs) []))
    by reflexivity.
  replace (Builder.Err (Builder.run (Builder.Reset e) cs))
    with (Builder.Err (set_scratch (Builder.run (Builder.Reset e) cs) []))
    by reflexivity.
  replace (Builder.state (Builder.run (Builder.Reset e) cs))
    with (Builder.state (set_scratch (Builder.run (Builder.Reset e) cs) []))
    by reflexivity.
  replace (nestdepth (Builder.run (Builder.Reset e) cs))
    with (nestdepth (set_scratch (Builder.run (Builder.Reset e) cs) []))
    by reflexivity.
  replace (Indent (Builder.run (Builder.Reset e) cs))
    with (Indent (set_scratch (Builder.run (Builder.Reset e) cs) []))
    by reflexivity.
  replace (KeyTerm (Builder.run (Builder.Reset e) cs))
    with (KeyTerm (set_scratch (Builder.run (Builder.Reset e) cs) []))
    by reflexivity.
  rewrite H. repeat split.
Qed.
(** ** Documents: the Builder's text and the Reader's pulls *)

Lemma value_nested_ind (P : value -> Prop) :
  (forall b, P (VBool b)) -> (forall s, P (VStr s)) ->
  (forall data, P (VBlob data)) ->
  (forall x bitsize, P (VInt x bitsize)) ->
  (forall x bitsize, P (VUint x bitsize)) ->
  (forall f bits, P (VFloat f bits)) ->
  (forall items, Forall P items -> P (VArr items)) ->
  (forall fields, Forall (fun kx => P (snd kx)) fields -> P (VObj fields)) ->
  forall v, P v.
Proof.
  intros HB HS HL HI HU HF HA HO.
  refine (fix IH (v : value) : P v :=
            match v with
            | VBool b => HB b
            | VStr s => HS s
            | VBlob data => HL data
            | VInt x bitsize => HI x bitsize
            | VUint x bitsize => HU x bitsize
            | VFloat f bits => HF f bits
            | VArr items =>
                HA items
                  ((fix go (l : list value) : Forall P l :=
                      match l with
                      | [] => Forall_nil _
                      | x :: r => Forall_cons x (IH x) (go r)
                      end) items)
            | VObj fields =>
                HO fields
                  ((fix go (l : list (list byte * value))
                      : Forall (fun kx => P (snd kx)) l :=
                      match l with
                      | [] => Forall_nil _
                      | kx :: r => Forall_cons kx (IH (snd kx)) (go r)
                      end) fields)
            end).
Qed.

Lemma wrap_int_isInt (z : Z) : isInt (wrap_int z) = true.
Proof.
  unfold isInt, wrap_int, intSize.
  change (2 ^ (64 - 1)) with (2 ^ 63). change (2 ^ 64) with (2 * 2 ^ 63).
  pose proof (Z.mod_pos_bound (z + 2 ^ 63) (2 * 2 ^ 63) ltac:(lia)).
  apply andb_true_iff. lia.
Qed.

Lemma wrap_int_back (nd : Z) :
  isInt nd = true -> wrap_int (wrap_int (nd + 1) - 1) = nd.
Proof.
  unfold isInt, wrap_int, intSize. intros H. apply andb_true_iff in H.
  change (2 ^ (64 - 1)) with (2 ^ 63). change (2 ^ 64) with (2 * 2 ^ 63).
  replace ((nd + 1 + 2 ^ 63) mod (2 * 2 ^ 63) - 2 ^ 63 - 1 + 2 ^ 63)
    with ((nd + 1 + 2 ^ 63) mod (2 * 2 ^ 63) - 1) by lia.
  destruct (Z.eq_dec nd (2 ^ 63 - 1)) as [E | Hne].
  { subst nd. reflexivity. }
  rewrite (Z.mod_small (nd + 1 + 2 ^ 63)) by lia.
  rewrite Z.mod_small; lia.
Qed.

Lemma emit_VArr {SC : Strconv} (items : list value) (e : Builder.Builder) :
  emit (VArr items) e
  = End (fold_left (fun e0 x => emit x e0) items (Start e "[")) "]".
Proof.
  reflexivity.
Qed.

Lemma emit_VObj {SC : Strconv} (fields : list (list byte * value))
    (e : Builder.Builder) :
  emit (VObj fields) e
  = End (fold_left (fun e0 kx => emit (snd kx) (Builder.Key e0 (fst kx)))
           fields (Start e "{")) "}".
Proof.
  cbn [emit]. unfold EndObject, StartObject.
  generalize (Start e "{"). induction fields as [| [k x] r IH]; intros e0;
    [reflexivity | apply IH].
Qed.

Lemma chosenKeyTerm_inner (ind : list byte) (st : builderState)
    (kt : option (list byte)) :
  st <> builderInit -> chosenKeyTerm ind st kt = kt.
Proof. destruct st; [contradiction | reflexivity ..]. Qed.

Lemma Key_exact (b : list byte) (er : option error) (ind : list byte)
    (kt : option (list byte)) (st : builderState) (sc : list byte) (nd : Z)
    (k : list byte) :
  Builder.Key (Builder.mk b er ind kt st sc nd) k
  = Builder.mk
      (b ++ separator ind st nd ++ jsonString k
         ++ keyTermText (chosenKeyTerm ind st kt))
      er ind (chosenKeyTerm ind st kt) builderKey sc nd.
Proof.
  unfold Builder.Key, KeyBytes, writeKeyTerm.
  rewrite WriteJsonString_Write, startChunk_exact. setters.
  unfold keyTermText. rewrite <- !app_assoc. reflexivity.
Qed.

Ltac assoc := rewrite <- ?app_assoc; cbn [app]; rewrite ?app_nil_r.

(** The output of the emit calls of a document is its text. *)
Lemma emit_render {SC : Strconv} (v : value) :
  roundTrips v = true ->
  forall b er ind kt st sc nd,
    isInt nd = true ->
    exists sc',
      emit v (Builder.mk b er ind kt st sc nd)
      = Builder.mk
          (b ++ separator ind st nd
             ++ render ind (keyTermText (chosenKeyTerm ind st kt)) nd v)
          er ind (chosenKeyTerm ind st kt) builderValue sc' nd.
Proof.
  induction v as [b0 | s | data | x bitsize | x bitsize | f bits
                  | items IHi | fields IHf] using value_nested_ind;
    intros Hv b er ind kt st sc nd Hnd.
  - cbn [emit render scalarText]. destruct b0; calls; eexists; assoc;
      reflexivity.
  - cbn [emit render scalarText]. calls. eexists. assoc. reflexivity.
  - cbn [emit render scalarText]. unfold Builder.Blob.
    rewrite startChunk_exact.
    destruct (EncodedLen (Z.of_nat (length data)) <? 512);
      rewrite WriteJsonString_Write,
        (jsonString_plain _ (b64Encode_plain _ data (le_n _)));
      setters; eexists; assoc; reflexivity.
  - cbn [emit render scalarText]. unfold Builder.Int.
    rewrite startChunk_exact.
    destruct (32 <? bitsize);
      rewrite ?WriteJsonString_Write,
        ?(jsonString_plain _ (FormatInt_plain x));
      setters; eexists; assoc; reflexivity.
  - cbn [emit render scalarText]. unfold Builder.Uint.
    rewrite startChunk_exact.
    destruct (32 <? bitsize);
      rewrite ?WriteJsonString_Write,
        ?(jsonString_plain _ (FormatUint_plain x));
      setters; eexists; assoc; reflexivity.
  - cbn [emit render scalarText]. cbn [roundTrips] in Hv.
    apply andb_true_iff in Hv. destruct Hv as [Hv _].
    apply andb_true_iff in Hv. destruct Hv as [_ Hfin].
    apply negb_true_iff in Hfin.
    unfold Builder.Float. rewrite startChunk_exact, Hfin. setters.
    eexists. assoc. reflexivity.
  - rewrite emit_VArr. unfold Start. rewrite startChunk_exact. setters.
    cbn [roundTrips] in Hv.
    set (kt1 := chosenKeyTerm ind st kt).
    set (nd1 := wrap_int (nd + 1)).
    assert (forall l, Forall (fun x => roundTrips x = true ->
                forall b er ind kt st sc nd, isInt nd = true ->
                exists sc',
                  emit x (Builder.mk b er ind kt st sc nd)
                  = Builder.mk
                      (b ++ separator ind st nd
                         ++ render ind
                              (keyTermText (chosenKeyTerm ind st kt)) nd x)
                      er ind (chosenKeyTerm ind st kt) builderValue sc' nd) l ->
              forallb roundTrips l = true ->
              forall b0 st0 sc0, st0 <> builderInit ->
              exists sc',
                fold_left (fun e0 x => emit x e0) l
                  (Builder.mk b0 er ind kt1 st0 sc0 nd1)
                = Builder.mk
                    (b0 ++ joinChunks ind nd1 st0
                             (map (render ind (keyTermText kt1) nd1) l))
                    er ind kt1 (if isNil l then st0 else builderValue)
                    sc' nd1) as Hfold.
    { induction 1 as [| x r Hx _ IHr]; intros Hl b0 st0 sc0 Hst.
      - exists sc0. cbn. now rewrite app_nil_r.
      - cbn [forallb] in Hl. apply andb_true_iff in Hl.
        destruct Hl as [Hx1 Hr1]. cbn [fold_left map joinChunks isNil].
        destruct (Hx Hx1 b0 er ind kt1 st0 sc0 nd1 (wrap_int_isInt _))
          as (sc1 & ->).
        rewrite (chosenKeyTerm_inner ind st0 kt1 Hst).
        destruct (IHr Hr1 (b0 ++ separator ind st0 nd1
                              ++ render ind (keyTermText kt1) nd1 x)
                    builderValue sc1 ltac:(discriminate)) as (sc2 & ->).
        exists sc2. f_equal; [assoc; reflexivity | now destruct r]. }
    destruct (Hfold items IHi Hv ((b ++ separator ind st nd) ++ ["["%byte])
                builderObj sc ltac:(discriminate)) as (sc2 & ->).
    assert (wrap_int (nd1 - 1) = nd) as Hback by apply (wrap_int_back nd Hnd).
    unfold End, writeNewLine. setters.
    exists sc2. cbn [render]. fold nd1. fold kt1. unfold closing, lineBreak.
    destruct items as [| x r]; cbn [isNil negb andb builderState_eqb];
      [| destruct (0 <? Z.of_nat (length ind))]; cbn; setters;
      rewrite ?Hback; f_equal; assoc; reflexivity.
  - rewrite emit_VObj. unfold Start. rewrite startChunk_exact. setters.
    cbn [roundTrips] in Hv.
    set (kt1 := chosenKeyTerm ind st kt).
    set (nd1 := wrap_int (nd + 1)).
    assert (forall l, Forall (fun kx => roundTrips (snd kx) = true ->
                forall b er ind kt st sc nd, isInt nd = true ->
                exists sc',
                  emit (snd kx) (Builder.mk b er ind kt st sc nd)
                  = Builder.mk
                      (b ++ separator ind st nd
                         ++ render ind
                              (keyTermText (chosenKeyTerm ind st kt)) nd
                              (snd kx))
                      er ind (chosenKeyTerm ind st kt) builderValue sc' nd) l ->
              forallb (fun kx : list byte * value =>
                         Valid (fst kx) && roundTrips (snd kx)) l = true ->
              forall b0 st0 sc0, st0 <> builderInit ->
              exists sc',
                fold_left (fun e0 kx => emit (snd kx)
                                          (Builder.Key e0 (fst kx))) l
                  (Builder.mk b0 er ind kt1 st0 sc0 nd1)
                = Builder.mk
                    (b0 ++ joinChunks ind nd1 st0
                             (map (fun kx : list byte * value =>
                                     jsonString (fst kx) ++ keyTermText kt1
                                     ++ render ind (keyTermText kt1) nd1
                                          (snd kx)) l))
                    er ind kt1 (if isNil l then st0 else builderValue)
                    sc' nd1) as Hfold.
    { induction 1 as [| [k x] r Hx _ IHr]; intros Hl b0 st0 sc0 Hst.
      - exists sc0. cbn. now rewrite app_nil_r.
      - cbn [forallb fst snd] in Hl. apply andb_true_iff in Hl.
        destruct Hl as [Hx1 Hr1]. apply andb_true_iff in Hx1.
        destruct Hx1 as [_ Hx1].
        cbn [fold_left map joinChunks isNil fst snd] in *.
        rewrite Key_exact, (chosenKeyTerm_inner ind st0 kt1 Hst).
        destruct (Hx Hx1 (b0 ++ separator ind st0 nd1 ++ jsonString k
                             ++ keyTermText kt1)
                    er ind kt1 builderKey sc0 nd1 (wrap_int_isInt _))
          as (sc1 & ->).
        cbn [chosenKeyTerm separator].
        destruct (IHr Hr1
                    ((b0 ++ separator ind st0 nd1 ++ jsonString k
                         ++ keyTermText kt1)
                       ++ [] ++ render ind (keyTermText kt1) nd1 x)
                    builderValue sc1 ltac:(discriminate)) as (sc2 & ->).
        exists sc2. f_equal; [assoc; reflexivity | now destruct r]. }
    destruct (Hfold fields IHf Hv ((b ++ separator ind st nd) ++ ["{"%byte])
                builderObj sc ltac:(discriminate)) as (sc2 & ->).
    assert (wrap_int (nd1 - 1) = nd) as Hback by apply (wrap_int_back nd Hnd).
    unfold End, writeNewLine. setters.
    exists sc2. cbn [render]. fold nd1. fold kt1. unfold closing, lineBreak.
    destruct fields as [| x r]; cbn [isNil negb andb builderState_eqb];
      [| destruct (0 <? Z.of_nat (length ind))]; cbn; setters;
      rewrite ?Hback; f_equal; assoc; reflexivity.
Qed.

(** *** The tokenizer at a position *)

Lemma skipSpace_spaces (ws s : list byte) :
  forallb json.isSpace ws = true ->
  json.skipSpace (ws ++ s) = json.skipSpace s.
Proof.
  induction ws as [| b r IH]; intros H; [reflexivity |].
  cbn [forallb] in H. apply andb_true_iff in H. destruct H as [Hb Hr].
  cbn [app json.skipSpace]. rewrite Hb. auto.
Qed.

Lemma skipSpace_stop (c : byte) (r : list byte) :
  json.isSpace c = false -> json.skipSpace (c :: r) = c :: r.
Proof. intros H. cbn [json.skipSpace]. now rewrite H. Qed.

(** [Token] consumes the separator of the position and goes on at the
    token behind it. *)
Lemma Token_at (p : position) (dec : json.Decoder) (ws1 ws2 : list byte)
    (c : byte) (r : list byte) :
  json.state dec = posState p ->
  json.buf dec = ws1 ++ posSep p ++ ws2 ++ c :: r ->
  forallb json.isSpace ws1 = true -> forallb json.isSpace ws2 = true ->
  json.isSpace c = false ->
  Byte.eqb c ":" = false -> Byte.eqb c "," = false ->
  exists d2,
    json.Token dec = json.tokenAt dec d2 c
    /\ json.buf d2 = c :: r /\ json.state d2 = posInner p
    /\ json.tokenStack d2 = json.tokenStack dec.
Proof.
  intros Hst Hbuf H1 H2 Hsp Hco Hcm.
  destruct dec as [bf sc st stack]. cbn in Hst, Hbuf. subst st bf.
  unfold json.Token, json.peek. cbn [json.buf].
  rewrite (skipSpace_spaces ws1 _ H1).
  destruct p; cbn [posSep app posState posInner];
    try (rewrite (skipSpace_spaces ws2 _ H2), (skipSpace_stop c r Hsp);
         cbn [hd_error fst snd]; rewrite Hco, Hcm;
         eexists; split; [reflexivity |]; repeat split).
  all: rewrite skipSpace_stop by reflexivity; cbn [hd_error fst snd];
    cbn [json.advance json.state json.buf json.tokenStack json.scanned tl];
    cbv beta iota;
    change (Byte.eqb "," ":") with false;
    change (Byte.eqb "," ",") with true;
    change (Byte.eqb ":" ":") with true; cbv iota;
    unfold json.peek; cbn [json.buf];
    rewrite (skipSpace_spaces ws2 _ H2), (skipSpace_stop c r Hsp);
    cbn [hd_error fst snd];
    eexists; split; [reflexivity |]; repeat split.
Qed.

Lemma scalarStart_tests (c : byte) :
  scalarStart c = true ->
  json.isSpace c = false /\ Byte.eqb c "[" = false /\ Byte.eqb c "{" = false
  /\ Byte.eqb c "]" = false /\ Byte.eqb c "}" = false
  /\ Byte.eqb c ":" = false /\ Byte.eqb c "," = false.
Proof.
  unfold scalarStart. intros Hc. apply negb_true_iff in Hc.
  destruct (json.isSpace c) eqn:Hsp; [discriminate Hc |]. cbn [orb] in Hc.
  repeat (apply orb_false_iff in Hc; destruct Hc as [Hc ?]).
  repeat split; assumption.
Qed.

(** A scalar at a position: the token is the scalar, and the tokenizer
    stands behind it. *)
Lemma Token_scalar (p : position) (dec : json.Decoder) (ws1 ws2 : list byte)
    (c : byte) (r rest : list byte) (t : json_Token) :
  json.state dec = posState p ->
  json.buf dec = ws1 ++ posSep p ++ ws2 ++ c :: r ->
  forallb json.isSpace ws1 = true -> forallb json.isSpace ws2 = true ->
  scalarStart c = true ->
  isValuePos p = true \/ c = x22 ->
  json.decodeScalar (c :: r) = Some (t, rest) ->
  exists d',
    json.Token dec = (t, None, d')
    /\ json.buf d' = rest /\ json.state d' = posAfter p
    /\ json.tokenStack d' = json.tokenStack dec.
Proof.
  intros Hst Hbuf H1 H2 Hc Hp HD.
  destruct (scalarStart_tests c Hc) as (Hsp & E1 & E2 & E3 & E4 & E5 & E6).
  destruct (Token_at p dec ws1 ws2 c r Hst Hbuf H1 H2 Hsp E5 E6)
    as (d2 & -> & Hb2 & Hs2 & Hk2).
  unfold json.tokenAt. rewrite E1, E2, E3, E4, E5, E6. cbn [orb].
  rewrite Hs2, Hb2, HD.
  destruct p; cbn [posInner posAfter json.tokenValueAllowed
                     json.tokenValueEnd];
    try (eexists; split; [reflexivity |]; repeat split; assumption).
  all: destruct Hp as [Hp | ->]; [discriminate Hp |];
    change (Byte.eqb x22 x22) with true; cbv iota;
    eexists; split; [reflexivity |]; repeat split; assumption.
Qed.

(** An opening delimiter at a value position. *)
Lemma Token_open (p : position) (dec : json.Decoder) (ws1 ws2 : list byte)
    (c : byte) (r : list byte) :
  json.state dec = posState p ->
  json.buf dec = ws1 ++ posSep p ++ ws2 ++ c :: r ->
  forallb json.isSpace ws1 = true -> forallb json.isSpace ws2 = true ->
  isValuePos p = true ->
  c = "["%byte \/ c = "{"%byte ->
  exists d',
    json.Token dec
    = (TDelim (if Byte.eqb c "[" then 91 else 123), None, d')
    /\ json.buf d' = r
    /\ json.state d'
       = (if Byte.eqb c "[" then json.tokenArrayStart
          else json.tokenObjectStart)
    /\ json.tokenStack d' = json.tokenStack dec ++ [posInner p].
Proof.
  intros Hst Hbuf H1 H2 Hp Hc.
  assert (json.isSpace c = false /\ Byte.eqb c ":" = false
          /\ Byte.eqb c "," = false) as (Hsp & E5 & E6)
    by (destruct Hc as [-> | ->]; repeat split; reflexivity).
  destruct (Token_at p dec ws1 ws2 c r Hst Hbuf H1 H2 Hsp E5 E6)
    as (d2 & -> & Hb2 & Hs2 & Hk2).
  unfold json.tokenAt. rewrite Hs2, Hb2, Hk2. cbn [tl].
  destruct Hc as [-> | ->].
  - change (Byte.eqb "[" "[") with true. cbv iota.
    destruct p; try discriminate Hp;
      cbn [posInner json.tokenValueAllowed];
      eexists; split; try reflexivity; repeat split.
  - change (Byte.eqb "{" "[") with false.
    change (Byte.eqb "{" "{") with true. cbv iota.
    destruct p; try discriminate Hp;
      cbn [posInner json.tokenValueAllowed];
      eexists; split; try reflexivity; repeat split.
Qed.

(** The closing delimiter of a container that was opened at a value
    position. *)
Lemma Token_close (p : position) (dec : json.Decoder) (ws : list byte)
    (c : byte) (r : list byte) (stack : list json.tokenState) :
  json.buf dec = ws ++ c :: r ->
  forallb json.isSpace ws = true ->
  json.tokenStack dec = stack ++ [posInner p] ->
  isValuePos p = true ->
  (c = "]"%byte
   /\ (json.state dec = json.tokenArrayStart
       \/ json.state dec = json.tokenArrayComma))
  \/ (c = "}"%byte
      /\ (json.state dec = json.tokenObjectStart
          \/ json.state dec = json.tokenObjectComma)) ->
  json.More dec = false
  /\ exists d',
       json.Token dec
       = (TDelim (if Byte.eqb c "]" then 93 else 125), None, d')
       /\ json.buf d' = r /\ json.state d' = posAfter p
       /\ json.tokenStack d' = stack.
Proof.
  intros Hbuf Hws Hk Hp Hc.
  destruct dec as [bf sc st stk]. cbn in Hbuf, Hk. subst bf stk.
  assert (json.isSpace c = false /\ Byte.eqb c ":" = false
          /\ Byte.eqb c "," = false) as (Hsp & E5 & E6)
    by (destruct Hc as [[-> _] | [-> _]]; repeat split; reflexivity).
  split.
  - unfold json.More, json.peek. cbn [json.buf fst].
    rewrite (skipSpace_spaces ws _ Hws), (skipSpace_stop c r Hsp).
    cbn [hd_error]. destruct Hc as [[-> _] | [-> _]]; reflexivity.
  - unfold json.Token, json.peek. cbn [json.buf].
    rewrite (skipSpace_spaces ws _ Hws), (skipSpace_stop c r Hsp).
    cbn [hd_error fst snd]. rewrite E5, E6.
    unfold json.tokenAt.
    cbn [json.advance json.state json.buf json.tokenStack json.scanned tl].
    rewrite last_last, removelast_last.
    destruct Hc as [[-> [Hs | Hs]] | [-> [Hs | Hs]]]; cbn in Hs; subst st;
      cbv beta iota;
      repeat match goal with
             | |- context [Byte.eqb ?a ?b] =>
                 let v := eval vm_compute in (Byte.eqb a b) in
                 change (Byte.eqb a b) with v
             end; cbv iota;
      destruct p; try discriminate Hp;
      eexists; split; try reflexivity; repeat split.
Qed.

(** *** The Reader at a position *)

Lemma next_scalar (c : Reader json.Decoder) (p : position)
    (txt : list byte) (c0 : byte) (r rest : list byte) (t : json_Token) :
  stands c p txt -> txt = c0 :: r ->
  err c = None ->
  scalarStart c0 = true ->
  isValuePos p = true \/ c0 = x22 ->
  json.decodeScalar (c0 :: r) = Some (t, rest) ->
  exists c1, next c = (t, c1) /\ passed c c1 p rest /\ tok c1 = t.
Proof.
  intros (Hst & ws1 & ws2 & H1 & H2 & Hbuf) -> He Hc Hp HD.
  destruct (Token_scalar p (d c) ws1 ws2 c0 r rest t Hst Hbuf H1 H2 Hc Hp HD)
    as (d' & HT & Hb & Hs & Hk).
  unfold next. cbn [dec_Token JSONDecoder]. rewrite HT.
  eexists. split; [reflexivity |]. unfold passed. cbn.
  repeat split; assumption.
Qed.

Lemma valueEnds_numberEnds (rest : list byte) :
  valueEnds rest = true -> numberEnds rest = true.
Proof.
  destruct rest as [| c r]; [reflexivity |]. unfold valueEnds, numberEnds.
  intros H. destruct c; vm_compute in H |- *; congruence.
Qed.

Lemma decodeScalar_number (v : Z) (rest : list byte) :
  Z.abs v < 2 ^ 53 -> numberEnds rest = true ->
  json.decodeScalar (FormatInt v ++ rest)
  = Some (Tfloat64 (json.numberValue (FormatInt v)), rest).
Proof.
  intros Hv Hr. destruct (FormatInt_starts v) as (c & r & E & Hc).
  destruct (number_head c Hc) as (_ & H1 & H2 & H3 & H4).
  pose proof (scanNumber_FormatInt v rest Hr) as HS.
  destruct (truncF_numberValue_FormatInt v Hv) as [_ Hinf].
  unfold json.decodeScalar. rewrite E in HS |- *. cbn [app] in HS |- *.
  rewrite H1, H2, H3, H4, HS. rewrite <- E.
  destruct (json.numberValue (FormatInt v)); try reflexivity.
  discriminate Hinf.
Qed.

Lemma scanNumber_whole (txt : list byte) :
  forall st lit,
    json.scanNumber st txt = Some (lit, []) ->
    lit = txt
    /\ forall rest, numberEnds rest = true ->
                    json.scanNumber st (txt ++ rest) = Some (txt, rest).
Proof.
  induction txt as [| c r IH]; intros st lit H.
  - cbn in H. destruct (json.numAccept st) eqn:Ha; [| discriminate H].
    injection H as <-. split; [reflexivity |]. intros rest Hr.
    destruct rest as [| c r]; cbn [app json.scanNumber];
      [now rewrite Ha |].
    now rewrite (numNext_ends st c r Hr), Ha.
  - cbn [json.scanNumber] in H.
    destruct (json.numNext st c) as [st' |] eqn:Hn.
    + destruct (json.scanNumber st' r) as [[l rs] |] eqn:Hs;
        [| discriminate H].
      injection H as <- ->. destruct (IH st' l Hs) as [-> Hx].
      split; [reflexivity |]. intros rest Hr. cbn [app json.scanNumber].
      now rewrite Hn, (Hx rest Hr).
    + destruct (json.numAccept st); discriminate H.
Qed.

Lemma numNext_begin (c : byte) (st : json.numState) :
  json.numNext json.numBegin c = Some st ->
  c = "-"%byte \/ isDigit c = true.
Proof.
  unfold json.numNext. destruct (Byte.eqb c "-") eqn:E.
  - intros _. left. now apply Byte.byte_dec_bl.
  - intros H. right. destruct c; vm_compute in H |- *; congruence.
Qed.

Lemma decodeScalar_float {SC : Strconv} (f : float64) (bits : Z)
    (rest : list byte) :
  floatReadsBack f bits = true -> numberEnds rest = true ->
  exists c r,
    Builder.floatText f bits = c :: r /\ scalarStart c = true
    /\ json.decodeScalar (Builder.floatText f bits ++ rest)
       = Some (Tfloat64 (readFloat f bits), rest).
Proof.
  unfold floatReadsBack, readFloat. intros H Hr.
  destruct (json.scanNumber json.numBegin (Builder.floatText f bits))
    as [[lit [| x xs]] |] eqn:Hs; try discriminate H.
  apply andb_true_iff in H. destruct H as [Hinf _].
  apply negb_true_iff in Hinf.
  destruct (scanNumber_whole _ _ _ Hs) as [-> Hx].
  destruct (Builder.floatText f bits) as [| c r] eqn:E;
    [discriminate Hs |].
  exists c, r. split; [reflexivity |].
  assert (c = "-"%byte \/ isDigit c = true) as Hc.
  { cbn [json.scanNumber] in Hs.
    destruct (json.numNext json.numBegin c) as [st' |] eqn:Hn;
      [exact (numNext_begin c st' Hn) | discriminate Hs]. }
  destruct (number_head c Hc) as (Hss & H1 & H2 & H3 & H4).
  split; [assumption |].
  unfold json.decodeScalar. cbn [app]. rewrite H1, H2, H3, H4.
  change (c :: r ++ rest) with ((c :: r) ++ rest). rewrite (Hx rest Hr).
  destruct (json.numberValue (c :: r)); try reflexivity.
  discriminate Hinf.
Qed.

Lemma next_string (c : Reader json.Decoder) (p : position)
    (s rest : list byte) :
  stands c p (jsonString s ++ rest) -> err c = None ->
  exists c1,
    next c = (Tstring (coerceUTF8 s), c1) /\ passed c c1 p rest
    /\ tok c1 = Tstring (coerceUTF8 s).
Proof.
  intros Hs He. pose proof (decodeScalar_jsonString s rest) as HD.
  rewrite jsonString_cons in Hs, HD. cbn [app] in Hs, HD.
  exact (next_scalar c p _ x22 _ rest _ Hs eq_refl He eq_refl
           (or_intror eq_refl) HD).
Qed.

Lemma next_plain_string (c : Reader json.Decoder) (p : position)
    (s rest : list byte) :
  Forall (fun b => plain b = true) s ->
  stands c p ((x22 :: s ++ [x22]) ++ rest) -> err c = None ->
  exists c1, next c = (Tstring s, c1) /\ passed c c1 p rest.
Proof.
  intros Hp Hs He.
  change (x22 :: s ++ [x22]) with ([x22] ++ s ++ [x22]) in Hs.
  rewrite <- (jsonString_plain s Hp) in Hs.
  destruct (next_string c p s rest Hs He) as (c1 & Hn & Hpa & _).
  rewrite (plain_coerce s Hp) in Hn. eauto.
Qed.

Lemma next_number (c : Reader json.Decoder) (p : position) (v : Z)
    (rest : list byte) :
  stands c p (FormatInt v ++ rest) -> err c = None ->
  isValuePos p = true -> Z.abs v < 2 ^ 53 -> valueEnds rest = true ->
  exists c1,
    next c = (Tfloat64 (json.numberValue (FormatInt v)), c1)
    /\ passed c c1 p rest.
Proof.
  intros Hs He Hp Hv Hr.
  pose proof (decodeScalar_number v rest Hv (valueEnds_numberEnds _ Hr)) as HD.
  destruct (FormatInt_starts v) as (c0 & r & E & Hc).
  destruct (number_head c0 Hc) as (Hss & _).
  rewrite E in Hs, HD. cbn [app] in Hs, HD.
  destruct (next_scalar c p _ c0 _ rest _ Hs eq_refl He Hss
              (or_introl Hp) HD) as (c1 & Hn & Hpa & _).
  rewrite E. eauto.
Qed.

Lemma pow2_le_31 (b : Z) : 0 < b <= 32 -> 2 ^ (b - 1) <= 2 ^ 31.
Proof. intros H. apply Z.pow_le_mono_r; lia. Qed.

Lemma pow2_le_32 (b : Z) : 0 < b <= 32 -> 2 ^ b <= 2 ^ 32.
Proof. intros H. apply Z.pow_le_mono_r; lia. Qed.

(** A value that is no container, pulled at a value position. *)
Lemma pull_scalar {SC : Strconv} (v : value) (c : Reader json.Decoder)
    (p : position) (rest : list byte) :
  match v with VArr _ | VObj _ => False | _ => True end ->
  roundTrips v = true -> isValuePos p = true ->
  stands c p (scalarText v ++ rest) -> valueEnds rest = true ->
  err c = None ->
  exists c1, pull v c = Some (readBack v, c1) /\ passed c c1 p rest.
Proof.
  intros Hsc Hv Hp Hs Hr He.
  destruct v as [b | s | data | x bitsize | x bitsize | f bits | l | l];
    try contradiction; cbn [scalarText roundTrips pull readBack] in *.
  - destruct (next_scalar c p _ (if b then "t"%byte else "f"%byte)
                (if b then B "rue" ++ rest else B "alse" ++ rest) rest
                (Tbool b) Hs) as (c1 & Hn & Hpa & _);
      try (destruct b; reflexivity); try assumption;
      [left; assumption |].
    unfold Reader.Bool. rewrite Hn. eauto.
  - destruct (next_string c p s rest Hs He) as (c1 & Hn & Hpa & _).
    rewrite (coerceUTF8_valid s Hv) in Hn.
    unfold Reader.Str. rewrite Hn. eauto.
  - destruct (next_plain_string c p _ rest
                (b64Encode_plain _ data (le_n _)) Hs He)
      as (c1 & Hn & Hpa).
    unfold Reader.Blob, Reader.Str. rewrite Hn.
    destruct (b64Encode data) as [| y l] eqn:E.
    + apply b64Encode_nil in E. subst data. eauto.
    + rewrite <- E, DecodeString_b64Encode. eauto.
  - repeat (apply andb_true_iff in Hv; destruct Hv as [Hv ?]).
    unfold Reader.Int.
    destruct (Z.ltb_spec 32 bitsize) as [Hw | Hn32].
    + destruct (next_plain_string c p _ rest (FormatInt_plain x) Hs He)
        as (c1 & Hn & Hpa).
      rewrite Hn, ParseInt_FormatInt by lia. eauto.
    + pose proof (pow2_le_31 bitsize ltac:(lia)).
      assert (Z.abs x < 2 ^ 53) as Hx by lia.
      destruct (next_number c p x rest Hs He Hp Hx Hr) as (c1 & Hn & Hpa).
      rewrite Hn. unfold int64_of_float.
      rewrite (proj1 (truncF_numberValue_FormatInt x Hx)).
      assert (((- 2 ^ 63 <=? x) && (x <? 2 ^ 63)) = true) as ->
          by (apply andb_true_iff; lia).
      eauto.
  - repeat (apply andb_true_iff in Hv; destruct Hv as [Hv ?]).
    unfold Reader.Uint.
    destruct (Z.ltb_spec 32 bitsize) as [Hw | Hn32].
    + destruct (next_plain_string c p _ rest (FormatUint_plain x) Hs He)
        as (c1 & Hn & Hpa).
      rewrite Hn, ParseUint_FormatUint by lia. eauto.
    + pose proof (pow2_le_32 bitsize ltac:(lia)).
      assert (Z.abs x < 2 ^ 53) as Hx by lia.
      assert (FormatUint x = FormatInt x) as E
          by (unfold FormatInt; assert ((x <? 0) = false) as -> by lia;
              reflexivity).
      rewrite E in Hs.
      destruct (next_number c p x rest Hs He Hp Hx Hr) as (c1 & Hn & Hpa).
      rewrite Hn. unfold uint64_of_float.
      rewrite (proj1 (truncF_numberValue_FormatInt x Hx)).
      assert (((0 <=? x) && (x <? 2 ^ 64)) = true) as ->
          by (apply andb_true_iff; lia).
      eauto.
  - apply andb_true_iff in Hv. destruct Hv as [_ Hf].
    destruct (decodeScalar_float f bits rest Hf (valueEnds_numberEnds _ Hr))
      as (c0 & r & E & Hss & HD).
    rewrite E in Hs, HD. cbn [app] in Hs, HD.
    destruct (next_scalar c p _ c0 _ rest _ Hs eq_refl He Hss
                (or_introl Hp) HD) as (c1 & Hn & Hpa & _).
    unfold Reader.Float. rewrite Hn. eauto.
Qed.

Lemma pull_VArr {D : Type} {Dec : Decoder D} (items : list value)
    (c : Reader D) :
  pull (VArr items) c
  = (let '(ok, c1) := ArrayStart c in
     if ok then
       match pullList pull items c1 with
       | Some (items', c2) => Some (VArr items', c2)
       | None => None
       end
     else None).
Proof. reflexivity. Qed.

Lemma pull_VObj {D : Type} {Dec : Decoder D}
    (fields : list (list byte * value)) (c : Reader D) :
  pull (VObj fields) c
  = (let '(ok, c1) := ObjectStart c in
     if ok then
       match pullFieldList pull fields c1 with
       | Some (fields', c2) => Some (VObj fields', c2)
       | None => None
       end
     else None).
Proof. reflexivity. Qed.

(** The first byte of a document's text starts a token that is no
    closing delimiter. *)
Lemma render_head {SC : Strconv} (ind kt : list byte) (nd : Z) (v : value) :
  roundTrips v = true ->
  exists c0 r,
    render ind kt nd v = c0 :: r
    /\ json.isSpace c0 = false
    /\ Byte.eqb c0 "]" = false /\ Byte.eqb c0 "}" = false.
Proof.
  intros Hv.
  destruct v as [b | s | data | x bitsize | x bitsize | f bits | l | l];
    cbn [render scalarText].
  - destruct b; do 2 eexists; split; try reflexivity; repeat split.
  - rewrite jsonString_cons. do 2 eexists. split; [reflexivity |].
    repeat split.
  - do 2 eexists. split; [reflexivity |]. repeat split.
  - destruct (32 <? bitsize).
    + do 2 eexists. split; [reflexivity |]. repeat split.
    + destruct (FormatInt_starts x) as (c0 & r & E & Hc).
      exists c0, r. split; [assumption |].
      destruct (number_head c0 Hc) as (Hs & _).
      destruct (scalarStart_tests c0 Hs) as (? & _ & _ & ? & ? & _).
      auto.
  - destruct (32 <? bitsize).
    + do 2 eexists. split; [reflexivity |]. repeat split.
    + destruct (FormatUint_head x) as (c0 & r & E & Hc).
      exists c0, r. split; [assumption |].
      destruct (number_head c0 (or_intror Hc)) as (Hs & _).
      destruct (scalarStart_tests c0 Hs) as (? & _ & _ & ? & ? & _).
      auto.
  - cbn [roundTrips] in Hv. apply andb_true_iff in Hv.
    destruct Hv as [_ Hf].
    destruct (decodeScalar_float f bits [] Hf eq_refl)
      as (c0 & r & E & Hs & _).
    exists c0, r. split; [assumption |].
    destruct (scalarStart_tests c0 Hs) as (? & _ & _ & ? & ? & _). auto.
  - do 2 eexists. split; [reflexivity |]. repeat split.
  - do 2 eexists. split; [reflexivity |]. repeat split.
Qed.

(** [More] in front of a token that is no closing delimiter. *)
Lemma More_pending (c : Reader json.Decoder) (q : position)
    (c0 : byte) (r : list byte) :
  stands c q (c0 :: r) ->
  json.isSpace c0 = false ->
  Byte.eqb c0 "]" = false -> Byte.eqb c0 "}" = false ->
  Reader.More c = Some (true, c).
Proof.
  intros (Hst & ws1 & ws2 & H1 & H2 & Hbuf) Hsp E1 E2.
  unfold Reader.More. cbn [dec_More JSONDecoder].
  assert (json.More (d c) = true) as ->; [| reflexivity].
  unfold json.More, json.peek. cbn [fst]. rewrite Hbuf.
  rewrite (skipSpace_spaces ws1 _ H1).
  destruct q; cbn [posSep app];
    try (rewrite (skipSpace_spaces ws2 _ H2), (skipSpace_stop c0 r Hsp);
         cbn [hd_error]; now rewrite E1, E2);
    reflexivity.
Qed.

(** [ObjectStart] and [ArrayStart] at their delimiter. *)
Lemma pushDelim_open (c : Reader json.Decoder) (p : position)
    (c0 : byte) (r : list byte) :
  stands c p (c0 :: r) -> err c = None -> isValuePos p = true ->
  c0 = "["%byte \/ c0 = "{"%byte ->
  exists c1,
    pushDelim c (if Byte.eqb c0 "[" then 91 else 123) = (true, c1)
    /\ err c1 = None
    /\ delimstack c1 = delimstack c ++ [delim c]
    /\ json.buf (d c1) = r
    /\ json.state (d c1)
       = (if Byte.eqb c0 "[" then json.tokenArrayStart
          else json.tokenObjectStart)
    /\ json.tokenStack (d c1) = json.tokenStack (d c) ++ [posInner p].
Proof.
  intros (Hst & ws1 & ws2 & H1 & H2 & Hbuf) He Hp Hc.
  destruct (Token_open p (d c) ws1 ws2 c0 r Hst Hbuf H1 H2 Hp Hc)
    as (d' & HT & Hb & Hs & Hk).
  unfold pushDelim, next. cbn [dec_Token JSONDecoder]. rewrite HT.
  destruct Hc as [-> | ->]; cbn; eexists; (split; [reflexivity |]);
    cbn; repeat split; assumption.
Qed.

(** [More] at the closing delimiter of the container. *)
Lemma More_close (c : Reader json.Decoder) (p : position)
    (cl : list byte) (c0 : byte) (rest : list byte)
    (ds : list Z) (dl : Z) (stack : list json.tokenState) :
  json.buf (d c) = cl ++ c0 :: rest ->
  forallb json.isSpace cl = true ->
  json.tokenStack (d c) = stack ++ [posInner p] ->
  isValuePos p = true ->
  (c0 = "]"%byte
   /\ (json.state (d c) = json.tokenArrayStart
       \/ json.state (d c) = json.tokenArrayComma))
  \/ (c0 = "}"%byte
      /\ (json.state (d c) = json.tokenObjectStart
          \/ json.state (d c) = json.tokenObjectComma)) ->
  err c = None -> delimstack c = ds ++ [dl] ->
  exists c1,
    Reader.More c = Some (false, c1)
    /\ err c1 = None /\ delim c1 = dl /\ delimstack c1 = ds
    /\ json.buf (d c1) = rest /\ json.state (d c1) = posAfter p
    /\ json.tokenStack (d c1) = stack.
Proof.
  intros Hbuf Hcl Hk Hp Hc He Hds.
  destruct (Token_close p (d c) cl c0 rest stack Hbuf Hcl Hk Hp Hc)
    as (HM & d' & HT & Hb & Hs & Hk').
  unfold Reader.More, popDelim, next. cbn [dec_More dec_Token JSONDecoder].
  rewrite HM, HT.
  cbn [delimstack set_tok set_d Reader.delimstack]. rewrite Hds.
  destruct (ds ++ [dl]) as [| y l] eqn:E;
    [destruct ds; discriminate E |].
  rewrite <- E. eexists. split; [reflexivity |].
  cbn. rewrite last_last, removelast_last. repeat split; assumption.
Qed.

(** *** White space the Builder writes *)

Lemma lineBreak_spaces (ind : list byte) (nd : Z) :
  forallb json.isSpace ind = true ->
  forallb json.isSpace (lineBreak ind nd) = true.
Proof.
  intros H. unfold lineBreak. cbn [forallb].
  change (json.isSpace x0a) with true. cbn [andb].
  induction (Z.to_nat nd) as [| n IH]; [reflexivity |].
  cbn [repeat concat]. rewrite forallb_app, H, IH. reflexivity.
Qed.

Lemma closing_spaces (ind : list byte) (nd : Z) (empty : bool) :
  forallb json.isSpace ind = true ->
  forallb json.isSpace (closing ind nd empty) = true.
Proof.
  intros H. unfold closing.
  destruct (negb empty && (0 <? Z.of_nat (length ind)));
    [now apply lineBreak_spaces | reflexivity].
Qed.

(** The Reader in front of the next chunk of a container: [st] is the
    Builder's state before the chunk, [q] the tokenizer's position. *)
Lemma stands_chunk (c : Reader json.Decoder) (ind : list byte) (nd : Z)
    (st : builderState) (q : position) (txt : list byte) :
  forallb json.isSpace ind = true ->
  (st = builderObj /\ (q = PFirst \/ q = PKeyFirst))
  \/ (st = builderValue /\ (q = PNext \/ q = PKeyNext)) ->
  json.state (d c) = posState q ->
  json.buf (d c) = separator ind st nd ++ txt ->
  stands c q txt.
Proof.
  intros Hi Hl Hst Hbuf. split; [assumption |].
  destruct Hl as [[-> Hq] | [-> Hq]]; cbn [separator] in Hbuf.
  - exists (if 0 <? Z.of_nat (length ind) then lineBreak ind nd else []), [].
    split; [| split; [reflexivity |]].
    + destruct (0 <? Z.of_nat (length ind));
        [now apply lineBreak_spaces | reflexivity].
    + destruct Hq as [-> | ->]; exact Hbuf.
  - exists [], (if (0 <? nd) && (0 <? Z.of_nat (length ind))
                then lineBreak ind nd else []).
    split; [reflexivity | split].
    + destruct ((0 <? nd) && (0 <? Z.of_nat (length ind)));
        [now apply lineBreak_spaces | reflexivity].
    + destruct Hq as [-> | ->]; exact Hbuf.
Qed.

Lemma valueEnds_join (ind : list byte) (nd : Z) (texts : list (list byte))
    (cl : list byte) (c0 : byte) (rest : list byte) :
  forallb json.isSpace cl = true ->
  c0 = "]"%byte \/ c0 = "}"%byte ->
  valueEnds (joinChunks ind nd builderValue texts ++ cl ++ c0 :: rest) = true.
Proof.
  intros Hcl Hc. destruct texts as [| t r]; [| reflexivity].
  cbn [joinChunks app]. destruct cl as [| s cl'].
  - destruct Hc as [-> | ->]; reflexivity.
  - cbn [forallb] in Hcl. apply andb_true_iff in Hcl.
    destruct Hcl as [Hs _]. cbn [app valueEnds]. rewrite Hs.
    now rewrite !orb_true_r.
Qed.

Lemma pending (c : Reader json.Decoder) (q : position)
    (c0 : byte) (r : list byte) :
  stands c q (c0 :: r) ->
  json.isSpace c0 = false ->
  Byte.eqb c0 "]" = false -> Byte.eqb c0 "}" = false ->
  dec_More (d c) = true.
Proof.
  intros Hs Hsp E1 E2.
  pose proof (More_pending c q c0 r Hs Hsp E1 E2) as H.
  unfold Reader.More in H. destruct (dec_More (d c)); [reflexivity |].
  destruct (popDelim c); discriminate H.
Qed.

(** [Key] in front of the key of a field. *)
Lemma Key_reads (c : Reader json.Decoder) (q : position)
    (k rest : list byte) :
  stands c q (jsonString k ++ rest) -> err c = None ->
  Valid k = true ->
  exists c1, Reader.Key c = (k, c1) /\ passed c c1 q rest.
Proof.
  intros Hs He Hk.
  destruct (next_string c q k rest Hs He) as (c1 & Hn & Hpa & _).
  rewrite (coerceUTF8_valid k Hk) in Hn.
  pose proof Hs as Hs'. rewrite jsonString_cons in Hs'. cbn [app] in Hs'.
  unfold Reader.Key.
  rewrite (pending c q x22 _ Hs' eq_refl eq_refl eq_refl), Hn. eauto.
Qed.

(** *** Containers *)

Lemma pullList_render {SC : Strconv} (ind kt : list byte) (nd1 : Z)
    (p : position) (cl rest : list byte) (ds : list Z) (dl : Z)
    (stack : list json.tokenState) :
  forallb json.isSpace ind = true -> colonTerm kt ->
  forallb json.isSpace cl = true -> isValuePos p = true ->
  forall l,
    Forall pullsBack l -> forallb roundTrips l = true ->
    forall (c : Reader json.Decoder) (st : builderState) (q : position),
      (st = builderObj /\ q = PFirst) \/ (st = builderValue /\ q = PNext) ->
      json.state (d c) = posState q ->
      json.buf (d c)
      = joinChunks ind nd1 st (map (render ind kt nd1) l)
        ++ cl ++ "]"%byte :: rest ->
      err c = None -> delimstack c = ds ++ [dl] ->
      json.tokenStack (d c) = stack ++ [posInner p] ->
      exists c3,
        pullList pull l c = Some (map readBack l, c3)
        /\ err c3 = None /\ delim c3 = dl /\ delimstack c3 = ds
        /\ json.buf (d c3) = rest /\ json.state (d c3) = posAfter p
        /\ json.tokenStack (d c3) = stack.
Proof.
  intros Hi Hkt Hcl Hp l HF. induction HF as [| x r Hx _ IH];
    intros Hl c st q Hq Hst Hbuf He Hds Hk.
  - cbn [map joinChunks app] in Hbuf.
    destruct (More_close c p cl "]" rest ds dl stack Hbuf Hcl Hk Hp)
      as (c1 & HM & H); try assumption.
    { left. split; [reflexivity |]. rewrite Hst.
      destruct Hq as [[_ ->] | [_ ->]]; auto. }
    cbn [pullList map]. rewrite HM. eauto.
  - cbn [forallb] in Hl. apply andb_true_iff in Hl. destruct Hl as [Hx1 Hr1].
    cbn [map joinChunks] in Hbuf. rewrite <- !app_assoc in Hbuf.
    set (rest' := joinChunks ind nd1 builderValue (map (render ind kt nd1) r)
                  ++ cl ++ "]"%byte :: rest) in *.
    assert (stands c q (render ind kt nd1 x ++ rest')) as Hs.
    { apply (stands_chunk c ind nd1 st q _ Hi); try assumption.
      destruct Hq as [[-> ->] | [-> ->]]; auto. }
    assert (isValuePos q = true) as Hqv
        by (destruct Hq as [[_ ->] | [_ ->]]; reflexivity).
    destruct (render_head ind kt nd1 x Hx1) as (c0 & r0 & E & Hsp & E1 & E2).
    pose proof Hs as Hs0. rewrite E in Hs0. cbn [app] in Hs0.
    cbn [pullList map].
    rewrite (More_pending c q c0 _ Hs0 Hsp E1 E2).
    destruct (Hx Hx1 ind kt nd1 c q rest' Hi Hkt Hqv Hs
                (valueEnds_join ind nd1 _ cl "]" rest Hcl (or_introl eq_refl))
                He)
      as (c2 & -> & He2 & Hd2 & Hds2 & Hb2 & Hs2 & Hk2).
    destruct (IH Hr1 c2 builderValue PNext) as (c3 & -> & H3); auto.
    + rewrite Hs2. destruct Hq as [[_ ->] | [_ ->]]; reflexivity.
    + congruence.
    + congruence.
    + eauto.
Qed.

Lemma pullFieldList_render {SC : Strconv} (ind kt : list byte) (nd1 : Z)
    (p : position) (cl rest : list byte) (ds : list Z) (dl : Z)
    (stack : list json.tokenState) :
  forallb json.isSpace ind = true -> colonTerm kt ->
  forallb json.isSpace cl = true -> isValuePos p = true ->
  forall l,
    Forall (fun kx => pullsBack (snd kx)) l ->
    forallb (fun kx : list byte * value =>
               Valid (fst kx) && roundTrips (snd kx)) l = true ->
    forall (c : Reader json.Decoder) (st : builderState) (q : position),
      (st = builderObj /\ q = PKeyFirst)
      \/ (st = builderValue /\ q = PKeyNext) ->
      json.state (d c) = posState q ->
      json.buf (d c)
      = joinChunks ind nd1 st
          (map (fun kx : list byte * value =>
                  jsonString (fst kx) ++ kt ++ render ind kt nd1 (snd kx)) l)
        ++ cl ++ "}"%byte :: rest ->
      err c = None -> delimstack c = ds ++ [dl] ->
      json.tokenStack (d c) = stack ++ [posInner p] ->
      exists c3,
        pullFieldList pull l c
        = Some (map (fun kx : list byte * value =>
                       (fst kx, readBack (snd kx))) l, c3)
        /\ err c3 = None /\ delim c3 = dl /\ delimstack c3 = ds
        /\ json.buf (d c3) = rest /\ json.state (d c3) = posAfter p
        /\ json.tokenStack (d c3) = stack.
Proof.
  intros Hi Hkt Hcl Hp l HF. induction HF as [| [k x] r Hx _ IH];
    intros Hl c st q Hq Hst Hbuf He Hds Hk.
  - cbn [map joinChunks app] in Hbuf.
    destruct (More_close c p cl "}" rest ds dl stack Hbuf Hcl Hk Hp)
      as (c1 & HM & H); try assumption.
    { right. split; [reflexivity |]. rewrite Hst.
      destruct Hq as [[_ ->] | [_ ->]]; auto. }
    cbn [pullFieldList map]. rewrite HM. eauto.
  - cbn [forallb fst snd] in Hl, Hx. apply andb_true_iff in Hl.
    destruct Hl as [Hx1 Hr1]. apply andb_true_iff in Hx1.
    destruct Hx1 as [Hkv Hx1].
    cbn [map joinChunks fst snd] in Hbuf. rewrite <- !app_assoc in Hbuf.
    set (rest' := joinChunks ind nd1 builderValue
                    (map (fun kx : list byte * value =>
                            jsonString (fst kx) ++ kt
                            ++ render ind kt nd1 (snd kx)) r)
                  ++ cl ++ "}"%byte :: rest) in *.
    assert (stands c q (jsonString k ++ kt ++ render ind kt nd1 x ++ rest'))
      as Hs.
    { apply (stands_chunk c ind nd1 st q _ Hi); try assumption.
      destruct Hq as [[-> ->] | [-> ->]]; auto. }
    pose proof Hs as Hs0. rewrite jsonString_cons in Hs0. cbn [app] in Hs0.
    cbn [pullFieldList map fst snd].
    rewrite (More_pending c q x22 _ Hs0 eq_refl eq_refl eq_refl).
    destruct (Key_reads c q k _ Hs He Hkv)
      as (c1 & -> & He1 & Hd1 & Hds1 & Hb1 & Hs1 & Hk1).
    assert (posAfter q = posState PVal) as Hqa
        by (destruct Hq as [[_ ->] | [_ ->]]; reflexivity).
    assert (stands c1 PVal (render ind kt nd1 x ++ rest')) as Hsv.
    { pose proof Hkt as (wsk & Ekt & Hwsk). split; [congruence |].
      exists [], wsk. repeat split; try assumption. rewrite Hb1, Ekt.
      reflexivity. }
    destruct (Hx Hx1 ind kt nd1 c1 PVal rest' Hi Hkt eq_refl Hsv
                (valueEnds_join ind nd1 _ cl "}" rest Hcl (or_intror eq_refl))
                He1)
      as (c2 & -> & He2 & Hd2 & Hds2 & Hb2 & Hs2 & Hk2).
    destruct (IH Hr1 c2 builderValue PKeyNext) as (c3 & -> & H3); auto.
    + congruence.
    + congruence.
    + eauto.
Qed.

(** Every document is pulled back from its text. *)
Lemma pull_render {SC : Strconv} (v : value) : pullsBack v.
Proof.
  induction v as [b0 | s | data | x bitsize | x bitsize | f bits
                  | items IHi | fields IHf] using value_nested_ind;
    intros Hv ind kt nd c p rest Hi Hkt Hp Hs Hr He;
    try (cbn [render] in Hs; apply pull_scalar; [exact I | assumption ..]).
  - cbn [render] in Hs. cbn [roundTrips] in Hv.
    cbn [app] in Hs. rewrite <- ?app_assoc in Hs. cbn [app] in Hs.
    destruct (pushDelim_open c p "[" _ Hs He Hp (or_introl eq_refl))
      as (c1 & HP & He1 & Hds1 & Hb1 & Hs1 & Hk1).
    change (if Byte.eqb "[" "[" then 91 else 123) with 91 in HP.
    change (Byte.eqb "[" "[") with true in Hs1. cbv iota in Hs1.
    rewrite pull_VArr. unfold ArrayStart. rewrite HP.
    destruct (pullList_render ind kt (wrap_int (nd + 1)) p
                (closing ind nd (isNil items)) rest
                (delimstack c) (delim c) (json.tokenStack (d c))
                Hi Hkt (closing_spaces ind nd _ Hi) Hp items IHi Hv
                c1 builderObj PFirst (or_introl (conj eq_refl eq_refl))
                Hs1 Hb1 He1 Hds1 Hk1)
      as (c3 & -> & H3).
    exists c3. split; [reflexivity |]. unfold passed. exact H3.
  - cbn [render] in Hs. cbn [roundTrips] in Hv.
    cbn [app] in Hs. rewrite <- ?app_assoc in Hs. cbn [app] in Hs.
    destruct (pushDelim_open c p "{" _ Hs He Hp (or_intror eq_refl))
      as (c1 & HP & He1 & Hds1 & Hb1 & Hs1 & Hk1).
    change (if Byte.eqb "{" "[" then 91 else 123) with 123 in HP.
    change (Byte.eqb "{" "[") with false in Hs1. cbv iota in Hs1.
    rewrite pull_VObj. unfold ObjectStart. rewrite HP.
    destruct (pullFieldList_render ind kt (wrap_int (nd + 1)) p
                (closing ind nd (isNil fields)) rest
                (delimstack c) (delim c) (json.tokenStack (d c))
                Hi Hkt (closing_spaces ind nd _ Hi) Hp fields IHf Hv
                c1 builderObj PKeyFirst (or_introl (conj eq_refl eq_refl))
                Hs1 Hb1 He1 Hds1 Hk1)
      as (c3 & -> & H3).
    exists c3. split; [reflexivity |]. unfold passed. exact H3.
Qed.

Lemma bytes_same (s : list byte) : all2 Byte.eqb s s = true.
Proof.
  induction s as [| b r IH]; [reflexivity |]. cbn [all2].
  rewrite IH, (Byte.byte_dec_lb (x := b) (y := b) eq_refl). reflexivity.
Qed.

(** What is read back is the document, floats at their width. *)
Lemma readBack_same {SC : Strconv} (v : value) :
  roundTrips v = true -> sameAtWidth v (readBack v) = true.
Proof.
  induction v as [b0 | s | data | x bitsize | x bitsize | f bits
                  | items IHi | fields IHf] using value_nested_ind;
    intros Hv; cbn [readBack sameAtWidth roundTrips] in *.
  - now destruct b0.
  - apply bytes_same.
  - apply bytes_same.
  - now rewrite !Z.eqb_refl.
  - now rewrite !Z.eqb_refl.
  - rewrite Z.eqb_refl. cbn [andb].
    apply andb_true_iff in Hv. destruct Hv as [_ Hf].
    unfold floatReadsBack in Hf. unfold readFloat.
    destruct (json.scanNumber json.numBegin (Builder.floatText f bits))
      as [[lit [| y ys]] |]; try discriminate Hf.
    apply andb_true_iff in Hf. apply Hf.
  - induction IHi as [| x r Hx _ IH]; [reflexivity |].
    cbn [forallb] in Hv. apply andb_true_iff in Hv. destruct Hv as [H1 H2].
    cbn [map all2]. now rewrite (Hx H1), (IH H2).
  - induction IHf as [| [k x] r Hx _ IH]; [reflexivity |].
    cbn [forallb fst snd] in Hv, Hx. apply andb_true_iff in Hv.
    destruct Hv as [H1 H2]. apply andb_true_iff in H1.
    destruct H1 as [_ H1].
    cbn [map all2 fst snd]. now rewrite bytes_same, (Hx H1), (IH H2).
Qed.

(** ** C1: the round trip *)



